(** * BankCrypto: the ledger and authentication handlers of [main.py]

    A shallow embedding of the FastAPI application: the three SQLAlchemy
    tables as lists of rows, Python [float] as IEEE-754 binary64 (Rocq's
    primitive floats), a [Float] column as a float or NULL with the
    conversion SQLite applies when a row is written, the request-scoped
    database session as a small state-and-exception monad, and the two
    external libraries (passlib, python-jose) as interfaces. *)

From Stdlib Require Import ZArith List String Bool Lia Floats.
Import ListNotations.

(** Decimal literals such as [0.1] denote the nearest binary64 number, as
    they do in Python. *)
#[local] Set Warnings "-inexact-float".
Local Open Scope string_scope.
Local Open Scope Z_scope.

(** ** Python floats *)

Module F64.

(** [x >= 0] in Python. *)
Definition nonneg (x : float) : Prop := PrimFloat.leb 0%float x = true.

(** [0 <= x < inf]: a finite, non-negative number. *)
Definition finite_nonneg (x : float) : Prop :=
  PrimFloat.leb 0%float x = true /\ PrimFloat.ltb x infinity = true.


End F64.

(** ** SQLite's REAL columns

    A [Column(Float)] is nullable: the ORM hands its value out as a Python
    float, or as [None] for NULL.  SQLite has no NaN: a NaN bound to a
    statement is stored as NULL.  A REAL value without fractional part is
    kept as an integer and converted back when read, so [-0.0] reads back
    as [0.0]; every other number, the infinities included, reads back as it
    was written. *)

Definition sqlite_real (x : float) : option float :=
  if PrimFloat.is_nan x then None
  else if PrimFloat.is_zero x then Some 0%float
  else Some x.

(** [None] is stored as NULL. *)
Definition sqlite_store (x : option float) : option float :=
  match x with
  | Some v => sqlite_real v
  | None => None
  end.

(** The same Python value: the same float, bit for bit, or [None] twice. *)
Definition same_value (x y : option float) : bool :=
  match x, y with
  | Some a, Some b => PrimFloat.Leibniz.eqb a b
  | None, None => true
  | _, _ => false
  end.

(** [x == y] in Python: [None] equals itself only, [0.0 == -0.0], and NaN
    equals nothing. *)
Definition python_eq (x y : option float) : bool :=
  match x, y with
  | Some a, Some b => PrimFloat.eqb a b
  | None, None => true
  | _, _ => false
  end.

(** ** Database models *)

Module User.
Record t := mk { id : Z; username : string; hashed_password : string }.
End User.

Module Wallet.
Record t := mk {
  id : Z;
  user_id : Z;
  currency : string;
  balance : option float
}.

Definition with_balance (w : t) (b : option float) : t :=
  mk (id w) (user_id w) (currency w) b.
End Wallet.

Module Transaction.
Record t := mk {
  id : Z;
  user_id : Z;
  amount : option float;
  currency : string;
  transaction_type : string;
  recipient_wallet_id : option Z;
  timestamp : Z
}.

Definition with_amount (r : t) (a : option float) : t :=
  mk (id r) (user_id r) a (currency r) (transaction_type r)
     (recipient_wallet_id r) (timestamp r).
End Transaction.

(** The three tables, rows in rowid order. *)
Record DB := mkDB {
  users : list User.t;
  wallets : list Wallet.t;
  transactions : list Transaction.t
}.

Definition empty_db : DB := mkDB [] [] [].

(** SQLite's [INTEGER PRIMARY KEY]: one more than the largest rowid in use,
    1 for an empty table. *)
Definition next_id (ids : list Z) : Z := 1 + fold_right Z.max 0 ids.

(** ** Pydantic request models *)

Module UserCreate.
Record t := mk { username : string; password : string }.
End UserCreate.

Module TransactionCreate.
Record t := mk {
  amount : float;
  currency : string;
  transaction_type : string;
  recipient_wallet_id : option Z
}.
End TransactionCreate.

Module ConversionRequest.
Record t := mk { amount_uzs : float }.
End ConversionRequest.

Module OAuth2PasswordRequestForm.
Record t := mk { username : string; password : string }.
End OAuth2PasswordRequestForm.

Module ConversionOut.
Record t := mk { uzs_amount : float; usdt_amount : float }.
End ConversionOut.

(** ** Exceptions

    A handler ends by returning, by raising an [HTTPException] of its own,
    or with an exception nobody catches, which the framework answers with
    500 Internal Server Error: [TypeError] where [None] meets a float in
    [+=], [-=] or [<], and [ValueError] where passlib refuses a secret
    ([PasswordValueError]) or a stored hash ([UnknownHashError]). *)

Record HTTPException := mkHTTPException { status_code : Z; detail : string }.

Inductive Exception :=
| HTTP (e : HTTPException)
| TypeError
| ValueError.

Coercion HTTP : HTTPException >-> Exception.

Definition credentials_exception : HTTPException :=
  mkHTTPException 401 "Could not validate credentials".

(** ** The request-scoped session

    [get_db] opens a session, hands it to the handler and closes it in its
    [finally]: whatever was not committed is dropped, also when the handler
    ends with an exception.  [working] is what the handler's ORM objects
    hold, [committed] what is in the database file. *)

Record Session := mkSession { committed : DB; working : DB }.

Inductive Outcome (A : Type) : Type :=
| Return (a : A)
| Raise (e : Exception).
Arguments Return {A} a.
Arguments Raise {A} e.

Definition Handler (A : Type) : Type := Session -> Outcome A * Session.

Definition ret {A} (a : A) : Handler A := fun s => (Return a, s).

Definition raise {A} (e : Exception) : Handler A := fun s => (Raise e, s).

Definition bind {A B} (h : Handler A) (k : A -> Handler B) : Handler B :=
  fun s =>
    match h s with
    | (Return a, s') => k a s'
    | (Raise e, s') => (Raise e, s')
    end.

Declare Scope handler_scope.
Delimit Scope handler_scope with handler.
Notation "x <- h ;; k" := (bind h (fun x => k))
  (at level 61, h at next level, right associativity) : handler_scope.
Notation "h ;; k" := (bind h (fun _ => k))
  (at level 61, right associativity) : handler_scope.
Local Open Scope handler_scope.

(** [Depends(get_db)] around a handler: open, run, close. *)
Definition serve {A} (h : Handler A) (db : DB) : Outcome A * DB :=
  let '(r, s) := h (mkSession db db) in (r, committed s).

(** *** Queries: [db.query(...).filter(...).first()] and [.all()] *)

(** [db.query(User).filter(User.username == name).first()]: SQLite compares
    text byte for byte. *)
Definition find_user (name : string) (db : DB) : option User.t :=
  find (fun u => String.eqb (User.username u) name) (users db).

(** [db.query(Wallet).filter(Wallet.user_id == uid,
    Wallet.currency == cur).first()] *)
Definition find_wallet (uid : Z) (cur : string) (db : DB) : option Wallet.t :=
  find (fun w => Z.eqb (Wallet.user_id w) uid
                 && String.eqb (Wallet.currency w) cur) (wallets db).

(** [Wallet.id == None] matches no row. *)
Definition wallet_id_is (rid : option Z) (w : Wallet.t) : bool :=
  match rid with
  | Some i => Z.eqb (Wallet.id w) i
  | None => false
  end.

(** [db.query(Wallet).filter(Wallet.id == rid).first()] *)
Definition find_wallet_by_id (rid : option Z) (db : DB) : option Wallet.t :=
  find (wallet_id_is rid) (wallets db).

Definition wallets_of (uid : Z) (db : DB) : list Wallet.t :=
  filter (fun w => Z.eqb (Wallet.user_id w) uid) (wallets db).

Definition transactions_of (uid : Z) (db : DB) : list Transaction.t :=
  filter (fun t => Z.eqb (Transaction.user_id t) uid) (transactions db).

(** A query reads what the session holds (no handler queries after it has
    added a row, so pending and flushed rows need not be told apart). *)
Definition query {A} (q : DB -> A) : Handler A :=
  fun s => (Return (q (working s)), s).

(** *** Mutations

    An ORM object is the row it was loaded from: the session's identity map
    hands out one object per primary key, so two queries that hit the same
    row yield the same object.  In-place updates are therefore keyed by the
    primary key, and an attribute is read in the session's copy of the row
    the object was loaded from. *)

Definition update_balance (f : float -> float) (wid : Z) (ws : list Wallet.t)
  : list Wallet.t :=
  map (fun w => if Z.eqb (Wallet.id w) wid
                then Wallet.with_balance w (option_map f (Wallet.balance w))
                else w) ws.

Definition set_wallets (ws : list Wallet.t) (s : Session) : Session :=
  mkSession (committed s)
            (mkDB (users (working s)) ws (transactions (working s))).

(** The columns of a wallet row that no handler assigns. *)
Definition same_wallet (w w' : Wallet.t) : bool :=
  Z.eqb (Wallet.id w') (Wallet.id w)
  && Z.eqb (Wallet.user_id w') (Wallet.user_id w)
  && String.eqb (Wallet.currency w') (Wallet.currency w).

(** [wallet.balance], read now: what the session's copy of the row holds. *)
Definition balance_of (wallet : Wallet.t) (db : DB) : option float :=
  match find (same_wallet wallet) (wallets db) with
  | Some w => Wallet.balance w
  | None => None
  end.

(** [wallet.balance < x]; [None < x] raises [TypeError]. *)
Definition balance_lt (wallet : Wallet.t) (x : float) : Handler bool :=
  fun s =>
    match balance_of wallet (working s) with
    | Some b => (Return (PrimFloat.ltb b x), s)
    | None => (Raise TypeError, s)
    end.

(** [wallet.balance += x]; [None + x] raises [TypeError]. *)
Definition balance_iadd (wallet : Wallet.t) (x : float) : Handler unit :=
  fun s =>
    match balance_of wallet (working s) with
    | Some _ =>
        (Return tt,
         set_wallets (update_balance (fun b => PrimFloat.add b x)
                                     (Wallet.id wallet)
                                     (wallets (working s))) s)
    | None => (Raise TypeError, s)
    end.

(** [wallet.balance -= x]; [None - x] raises [TypeError]. *)
Definition balance_isub (wallet : Wallet.t) (x : float) : Handler unit :=
  fun s =>
    match balance_of wallet (working s) with
    | Some _ =>
        (Return tt,
         set_wallets (update_balance (fun b => PrimFloat.sub b x)
                                     (Wallet.id wallet)
                                     (wallets (working s))) s)
    | None => (Raise TypeError, s)
    end.

(** [db.add(User(...))]; the row gets its primary key. *)
Definition db_add_user (name hashed : string) : Handler User.t :=
  fun s =>
    let w := working s in
    let u := User.mk (next_id (map User.id (users w))) name hashed in
    (Return u, mkSession (committed s)
                         (mkDB (users w ++ [u]) (wallets w) (transactions w))).

(** [db.add(Wallet(...))] *)
Definition db_add_wallet (uid : Z) (cur : string) (bal : float)
  : Handler Wallet.t :=
  fun s =>
    let w := working s in
    let r := Wallet.mk (next_id (map Wallet.id (wallets w))) uid cur
                       (Some bal) in
    (Return r, mkSession (committed s)
                         (mkDB (users w) (wallets w ++ [r]) (transactions w))).

(** [db.add(Transaction(...))]; [timestamp] defaults to the current time. *)
Definition db_add_transaction (uid : Z) (amt : float) (cur ty : string)
  (rid : option Z) (now : Z) : Handler Transaction.t :=
  fun s =>
    let w := working s in
    let t := Transaction.mk (next_id (map Transaction.id (transactions w)))
                            uid (Some amt) cur ty rid now in
    (Return t, mkSession (committed s)
                         (mkDB (users w) (wallets w) (transactions w ++ [t]))).

(** *** Commit

    The flush writes, row by row, each [Float] attribute that no longer
    holds the value it was loaded with, and inserts the new rows; what is
    written goes through [sqlite_store].  An attribute that was not
    assigned is not compared at all, so rows are compared by identity of
    the value, [same_value].  (For an assigned attribute SQLAlchemy asks
    [python_eq], which tells [0.0] and [-0.0] not apart and NaN from itself;
    on a value loaded from SQLite both comparisons leave the same cell
    behind, since such a value is no NaN and [-0.0] is stored as [0.0].)
    After the commit every object is expired: its attributes are read from
    the database again. *)

Section Flush.

Context {A : Type} (cell : A -> option float) (set : A -> option float -> A).

Definition insert_row (n : A) : A := set n (sqlite_store (cell n)).

Definition flush_row (o n : A) : A :=
  if same_value (cell o) (cell n) then n else insert_row n.

Fixpoint flush (old new : list A) : list A :=
  match old, new with
  | o :: old', n :: new' => flush_row o n :: flush old' new'
  | [], _ => map insert_row new
  | _ :: _, [] => []
  end.

End Flush.

Definition flush_db (old new : DB) : DB :=
  mkDB (users new)
       (flush Wallet.balance Wallet.with_balance (wallets old) (wallets new))
       (flush Transaction.amount Transaction.with_amount
              (transactions old) (transactions new)).

(** [db.commit()] *)
Definition db_commit : Handler unit :=
  fun s =>
    let db := flush_db (committed s) (working s) in
    (Return tt, mkSession db db).

(** [db.refresh(db_user)], [db.refresh(db_transaction)]: the attributes are
    read back from the row with the object's primary key. *)
Definition db_refresh_user (u : User.t) : Handler User.t :=
  fun s =>
    (Return (match find (fun r => Z.eqb (User.id r) (User.id u))
                        (users (working s)) with
             | Some r => r
             | None => u
             end), s).

Definition db_refresh_transaction (t : Transaction.t)
  : Handler Transaction.t :=
  fun s =>
    (Return (match find (fun r => Z.eqb (Transaction.id r) (Transaction.id t))
                        (transactions (working s)) with
             | Some r => r
             | None => t
             end), s).

(** ** External libraries *)

(** passlib's [CryptContext(schemes=["bcrypt"])]: hashing draws a random
    salt, taken here as an argument.  Both calls can raise instead of
    returning ([None] here): [hash] where bcrypt refuses the secret, [verify]
    also where the stored string is no hash it knows. *)
Class Passlib := {
  pwd_context_hash : string -> string -> option string;
  pwd_context_verify : string -> string -> option bool
}.

(** What the application relies on: a password verifies against its own
    hash. *)
Definition passlib_ok `{Passlib} : Prop :=
  forall salt password hashed,
    pwd_context_hash salt password = Some hashed ->
    pwd_context_verify password hashed = Some true.

(** The secret contains the byte 0. *)
Definition contains_nul (secret : string) : bool :=
  existsb (fun c => Ascii.eqb c Ascii.zero) (list_ascii_of_string secret).

(** bcrypt takes the secret as a C string: passlib refuses one with a NUL
    byte, on [hash] as on [verify]. *)
Definition bcrypt_refuses_nul `{Passlib} : Prop :=
  forall secret,
    contains_nul secret = true ->
    (forall salt, pwd_context_hash salt secret = None)
    /\ (forall hashed, pwd_context_verify secret hashed = None).

(** The claims of a token: the dict [{"sub": ..., "exp": ...}], with the
    expiry in whole seconds. *)
Module Claims.
Record t := mk { sub : option string; exp : option Z }.
End Claims.

(** [exp < now], the test python-jose applies to a decoded token. *)
Definition expired (c : Claims.t) (now : Z) : bool :=
  match Claims.exp c with
  | Some e => Z.ltb e now
  | None => false
  end.

(** python-jose's [jwt]: [jwt_decode] returns [None] where the library
    raises [JWTError]; it reads the clock, passed as the last argument. *)
Class Jose := {
  token : Type;
  jwt_encode : Claims.t -> string -> string -> token;
  jwt_decode : token -> string -> list string -> Z -> option Claims.t;
  jwt_get_unverified_claims : token -> option Claims.t
}.

(** Modelled from the spec: the signed-token library (python-jose) is not
    part of the source.  A credential encodes the identity and an expiry
    timestamp and is signed; resolving it fails if the signature is invalid,
    the credential is malformed, or it is expired.  So: a token decodes to
    the claims it was made from unless they are expired, and whatever
    decodes carries exactly the token's claims, unexpired. *)
Definition jose_ok `{Jose} : Prop :=
  (forall c key alg now,
      jwt_decode (jwt_encode c key alg) key [alg] now
      = if expired c now then None else Some c)
  /\ (forall tok key algs now c,
         jwt_decode tok key algs now = Some c ->
         jwt_get_unverified_claims tok = Some c /\ expired c now = false).

Module TokenOut.
Record t `{Jose} := mk { access_token : token; token_type : string }.
End TokenOut.

(** ** The application *)

Definition SECRET_KEY : string := "your-secret-key-1234567890".
Definition ALGORITHM : string := "HS256".
Definition ACCESS_TOKEN_EXPIRE_MINUTES : Z := 30.

(** Mock exchange rate (1 USDT = 12,700 UZS). *)
Definition convert_uzs_to_usdt (amount_uzs : float) : float :=
  let exchange_rate := 12700%float in
  PrimFloat.div amount_uzs exchange_rate.

Section App.

Context `{Passlib} `{Jose}.

(** *** Security functions *)

Definition verify_password (plain_password hashed_password : string)
  : option bool :=
  pwd_context_verify plain_password hashed_password.

Definition get_password_hash (salt password : string) : option string :=
  pwd_context_hash salt password.

(** A library call that raises ends the handler with [ValueError]. *)
Definition call {A} (r : option A) : Handler A :=
  match r with
  | Some a => ret a
  | None => raise ValueError
  end.

(** [now] is [datetime.utcnow()] in seconds. *)
Definition create_access_token (data : Claims.t) (now : Z) : token :=
  let expire := now + ACCESS_TOKEN_EXPIRE_MINUTES * 60 in
  let to_encode := Claims.mk (Claims.sub data) (Some expire) in
  jwt_encode to_encode SECRET_KEY ALGORITHM.

Definition get_current_user (tok : token) (now : Z) : Handler User.t :=
  match jwt_decode tok SECRET_KEY [ALGORITHM] now with
  | None => raise credentials_exception
  | Some payload =>
      match Claims.sub payload with
      | None => raise credentials_exception
      | Some username =>
          user <- query (find_user username) ;;
          match user with
          | None => raise credentials_exception
          | Some user => ret user
          end
      end
  end.

(** *** Handlers; [current_user] is what [Depends(get_current_user)]
    resolved *)

Definition create_user (user : UserCreate.t) (salt : string)
  : Handler User.t :=
  db_user <- query (find_user (UserCreate.username user)) ;;
  match db_user with
  | Some _ => raise (mkHTTPException 400 "Username already registered")
  | None =>
      hashed_password <-
        call (get_password_hash salt (UserCreate.password user)) ;;
      db_user <- db_add_user (UserCreate.username user) hashed_password ;;
      db_commit ;;
      db_user <- db_refresh_user db_user ;;
      db_add_wallet (User.id db_user) "USDT" 0%float ;;
      db_commit ;;
      ret db_user
  end.

Definition login (form_data : OAuth2PasswordRequestForm.t) (now : Z)
  : Handler TokenOut.t :=
  user <- query (find_user
                   (OAuth2PasswordRequestForm.username form_data)) ;;
  let incorrect :=
    mkHTTPException 401 "Incorrect username or password" in
  match user with
  | None => raise incorrect
  | Some user =>
      verified <-
        call (verify_password (OAuth2PasswordRequestForm.password form_data)
                              (User.hashed_password user)) ;;
      if negb verified
      then raise incorrect
      else
        let access_token :=
          create_access_token
            (Claims.mk (Some (User.username user)) None) now in
        ret (TokenOut.mk _ access_token "bearer")
  end.

Definition get_wallets (current_user : User.t) : Handler (list Wallet.t) :=
  query (wallets_of (User.id current_user)).

Definition create_transaction (transaction : TransactionCreate.t)
  (current_user : User.t) (now : Z) : Handler Transaction.t :=
  let amount := TransactionCreate.amount transaction in
  let kind := TransactionCreate.transaction_type transaction in
  wallet <- query (find_wallet (User.id current_user)
                         (TransactionCreate.currency transaction)) ;;
  match wallet with
  | None => raise (mkHTTPException 400 "Wallet not found")
  | Some wallet =>
      (if String.eqb kind "deposit" then
         balance_iadd wallet amount
       else if String.eqb kind "withdrawal" then
         insufficient <- balance_lt wallet amount ;;
         if insufficient : bool
         then raise (mkHTTPException 400 "Insufficient balance")
         else balance_isub wallet amount
       else if String.eqb kind "transfer" then
         insufficient <- balance_lt wallet amount ;;
         if insufficient : bool
         then raise (mkHTTPException 400 "Insufficient balance")
         else
           recipient_wallet <-
             query (find_wallet_by_id
                      (TransactionCreate.recipient_wallet_id transaction)) ;;
           match recipient_wallet with
           | None => raise (mkHTTPException 400 "Recipient wallet not found")
           | Some recipient_wallet =>
               balance_isub wallet amount ;;
               balance_iadd recipient_wallet amount
           end
       else raise (mkHTTPException 400 "Invalid transaction type")) ;;
      db_transaction <-
        db_add_transaction (User.id current_user) amount
          (TransactionCreate.currency transaction) kind
          (TransactionCreate.recipient_wallet_id transaction) now ;;
      db_commit ;;
      db_transaction <- db_refresh_transaction db_transaction ;;
      db_commit ;;
      ret db_transaction
  end.

Definition get_transactions (current_user : User.t)
  : Handler (list Transaction.t) :=
  query (transactions_of (User.id current_user)).

Definition convert_currency (conversion : ConversionRequest.t)
  (current_user : User.t) (now : Z) : Handler ConversionOut.t :=
  let usdt_amount :=
    convert_uzs_to_usdt (ConversionRequest.amount_uzs conversion) in
  wallet <- query (find_wallet (User.id current_user) "USDT") ;;
  match wallet with
  | None => raise (mkHTTPException 400 "USDT wallet not found")
  | Some wallet =>
      balance_iadd wallet usdt_amount ;;
      db_add_transaction (User.id current_user) usdt_amount
        "USDT" "deposit" None now ;;
      db_commit ;;
      ret (ConversionOut.mk (ConversionRequest.amount_uzs conversion)
                            usdt_amount)
  end.

(** *** Routes: the bearer token is resolved before the handler runs *)

Inductive Request :=
| POST_users (user : UserCreate.t) (salt : string)
| POST_token (form_data : OAuth2PasswordRequestForm.t)
| GET_wallets (tok : token)
| POST_transactions (tok : token) (transaction : TransactionCreate.t)
| GET_transactions (tok : token)
| POST_convert (tok : token) (conversion : ConversionRequest.t).

Inductive Response :=
| UserOut (u : User.t)
| Token (t : TokenOut.t)
| WalletsOut (ws : list Wallet.t)
| TransactionOut (t : Transaction.t)
| TransactionsOut (ts : list Transaction.t)
| Converted (c : ConversionOut.t).

Definition route (req : Request) (now : Z) : Handler Response :=
  match req with
  | POST_users user salt =>
      r <- create_user user salt ;; ret (UserOut r)
  | POST_token form_data =>
      r <- login form_data now ;; ret (Token r)
  | GET_wallets tok =>
      current_user <- get_current_user tok now ;;
      r <- get_wallets current_user ;; ret (WalletsOut r)
  | POST_transactions tok transaction =>
      current_user <- get_current_user tok now ;;
      r <- create_transaction transaction current_user now ;;
      ret (TransactionOut r)
  | GET_transactions tok =>
      current_user <- get_current_user tok now ;;
      r <- get_transactions current_user ;; ret (TransactionsOut r)
  | POST_convert tok conversion =>
      current_user <- get_current_user tok now ;;
      r <- convert_currency conversion current_user now ;;
      ret (Converted r)
  end.

(** One request against the database. *)
Definition app (req : Request) (now : Z) (db : DB) : Outcome Response * DB :=
  serve (route req now) db.

(** A sequence of timed requests, served one after the other. *)
Fixpoint run (reqs : list (Request * Z)) (db : DB) : DB :=
  match reqs with
  | [] => db
  | (req, now) :: rest => run rest (snd (app req now db))
  end.

End App.

(** ** A reference instance of the library interfaces

    Small executable stand-ins for passlib and python-jose, used to run the
    application on concrete requests. *)

Module Reference.

#[export] Instance passlib : Passlib := {|
  pwd_context_hash := fun _ password =>
    if contains_nul password then None else Some ("$2b$" ++ password);
  pwd_context_verify := fun password hashed =>
    if contains_nul password || negb (String.prefix "$2b$" hashed)
    then None
    else Some (String.eqb hashed ("$2b$" ++ password))
|}.

(** A token carries its claims together with the key and algorithm it was
    signed with. *)
Record signed := mkSigned {
  signed_claims : Claims.t;
  signed_key : string;
  signed_alg : string
}.

#[export] Instance jose : Jose := {|
  token := signed;
  jwt_encode := mkSigned;
  jwt_decode := fun tok key algs now =>
    if String.eqb (signed_key tok) key
       && existsb (String.eqb (signed_alg tok)) algs
       && negb (expired (signed_claims tok) now)
    then Some (signed_claims tok) else None;
  jwt_get_unverified_claims := fun tok => Some (signed_claims tok)
|}.

Definition alice : UserCreate.t := UserCreate.mk "alice" "pw".
Definition bob : UserCreate.t := UserCreate.mk "bob" "hunter2".

Definition alice_form : OAuth2PasswordRequestForm.t :=
  OAuth2PasswordRequestForm.mk "alice" "pw".

(** The database after alice and bob have registered. *)
Definition db_two_users : DB :=
  run [(POST_users alice "s1", 1000); (POST_users bob "s2", 1001)] empty_db.

Definition alice_row : User.t := User.mk 1 "alice" "$2b$pw".
Definition bob_row : User.t := User.mk 2 "bob" "$2b$hunter2".

Definition deposit (x : float) : TransactionCreate.t :=
  TransactionCreate.mk x "USDT" "deposit" None.
Definition withdrawal (x : float) : TransactionCreate.t :=
  TransactionCreate.mk x "USDT" "withdrawal" None.
Definition transfer (x : float) (to : Z) : TransactionCreate.t :=
  TransactionCreate.mk x "USDT" "transfer" (Some to).

(** ... and alice has deposited 100 USDT. *)
Definition db_alice_100 : DB :=
  snd (serve (create_transaction (deposit 100) alice_row 2000) db_two_users).

(** ... or 0.1 USDT. *)
Definition db_alice_tenth : DB :=
  snd (serve (create_transaction (deposit 0.1) alice_row 2000) db_two_users).

(** ... or 0.3 USDT. *)
Definition db_alice_three_tenths : DB :=
  snd (serve (create_transaction (deposit 0.3) alice_row 2000) db_two_users).

(** The bearer token alice gets when she logs in at time 1000. *)
Definition alice_token : token :=
  create_access_token (Claims.mk (Some "alice") None) 1000.

End Reference.

(** ** Vocabulary of the properties *)

(** Non-negative numbers among the specification-level floats. *)
Module SF.

Definition sf_nonneg (x : spec_float) : Prop :=
  SFleb (S754_zero false) x = true.

Variant nonneg_shape : spec_float -> Prop :=
| nn_zero s : nonneg_shape (S754_zero s)
| nn_inf : nonneg_shape (S754_infinity false)
| nn_finite m e : nonneg_shape (S754_finite false m e).

End SF.

(** The ledger row a handler inserts into [db], as the database holds it:
    next primary key, current time, the amount as SQLite stores it. *)
Definition ledger_entry (db : DB) (uid : Z) (amt : float) (cur ty : string)
  (rid : option Z) (now : Z) : Transaction.t :=
  Transaction.mk (next_id (map Transaction.id (transactions db)))
                 uid (sqlite_real amt) cur ty rid now.

(** What the database holds in a cell once the attribute, loaded as [old],
    has been assigned [new] and the row flushed. *)
Definition written (old new : option float) : option float :=
  if same_value old new then new else sqlite_store new.

(** The wallet table with the balance cell of the rows with primary key
    [wid] rewritten by [h]. *)
Definition rewrite_balance (h : option float -> option float) (wid : Z)
  (ws : list Wallet.t) : list Wallet.t :=
  map (fun w => if Z.eqb (Wallet.id w) wid
                then Wallet.with_balance w (h (Wallet.balance w))
                else w) ws.

(** The wallet table after [balance] was assigned [f balance] on the rows
    with primary key [wid], and committed. *)
Definition committed_update (f : float -> float) (wid : Z)
  (ws : list Wallet.t) : list Wallet.t :=
  rewrite_balance (fun c => written c (option_map f c)) wid ws.

(** The wallet table after the session's copy [new] of [old] was
    committed. *)
Definition committed_wallets (old new : list Wallet.t) : list Wallet.t :=
  flush Wallet.balance Wallet.with_balance old new.

(** A cell that holds a float with property [P]; NULL has none. *)
Definition cell_is (P : float -> Prop) (c : option float) : Prop :=
  exists b, c = Some b /\ P b.

(** A cell as SQLite can hold it: NULL, or a number other than [-0.0]. *)
Definition stored_cell (c : option float) : Prop := sqlite_store c = c.

(** Every balance is [>= 0]. *)
Definition balances_nonneg (db : DB) : Prop :=
  Forall (fun w => cell_is F64.nonneg (Wallet.balance w)) (wallets db).

(** [Wallet.id] is a primary key. *)
Definition wallet_ids_unique (db : DB) : Prop :=
  NoDup (map Wallet.id (wallets db)).

(** [Wallet.user_id] is a foreign key into [users]. *)
Definition owners_exist (db : DB) : Prop :=
  Forall (fun w => In (Wallet.user_id w) (map User.id (users db)))
         (wallets db).

(** What the ledger keeps true of the wallet table. *)
Definition wallets_sound (db : DB) : Prop :=
  wallet_ids_unique db /\ balances_nonneg db.



(** The amount a request carries is a finite number [>= 0]. *)
Definition amount_finite_nonneg `{Jose} (req : Request) : Prop :=
  match req with
  | POST_transactions _ transaction =>
      F64.finite_nonneg (TransactionCreate.amount transaction)
  | POST_convert _ conversion =>
      F64.finite_nonneg (ConversionRequest.amount_uzs conversion)
  | _ => True
  end.

(** The bearer token a request presents, for the routes that
    [Depends(get_current_user)]. *)
Definition bearer `{Jose} (req : Request) : option token :=
  match req with
  | GET_wallets tok | POST_transactions tok _
  | GET_transactions tok | POST_convert tok _ => Some tok
  | POST_users _ _ | POST_token _ => None
  end.






(** *** Rounding in [SpecFloat] *)

Module SF_round.

(** [k] right shifts of [M], which came with location [l]: the quotient,
    and no lost bit if [l] is exact and [2^k] divides [M]. *)
Definition shifted (l : location) (M k : Z) (mrs : shr_record) : Prop :=
  shr_m mrs = M / 2 ^ k
  /\ (l = loc_Exact -> M mod 2 ^ k = 0 ->
      shr_r mrs = false /\ shr_s mrs = false).

(** Canonical magnitudes [m * 2^e <= p * 2^e'], as [SFcompare] orders them:
    by exponent, then by mantissa. *)
Definition mag_le (m : positive) (e : Z) (p : positive) (e' : Z) : Prop :=
  e < e' \/ (e = e' /\ Z.pos m <= Z.pos p).

(** A result of sign [s] whose magnitude is at least [m * 2^e]. *)
Variant at_least (s : bool) (m : positive) (e : Z) : spec_float -> Prop :=
| al_inf : at_least s m e (S754_infinity s)
| al_fin p e' : mag_le m e p e' -> at_least s m e (S754_finite s p e').

(** A result of sign [s], or a zero, whose magnitude is at most [m * 2^e]. *)
Variant at_most (s : bool) (m : positive) (e : Z) : spec_float -> Prop :=
| am_zero s' : at_most s m e (S754_zero s')
| am_fin p e' : mag_le p e' m e -> at_most s m e (S754_finite s p e').

(** A number of sign [s], or a zero. *)
Variant sign_is (s : bool) : spec_float -> Prop :=
| si_zero s' : sign_is s (S754_zero s')
| si_inf : sign_is s (S754_infinity s)
| si_fin p e : sign_is s (S754_finite s p e).

(** A number of sign [s], the zero of that sign included. *)
Variant signed (s : bool) : spec_float -> Prop :=
| sg_zero : signed s (S754_zero s)
| sg_inf : signed s (S754_infinity s)
| sg_fin p e : signed s (S754_finite s p e).

(** Neither an infinity nor NaN. *)
Definition sf_finite (x : spec_float) : bool :=
  match x with
  | S754_zero _ | S754_finite _ _ _ => true
  | S754_infinity _ | S754_nan => false
  end.

End SF_round.

(** *** Balances as numbers *)

(** [x == x] in Python: [x] is not NaN. *)
Definition is_number (x : float) : Prop := PrimFloat.eqb x x = true.


(** *** Tables and rows *)

Definition wallet_key (w : Wallet.t) : Z * Z * string :=
  (Wallet.id w, Wallet.user_id w, Wallet.currency w).

(** [db'] has everything [db] had: user rows and ledger rows only get
    appended to, wallet rows keep their place, id, owner and currency. *)
Definition extends (db db' : DB) : Prop :=
  (exists us, users db' = (users db ++ us)%list)
  /\ (exists ws,
         map wallet_key (wallets db') = (map wallet_key (wallets db) ++ ws)%list)
  /\ (exists ts, transactions db' = (transactions db ++ ts)%list).

(** Primary keys and the [unique=True] column. *)
Definition keys_unique (db : DB) : Prop :=
  NoDup (map User.id (users db))
  /\ NoDup (map User.username (users db))
  /\ NoDup (map Wallet.id (wallets db))
  /\ NoDup (map Transaction.id (transactions db)).

(** The i-th wallet belongs to the i-th user, and every wallet is in USDT. *)
Definition one_wallet_each (db : DB) : Prop :=
  map Wallet.user_id (wallets db) = map User.id (users db)
  /\ Forall (fun w => Wallet.currency w = "USDT") (wallets db).

(** A ledger row that makes sense in [db]: its user exists, its kind is one
    of the three the handler applies, and a transfer names an existing
    wallet. *)
Definition entry_ok (db : DB) (t : Transaction.t) : Prop :=
  In (Transaction.user_id t) (map User.id (users db))
  /\ (Transaction.transaction_type t = "deposit"
      \/ Transaction.transaction_type t = "withdrawal"
      \/ Transaction.transaction_type t = "transfer")
  /\ (Transaction.transaction_type t = "transfer" ->
      exists i, Transaction.recipient_wallet_id t = Some i
                /\ In i (map Wallet.id (wallets db))).

Definition ledger_ok (db : DB) : Prop :=
  Forall (entry_ok db) (transactions db).

(** What one served request can do to the database: nothing, a
    registration, or balance updates together with one new ledger row. *)
Inductive step (db : DB) : DB -> Prop :=
| step_none : step db db
| step_register name hashed :
    find_user name db = None ->
    let new_user := User.mk (next_id (map User.id (users db))) name hashed in
    step db (mkDB (users db ++ [new_user])
                  (wallets db
                   ++ [Wallet.mk (next_id (map Wallet.id (wallets db)))
                                 (User.id new_user) "USDT" (Some 0%float)])
                  (transactions db))
| step_ledger ws entry :
    map wallet_key ws = map wallet_key (wallets db) ->
    entry_ok db entry ->
    Transaction.id entry = next_id (map Transaction.id (transactions db)) ->
    step db (mkDB (users db) ws (transactions db ++ [entry])).

(** The routes that only read. *)
Definition read_only `{Jose} (req : Request) : bool :=
  match req with
  | POST_token _ | GET_wallets _ | GET_transactions _ => true
  | POST_users _ _ | POST_transactions _ _ | POST_convert _ _ => false
  end.

(** The wallet table [create_transaction] commits when it applies a
    request: the three branches that end in the ledger entry, with the
    conditions that lead there. *)
Variant applied (transaction : TransactionCreate.t) (current_user : User.t)
  (db : DB) : list Wallet.t -> Prop :=
| applied_deposit wallet b :
    find_wallet (User.id current_user)
      (TransactionCreate.currency transaction) db = Some wallet ->
    Wallet.balance wallet = Some b ->
    TransactionCreate.transaction_type transaction = "deposit" ->
    applied transaction current_user db
      (committed_update
         (fun b => PrimFloat.add b (TransactionCreate.amount transaction))
         (Wallet.id wallet) (wallets db))
| applied_withdrawal wallet b :
    find_wallet (User.id current_user)
      (TransactionCreate.currency transaction) db = Some wallet ->
    Wallet.balance wallet = Some b ->
    TransactionCreate.transaction_type transaction = "withdrawal" ->
    PrimFloat.ltb b (TransactionCreate.amount transaction) = false ->
    applied transaction current_user db
      (committed_update
         (fun b => PrimFloat.sub b (TransactionCreate.amount transaction))
         (Wallet.id wallet) (wallets db))
| applied_transfer wallet b recipient_wallet br :
    find_wallet (User.id current_user)
      (TransactionCreate.currency transaction) db = Some wallet ->
    Wallet.balance wallet = Some b ->
    TransactionCreate.transaction_type transaction = "transfer" ->
    PrimFloat.ltb b (TransactionCreate.amount transaction) = false ->
    find_wallet_by_id (TransactionCreate.recipient_wallet_id transaction) db
    = Some recipient_wallet ->
    Wallet.balance recipient_wallet = Some br ->
    applied transaction current_user db
      (committed_wallets (wallets db)
         (update_balance
            (fun b => PrimFloat.add b (TransactionCreate.amount transaction))
            (Wallet.id recipient_wallet)
            (update_balance
               (fun b => PrimFloat.sub b
                           (TransactionCreate.amount transaction))
               (Wallet.id wallet) (wallets db)))).


(** *** Balances as numbers *)

(** [c <= c'] in Python, for two cells that hold floats. *)
Definition cell_leb (c c' : option float) : Prop :=
  match c, c' with
  | Some b, Some b' => PrimFloat.leb b b' = true
  | _, _ => False
  end.

(** The row [w'] is the row [w] with a balance that is not below the old
    one, unless it is NaN or NULL. *)
Definition not_lowered (w w' : Wallet.t) : Prop :=
  wallet_key w' = wallet_key w
  /\ (cell_is is_number (Wallet.balance w') ->
      cell_leb (Wallet.balance w) (Wallet.balance w')).

(** ... with a balance that is not above the old one, unless it is NaN or
    NULL. *)
Definition not_raised (w w' : Wallet.t) : Prop :=
  wallet_key w' = wallet_key w
  /\ (cell_is is_number (Wallet.balance w') ->
      cell_leb (Wallet.balance w') (Wallet.balance w)).

(** Every balance is a number: neither NULL nor NaN. *)
Definition balances_are_numbers (db : DB) : Prop :=
  Forall (fun w => cell_is is_number (Wallet.balance w)) (wallets db).

(** The amount a request carries is finite. *)
Definition amount_finite `{Jose} (req : Request) : Prop :=
  match req with
  | POST_transactions _ transaction =>
      PrimFloat.is_finite (TransactionCreate.amount transaction) = true
  | POST_convert _ conversion =>
      PrimFloat.is_finite (ConversionRequest.amount_uzs conversion) = true
  | _ => True
  end.

(** Every [Float] cell is as SQLite stores it: NULL, or a number other
    than [-0.0]. *)
Definition cells_stored (db : DB) : Prop :=
  Forall (fun w => stored_cell (Wallet.balance w)) (wallets db)
  /\ Forall (fun t => stored_cell (Transaction.amount t)) (transactions db).

(** * Facts *)

(** ** Sign of binary64 results

    The primitive operations are specified by the Standard Library's
    [SpecFloat] functions; the sign of what rounding returns is read off
    them. *)

Module SF_facts.
Import SF.

Section Iter.
Context {A : Type} (f : A -> A) (P : A -> Prop).
Hypothesis Pf : forall a, P a -> P (f a).
Lemma iter_pos_invariant (p : positive) : forall a, P a -> P (iter_pos f p a).
Proof.
  induction p as [p IH | p IH |]; simpl; intros a Ha; auto.
Qed.
End Iter.

Lemma shr_1_nonneg mrs : 0 <= shr_m mrs -> 0 <= shr_m (shr_1 mrs).
Proof.
  destruct mrs as [m r s]. simpl.
  destruct m as [| p | p]; simpl; try lia; destruct p; simpl; lia.
Qed.

Lemma shr_nonneg mrs e n : 0 <= shr_m mrs -> 0 <= shr_m (fst (shr mrs e n)).
Proof.
  intros Hm. destruct n as [| p | p]; simpl; auto.
  apply iter_pos_invariant; auto using shr_1_nonneg.
Qed.

Lemma shr_record_of_loc_m m l : shr_m (shr_record_of_loc m l) = m.
Proof. destruct l as [| []]; reflexivity. Qed.

Lemma shr_fexp_nonneg m e l :
  0 <= m -> 0 <= shr_m (fst (shr_fexp prec emax m e l)).
Proof.
  intros Hm. unfold shr_fexp. apply shr_nonneg.
  now rewrite shr_record_of_loc_m.
Qed.

Lemma round_nearest_even_nonneg m l : 0 <= m -> 0 <= round_nearest_even m l.
Proof.
  intros Hm. destruct l as [| []]; simpl; try lia.
  destruct (Z.even m); lia.
Qed.

Lemma binary_round_aux_nonneg m e l :
  0 <= m -> sf_nonneg (binary_round_aux prec emax false m e l).
Proof.
  intros Hm. unfold binary_round_aux.
  pose proof (shr_fexp_nonneg m e l Hm) as H1.
  destruct (shr_fexp prec emax m e l) as [mrs' e'] eqn:E1. simpl in H1.
  pose proof (shr_fexp_nonneg _ e' loc_Exact
                (round_nearest_even_nonneg _ (loc_of_shr_record mrs') H1)) as H2.
  destruct (shr_fexp prec emax _ e' loc_Exact) as [mrs'' e''] eqn:E2.
  simpl in H2.
  destruct (shr_m mrs'') as [| p | p]; try reflexivity; try lia.
  destruct (e'' <=? emax - prec); reflexivity.
Qed.

Lemma binary_round_nonneg m e : sf_nonneg (binary_round prec emax false m e).
Proof.
  unfold binary_round.
  destruct (shl_align m e _) as [mz ez].
  apply binary_round_aux_nonneg. lia.
Qed.

Lemma binary_normalize_nonneg m e :
  0 <= m -> sf_nonneg (binary_normalize prec emax m e false).
Proof.
  intros Hm. destruct m as [| p | p]; simpl; try lia.
  - reflexivity.
  - apply binary_round_nonneg.
Qed.

Lemma sf_nonneg_shape x : sf_nonneg x -> nonneg_shape x.
Proof.
  destruct x as [s | [] | | [] m e]; unfold sf_nonneg; simpl;
    try discriminate; constructor.
Qed.

Lemma SFadd_nonneg x y :
  sf_nonneg x -> sf_nonneg y -> sf_nonneg (SF64add x y).
Proof.
  intros Hx Hy.
  destruct (sf_nonneg_shape _ Hx); destruct (sf_nonneg_shape _ Hy);
    try reflexivity.
  - destruct s, s0; reflexivity.
  - unfold SF64add, SFadd. apply binary_normalize_nonneg. simpl. lia.
Qed.

Lemma Zdiv_eucl_nonneg a b q r :
  0 <= a -> 0 < b -> Z.div_eucl a b = (q, r) -> 0 <= q.
Proof.
  intros Ha Hb E.
  assert (q = a / b) by (unfold Z.div; now rewrite E).
  subst q. apply Z.div_pos; lia.
Qed.

Lemma SFdiv_nonneg x my ey :
  sf_nonneg x -> sf_nonneg (SF64div x (S754_finite false my ey)).
Proof.
  intros Hx. destruct (sf_nonneg_shape _ Hx) as [s | | m e]; try reflexivity.
  unfold SF64div, SFdiv.
  destruct (SFdiv_core_binary prec emax (Z.pos m) e (Z.pos my) ey)
    as [[mz ez] lz] eqn:E.
  apply binary_round_aux_nonneg.
  unfold SFdiv_core_binary in E.
  set (m' := match _ - _ - _ with Z.pos _ => _ | 0 => _ | Z.neg _ => _ end) in E.
  destruct (Z.div_eucl m' (Z.pos my)) as [q r] eqn:D.
  inversion E; subst.
  eapply Zdiv_eucl_nonneg; [ | | exact D]; [| lia].
  subst m'.
  destruct (_ - _ - _); try lia.
  apply Z.shiftl_nonneg. lia.
Qed.

Lemma digits2_pos_size m : digits2_pos m = Pos.size m.
Proof. induction m; simpl; congruence. Qed.

Lemma digits2_pos_bounds m :
  2 ^ (Z.pos (digits2_pos m) - 1) <= Z.pos m < 2 ^ Z.pos (digits2_pos m).
Proof.
  rewrite digits2_pos_size.
  pose proof (Pos.size_gt m) as Hgt.
  pose proof (Pos.size_le m) as Hle.
  apply Pos2Z.pos_lt_pos in Hgt. apply Pos2Z.pos_le_pos in Hle.
  rewrite Pos2Z.inj_pow in Hgt, Hle.
  change (Z.pos m~0) with (2 * Z.pos m) in Hle.
  split; [| exact Hgt].
  replace (Z.pos (Pos.size m)) with (Z.succ (Z.pos (Pos.size m) - 1)) in Hle by lia.
  rewrite Z.pow_succ_r in Hle by lia. lia.
Qed.

Lemma iter_xO_value m d : Z.pos (Pos.iter xO m d) = Z.pos m * 2 ^ Z.pos d.
Proof.
  induction d as [| d IH] using Pos.peano_ind.
  - simpl. lia.
  - rewrite Pos.iter_succ, Pos2Z.inj_succ, Z.pow_succ_r by lia.
    rewrite Pos2Z.inj_xO, IH. lia.
Qed.

Lemma shl_align_same m e : shl_align m e e = (m, e).
Proof. unfold shl_align. now rewrite Z.sub_diag. Qed.

Lemma shl_align_lower m e e' :
  e' < e -> Z.pos (fst (shl_align m e e')) = Z.pos m * 2 ^ (e - e').
Proof.
  intros H. unfold shl_align.
  destruct (e' - e) as [| d | d] eqn:E; try lia.
  simpl. rewrite iter_xO_value.
  replace (e - e') with (Z.pos d) by lia. reflexivity.
Qed.

(** For canonical mantissas, the larger exponent has the larger value. *)
Lemma canonical_exponent_lt mx ex my ey :
  canonical_mantissa prec emax mx ex = true ->
  canonical_mantissa prec emax my ey = true ->
  ey < ex ->
  Z.pos my < Z.pos mx * 2 ^ (ex - ey).
Proof.
  unfold canonical_mantissa, fexp, emin. intros Hx Hy Hlt.
  apply Z.eqb_eq in Hx, Hy.
  change (3 - emax - prec) with (-1074) in *.
  change prec with 53 in *.
  pose proof (digits2_pos_bounds mx) as [Hx1 _].
  pose proof (digits2_pos_bounds my) as [_ Hy2].
  assert (Z.pos (digits2_pos mx) = 53) as Dx by lia.
  assert (Z.pos (digits2_pos my) <= 53) as Dy by lia.
  rewrite Dx in Hx1.
  assert (2 ^ Z.pos (digits2_pos my) <= 2 ^ 53)
    by (apply Z.pow_le_mono_r; lia).
  assert (2 ^ 1 <= 2 ^ (ex - ey)) by (apply Z.pow_le_mono_r; lia).
  change (2 ^ (53 - 1)) with 4503599627370496 in Hx1.
  change (2 ^ 53) with 9007199254740992 in *.
  change (2 ^ 1) with 2 in *.
  nia.
Qed.

Lemma SFsub_nonneg x y :
  valid_binary x = true -> valid_binary y = true ->
  sf_nonneg x -> sf_nonneg y ->
  SFltb y (S754_infinity false) = true ->
  SFltb x y = false ->
  sf_nonneg (SF64sub x y).
Proof.
  intros Vx Vy Hx Hy Hfin Hge.
  destruct (sf_nonneg_shape _ Hx) as [s | | mx ex];
    destruct (sf_nonneg_shape _ Hy) as [s' | | my ey];
    try discriminate; try reflexivity.
  - destruct s, s'; reflexivity.
  - unfold SF64sub, SFsub. apply binary_normalize_nonneg. simpl cond_Zopp.
    simpl in Vx, Vy. unfold bounded in Vx, Vy.
    apply andb_prop in Vx, Vy. destruct Vx as [Cx _], Vy as [Cy _].
    unfold SFltb, SFcompare in Hge.
    destruct (Z.compare_spec ex ey) as [E | E | E]; try discriminate.
    + subst ey. rewrite Z.min_id, !shl_align_same. simpl fst.
      destruct (Pos.compare_cont Eq mx my) eqn:C; try discriminate.
      * apply Pos.compare_eq in C. subst. lia.
      * change (Pos.compare mx my = Gt) in C.
        apply Pos.compare_gt_iff in C. lia.
    + rewrite Z.min_r by lia. rewrite shl_align_same. simpl fst.
      rewrite shl_align_lower by lia.
      pose proof (canonical_exponent_lt _ _ _ _ Cx Cy E). lia.
Qed.

End SF_facts.

Module F64_facts.

Lemma nonneg_spec x : F64.nonneg x <-> SF.sf_nonneg (Prim2SF x).
Proof. unfold F64.nonneg, SF.sf_nonneg. now rewrite leb_spec. Qed.

Lemma add_nonneg x y :
  F64.nonneg x -> F64.nonneg y -> F64.nonneg (PrimFloat.add x y).
Proof.
  rewrite !nonneg_spec, add_spec. apply SF_facts.SFadd_nonneg.
Qed.

Lemma sub_nonneg x y :
  F64.nonneg x -> F64.finite_nonneg y -> PrimFloat.ltb x y = false ->
  F64.nonneg (PrimFloat.sub x y).
Proof.
  intros Hx [Hy Hfin] Hge. fold (F64.nonneg y) in Hy.
  rewrite nonneg_spec in *. rewrite ltb_spec in *. rewrite sub_spec.
  apply SF_facts.SFsub_nonneg; auto using Prim2SF_valid.
Qed.

Lemma convert_nonneg x : F64.nonneg x -> F64.nonneg (convert_uzs_to_usdt x).
Proof.
  unfold convert_uzs_to_usdt. rewrite !nonneg_spec, div_spec.
  apply SF_facts.SFdiv_nonneg.
Qed.

End F64_facts.

Local Open Scope list_scope.

(** ** Cells *)

Lemma same_value_eq x y : same_value x y = true <-> x = y.
Proof.
  destruct x as [a |], y as [b |]; cbn; try (split; congruence).
  rewrite FloatAxioms.Leibniz.eqb_spec. split; congruence.
Qed.

Lemma same_value_refl x : same_value x x = true.
Proof. now apply same_value_eq. Qed.

Lemma written_same c : written c c = c.
Proof. unfold written. now rewrite same_value_refl. Qed.

Lemma written_none old : written old None = None.
Proof. unfold written. now destruct (same_value old None). Qed.

(** A flushed cell holds the value assigned, or what SQLite makes of it. *)
Lemma written_cases old new :
  written old new = new \/ written old new = sqlite_store new.
Proof. unfold written. destruct (same_value old new); auto. Qed.

Lemma sqlite_real_cases x :
  (PrimFloat.is_nan x = true /\ sqlite_real x = None)
  \/ (PrimFloat.is_nan x = false /\ PrimFloat.is_zero x = true
      /\ sqlite_real x = Some 0%float)
  \/ (PrimFloat.is_nan x = false /\ PrimFloat.is_zero x = false
      /\ sqlite_real x = Some x).
Proof.
  unfold sqlite_real.
  destruct (PrimFloat.is_nan x); [now left | right].
  destruct (PrimFloat.is_zero x); [left | right]; auto.
Qed.

(** What SQLite has stored, it stores as it is. *)
Lemma sqlite_real_stored x : stored_cell (sqlite_real x).
Proof.
  unfold stored_cell.
  destruct (sqlite_real_cases x) as [[_ ->] | [(_ & _ & ->) | (N & Z & ->)]];
    [reflexivity | reflexivity |].
  cbn. unfold sqlite_real. now rewrite N, Z.
Qed.

Lemma sqlite_store_stored c : stored_cell (sqlite_store c).
Proof. destruct c; [apply sqlite_real_stored | reflexivity]. Qed.

(** On a cell SQLite can hold, the flush is the storage conversion. *)
Lemma written_stored old new :
  stored_cell old -> written old new = sqlite_store new.
Proof.
  unfold written. intros Hold.
  destruct (same_value old new) eqn:E; [| reflexivity].
  apply same_value_eq in E. subst new. now symmetry.
Qed.

Lemma written_is_stored old new :
  stored_cell old -> stored_cell (written old new).
Proof.
  intros Hold. rewrite written_stored by exact Hold.
  apply sqlite_store_stored.
Qed.

(** ** Tables *)

Lemma next_id_above ids i : In i ids -> i < next_id ids.
Proof.
  unfold next_id. induction ids as [| j ids IH]; cbn [fold_right In]; [tauto |].
  intros [-> | Hin]; [lia |]. specialize (IH Hin). lia.
Qed.

Lemma next_id_fresh ids : ~ In (next_id ids) ids.
Proof. intros Hin. apply next_id_above in Hin. lia. Qed.

Lemma update_balance_rewrite f wid ws :
  update_balance f wid ws = rewrite_balance (option_map f) wid ws.
Proof. reflexivity. Qed.

Lemma rewrite_balance_ids h wid ws :
  map Wallet.id (rewrite_balance h wid ws) = map Wallet.id ws.
Proof.
  unfold rewrite_balance. rewrite map_map. apply map_ext.
  intros w. now destruct (Wallet.id w =? wid).
Qed.

Lemma update_balance_ids f wid ws :
  map Wallet.id (update_balance f wid ws) = map Wallet.id ws.
Proof. apply rewrite_balance_ids. Qed.

Lemma committed_update_ids f wid ws :
  map Wallet.id (committed_update f wid ws) = map Wallet.id ws.
Proof. apply rewrite_balance_ids. Qed.

Lemma update_balance_twice f g wid ws :
  update_balance f wid (update_balance g wid ws)
  = update_balance (fun b => f (g b)) wid ws.
Proof.
  unfold update_balance. rewrite map_map. apply map_ext.
  intros w. destruct (Wallet.id w =? wid) eqn:E; simpl; rewrite E;
    [| reflexivity].
  now destruct (Wallet.balance w).
Qed.


Lemma find_map_stable {A} (p : A -> bool) (g : A -> A) (l : list A) (w : A) :
  (forall x, p (g x) = p x) ->
  find p l = Some w -> find p (map g l) = Some (g w).
Proof.
  intros Hp. induction l as [| a l IH]; cbn [find map]; [discriminate |].
  rewrite Hp. destruct (p a); [| exact IH].
  intros E. now inversion E.
Qed.

(** The first row that meets [p] is the first that meets a sharper test it
    meets. *)
Lemma find_sharper {A} (p q : A -> bool) (l : list A) (x : A) :
  (forall y, q y = true -> p y = true) -> q x = true ->
  find p l = Some x -> find q l = Some x.
Proof.
  intros Hqp Hx. induction l as [| a l IH]; cbn [find]; [discriminate |].
  destruct (p a) eqn:Pa.
  - intros E. inversion E; subst. now rewrite Hx.
  - destruct (q a) eqn:Qa; [| exact IH].
    apply Hqp in Qa. congruence.
Qed.

Lemma find_snoc {A} (f : A -> bool) (l : list A) (x : A) :
  find f (l ++ [x])
  = match find f l with
    | Some y => Some y
    | None => if f x then Some x else None
    end.
Proof.
  induction l as [| a l IH]; simpl; [reflexivity |].
  now destruct (f a).
Qed.

Lemma same_wallet_refl w : same_wallet w w = true.
Proof.
  unfold same_wallet. now rewrite !Z.eqb_refl, String.eqb_refl.
Qed.

Lemma same_wallet_spec w w' :
  same_wallet w w' = true ->
  Wallet.id w' = Wallet.id w /\ Wallet.user_id w' = Wallet.user_id w
  /\ Wallet.currency w' = Wallet.currency w.
Proof.
  unfold same_wallet. intros E.
  apply andb_prop in E as [E C]. apply andb_prop in E as [I U].
  apply Z.eqb_eq in I, U. apply String.eqb_eq in C. auto.
Qed.

Lemma same_wallet_rewritten h wid w x :
  same_wallet w (if Wallet.id x =? wid
                 then Wallet.with_balance x (h (Wallet.balance x)) else x)
  = same_wallet w x.
Proof. now destruct (Wallet.id x =? wid). Qed.

(** *** Queries against a rewritten wallet table *)

Section Rewritten.

Variables (h : option float -> option float) (wid : Z) (db : DB)
  (us : list User.t) (ts : list Transaction.t).

Local Abbreviation db' := (mkDB us (rewrite_balance h wid (wallets db)) ts).
Local Abbreviation rewritten :=
  (fun w => if Wallet.id w =? wid
            then Wallet.with_balance w (h (Wallet.balance w)) else w).

Lemma find_wallet_rewritten uid cur wallet :
  find_wallet uid cur db = Some wallet ->
  find_wallet uid cur db' = Some (rewritten wallet).
Proof.
  intros F. unfold find_wallet, rewrite_balance in *. cbn [wallets].
  apply (find_map_stable _ rewritten); [| exact F].
  intros w. now destruct (Wallet.id w =? wid).
Qed.


Lemma balance_of_rewritten wallet w :
  find (same_wallet wallet) (wallets db) = Some w ->
  balance_of wallet db'
  = if Wallet.id w =? wid then h (Wallet.balance w) else Wallet.balance w.
Proof.
  intros F. unfold balance_of, rewrite_balance. cbn [wallets].
  rewrite (find_map_stable _ rewritten _ w); [| | exact F].
  - now destruct (Wallet.id w =? wid).
  - intros x. apply same_wallet_rewritten.
Qed.

End Rewritten.

(** The object a query returned is the row it was loaded from. *)
Lemma find_wallet_object uid cur db wallet :
  find_wallet uid cur db = Some wallet ->
  find (same_wallet wallet) (wallets db) = Some wallet.
Proof.
  unfold find_wallet. intros F.
  pose proof (find_some _ _ F) as [_ P]. cbv beta in P.
  revert F. apply find_sharper; [| apply same_wallet_refl].
  intros y E. apply same_wallet_spec in E as (_ & U & C).
  now rewrite U, C.
Qed.

Lemma find_wallet_by_id_object rid db wallet :
  find_wallet_by_id rid db = Some wallet ->
  find (same_wallet wallet) (wallets db) = Some wallet.
Proof.
  unfold find_wallet_by_id. intros F.
  pose proof (find_some _ _ F) as [_ P].
  revert F. apply find_sharper; [| apply same_wallet_refl].
  intros y E. apply same_wallet_spec in E as (I & _ & _).
  unfold wallet_id_is in *. destruct rid; [| discriminate]. now rewrite I.
Qed.

Lemma balance_of_object wallet db :
  find (same_wallet wallet) (wallets db) = Some wallet ->
  balance_of wallet db = Wallet.balance wallet.
Proof. unfold balance_of. now intros ->. Qed.

Lemma found_wallet_balance uid cur db wallet :
  find_wallet uid cur db = Some wallet ->
  balance_of wallet db = Wallet.balance wallet.
Proof.
  intros F. apply balance_of_object. eapply find_wallet_object. exact F.
Qed.

(** *** Flushing *)

Section FlushFacts.

Context {A : Type} (cell : A -> option float) (set : A -> option float -> A).

Lemma flush_row_same o : flush_row cell set o o = o.
Proof. unfold flush_row. now rewrite same_value_refl. Qed.

Lemma flush_map_app (g : A -> A) (l new : list A) :
  flush cell set l (map g l ++ new)
  = map (fun o => flush_row cell set o (g o)) l
    ++ map (insert_row cell set) new.
Proof.
  induction l as [| o l IH]; [reflexivity |].
  simpl. now rewrite IH.
Qed.

Lemma flush_map (g : A -> A) (l : list A) :
  flush cell set l (map g l)
  = map (fun o => flush_row cell set o (g o)) l.
Proof.
  pose proof (flush_map_app g l []) as E. cbn [map] in E.
  now rewrite !app_nil_r in E.
Qed.

Lemma flush_app (l new : list A) :
  flush cell set l (l ++ new) = l ++ map (insert_row cell set) new.
Proof.
  pose proof (flush_map_app (fun o => o) l new) as E.
  rewrite map_id in E. rewrite E. f_equal.
  rewrite <- (map_id l) at 2. apply map_ext.
  intros o. apply flush_row_same.
Qed.

Lemma flush_same (l : list A) : flush cell set l l = l.
Proof.
  pose proof (flush_app l []) as E. cbn [map] in E.
  now rewrite !app_nil_r in E.
Qed.

End FlushFacts.

Lemma flush_wallet_assigned w c :
  flush_row Wallet.balance Wallet.with_balance w (Wallet.with_balance w c)
  = Wallet.with_balance w (written (Wallet.balance w) c).
Proof.
  unfold flush_row, insert_row, written.
  cbn [Wallet.with_balance Wallet.balance].
  now destruct (same_value _ _).
Qed.

(** Committing one in-place update. *)
Lemma flush_update f wid ws :
  flush Wallet.balance Wallet.with_balance ws (update_balance f wid ws)
  = committed_update f wid ws.
Proof.
  unfold update_balance, committed_update, rewrite_balance.
  rewrite flush_map. apply map_ext. intros w.
  destruct (Wallet.id w =? wid);
    [apply flush_wallet_assigned | apply flush_row_same].
Qed.

(** Committing the two updates of a transfer between two rows. *)
Lemma committed_wallets_transfer f g wid rid ws :
  rid <> wid ->
  committed_wallets ws (update_balance g rid (update_balance f wid ws))
  = committed_update g rid (committed_update f wid ws).
Proof.
  intros Hne.
  unfold committed_wallets, update_balance, committed_update, rewrite_balance.
  rewrite !map_map, flush_map. apply map_ext. intros w.
  destruct (Z.eqb_spec (Wallet.id w) wid) as [E1 | E1];
    cbn [Wallet.with_balance Wallet.id];
    destruct (Z.eqb_spec (Wallet.id w) rid) as [E2 | E2];
    try congruence;
    solve [apply flush_wallet_assigned | apply flush_row_same].
Qed.

Lemma committed_wallets_same ws : committed_wallets ws ws = ws.
Proof. apply flush_same. Qed.

Lemma flush_new_wallet ws w :
  flush Wallet.balance Wallet.with_balance ws (ws ++ [w])
  = ws ++ [Wallet.with_balance w (sqlite_store (Wallet.balance w))].
Proof. now rewrite flush_app. Qed.

Lemma flush_new_transaction ts t :
  flush Transaction.amount Transaction.with_amount ts (ts ++ [t])
  = ts ++ [Transaction.with_amount t (sqlite_store (Transaction.amount t))].
Proof. now rewrite flush_app. Qed.

(** A refresh finds the row that was just inserted. *)
Lemma find_new_transaction ts t :
  Transaction.id t = next_id (map Transaction.id ts) ->
  find (fun r => Transaction.id r =? Transaction.id t) (ts ++ [t]) = Some t.
Proof.
  intros E. rewrite find_snoc, Z.eqb_refl.
  destruct (find _ ts) as [r |] eqn:F; [| reflexivity].
  apply find_some in F as [Hin F]. apply Z.eqb_eq in F.
  exfalso. apply (next_id_fresh (map Transaction.id ts)).
  rewrite <- E, <- F. now apply in_map.
Qed.

Lemma find_new_user us u :
  User.id u = next_id (map User.id us) ->
  find (fun r => User.id r =? User.id u) (us ++ [u]) = Some u.
Proof.
  intros E. rewrite find_snoc, Z.eqb_refl.
  destruct (find _ us) as [r |] eqn:F; [| reflexivity].
  apply find_some in F as [Hin F]. apply Z.eqb_eq in F.
  exfalso. apply (next_id_fresh (map User.id us)).
  rewrite <- E, <- F. now apply in_map.
Qed.

(** ** Running handlers *)

Arguments flush {A} cell set old new : simpl never.
Arguments next_id ids : simpl never.
Arguments convert_uzs_to_usdt amount_uzs : simpl never.

Ltac handler_unfold :=
  unfold serve, bind, query, ret, raise, call, balance_lt, balance_iadd,
    balance_isub, db_add_user, db_add_wallet, db_add_transaction, db_commit,
    db_refresh_user, db_refresh_transaction, set_wallets, flush_db;
  cbn [committed working users wallets transactions fst snd].

(** What the flush and the refresh at the end of [create_transaction] and
    [convert_currency] come to. *)
Lemma committed_entry ts uid amt cur ty rid now :
  let t := Transaction.mk (next_id (map Transaction.id ts))
                          uid (Some amt) cur ty rid now in
  let entry := Transaction.mk (next_id (map Transaction.id ts))
                              uid (sqlite_real amt) cur ty rid now in
  flush Transaction.amount Transaction.with_amount ts (ts ++ [t])
  = ts ++ [entry]
  /\ find (fun r => Transaction.id r =? next_id (map Transaction.id ts))
          (ts ++ [entry])
     = Some entry.
Proof.
  intros t entry. split.
  - apply flush_new_transaction.
  - apply (find_new_transaction ts entry). reflexivity.
Qed.

Section HandlerFacts.

Context `{Passlib} `{Jose}.





(** What a served request leaves in the database, case by case. *)

Section CreateTransaction.

Variables (transaction : TransactionCreate.t) (current_user : User.t)
  (now : Z) (db : DB) (wallet : Wallet.t).

Local Abbreviation amount := (TransactionCreate.amount transaction).
Local Abbreviation kind := (TransactionCreate.transaction_type transaction).
Local Abbreviation entry :=
  (ledger_entry db (User.id current_user) amount
     (TransactionCreate.currency transaction) kind
     (TransactionCreate.recipient_wallet_id transaction) now).

Hypothesis Hwallet :
  find_wallet (User.id current_user)
    (TransactionCreate.currency transaction) db = Some wallet.

Lemma found_balance : balance_of wallet db = Wallet.balance wallet.
Proof. eapply found_wallet_balance. exact Hwallet. Qed.

(** A wallet whose balance is NULL: the first [+=], [-=] or [<] raises. *)
Lemma create_transaction_null :
  Wallet.balance wallet = None ->
  kind = "deposit" \/ kind = "withdrawal" \/ kind = "transfer" ->
  serve (create_transaction transaction current_user now) db
  = (Raise TypeError, db).
Proof.
  intros B K. unfold create_transaction. handler_unfold.
  rewrite Hwallet.
  destruct K as [-> | [-> | ->]]; cbn; now rewrite found_balance, B.
Qed.

Lemma create_transaction_deposit b :
  Wallet.balance wallet = Some b ->
  kind = "deposit" ->
  serve (create_transaction transaction current_user now) db
  = (Return entry,
     mkDB (users db)
          (committed_update (fun b => PrimFloat.add b amount)
             (Wallet.id wallet) (wallets db))
          (transactions db ++ [entry])).
Proof.
  intros B K. unfold ledger_entry, create_transaction. handler_unfold.
  rewrite Hwallet, K. cbn. rewrite found_balance, B. cbn.
  destruct (committed_entry (transactions db) (User.id current_user) amount
              (TransactionCreate.currency transaction) "deposit"
              (TransactionCreate.recipient_wallet_id transaction) now)
    as [-> ->].
  now rewrite flush_update, !flush_same.
Qed.

Lemma create_transaction_insufficient b :
  Wallet.balance wallet = Some b ->
  kind = "withdrawal" \/ kind = "transfer" ->
  PrimFloat.ltb b amount = true ->
  serve (create_transaction transaction current_user now) db
  = (Raise (mkHTTPException 400 "Insufficient balance"), db).
Proof.
  intros B K L. unfold create_transaction. handler_unfold.
  rewrite Hwallet.
  destruct K as [-> | ->]; cbn; now rewrite found_balance, B, L.
Qed.

Lemma create_transaction_withdrawal b :
  Wallet.balance wallet = Some b ->
  kind = "withdrawal" ->
  PrimFloat.ltb b amount = false ->
  serve (create_transaction transaction current_user now) db
  = (Return entry,
     mkDB (users db)
          (committed_update (fun b => PrimFloat.sub b amount)
             (Wallet.id wallet) (wallets db))
          (transactions db ++ [entry])).
Proof.
  intros B K L. unfold ledger_entry, create_transaction. handler_unfold.
  rewrite Hwallet, K. cbn. rewrite found_balance, B, L. cbn.
  rewrite found_balance, B. cbn.
  destruct (committed_entry (transactions db) (User.id current_user) amount
              (TransactionCreate.currency transaction) "withdrawal"
              (TransactionCreate.recipient_wallet_id transaction) now)
    as [-> ->].
  now rewrite flush_update, !flush_same.
Qed.

Lemma create_transaction_no_recipient b :
  Wallet.balance wallet = Some b ->
  kind = "transfer" ->
  PrimFloat.ltb b amount = false ->
  find_wallet_by_id (TransactionCreate.recipient_wallet_id transaction) db
  = None ->
  serve (create_transaction transaction current_user now) db
  = (Raise (mkHTTPException 400 "Recipient wallet not found"), db).
Proof.
  intros B K L R. unfold create_transaction. handler_unfold.
  rewrite Hwallet, K. cbn. rewrite found_balance, B, L. cbn.
  now rewrite R.
Qed.

(** The recipient's attribute once the sender's has been assigned: the
    value just assigned if it is the same object, the loaded one if not. *)
Lemma recipient_balance recipient_wallet f :
  find_wallet_by_id (TransactionCreate.recipient_wallet_id transaction) db
  = Some recipient_wallet ->
  balance_of recipient_wallet
    (mkDB (users db) (update_balance f (Wallet.id wallet) (wallets db))
          (transactions db))
  = if Wallet.id recipient_wallet =? Wallet.id wallet
    then option_map f (Wallet.balance recipient_wallet)
    else Wallet.balance recipient_wallet.
Proof.
  intros R. apply find_wallet_by_id_object in R.
  rewrite update_balance_rewrite.
  now rewrite (balance_of_rewritten _ _ _ _ _ _ _ R).
Qed.

Lemma create_transaction_transfer b recipient_wallet br :
  Wallet.balance wallet = Some b ->
  kind = "transfer" ->
  PrimFloat.ltb b amount = false ->
  find_wallet_by_id (TransactionCreate.recipient_wallet_id transaction) db
  = Some recipient_wallet ->
  Wallet.balance recipient_wallet = Some br ->
  serve (create_transaction transaction current_user now) db
  = (Return entry,
     mkDB (users db)
          (committed_wallets (wallets db)
             (update_balance (fun b => PrimFloat.add b amount)
                (Wallet.id recipient_wallet)
                (update_balance (fun b => PrimFloat.sub b amount)
                   (Wallet.id wallet) (wallets db))))
          (transactions db ++ [entry])).
Proof.
  intros B K L R Br.
  pose proof (recipient_balance recipient_wallet
                (fun b => PrimFloat.sub b amount) R) as Hr.
  rewrite Br in Hr.
  unfold ledger_entry, create_transaction, committed_wallets.
  handler_unfold.
  rewrite Hwallet, K. cbn. rewrite found_balance, B, L. cbn.
  rewrite R. cbn. rewrite found_balance, B. cbn. rewrite Hr.
  destruct (committed_entry (transactions db) (User.id current_user) amount
              (TransactionCreate.currency transaction) "transfer"
              (TransactionCreate.recipient_wallet_id transaction) now)
    as [E1 E2].
  destruct (Wallet.id recipient_wallet =? Wallet.id wallet); cbn;
    now rewrite E1, E2, !flush_same.
Qed.

(** A recipient whose balance is NULL: the credit raises after the debit,
    and the debit is dropped with the session. *)
Lemma create_transaction_recipient_null b recipient_wallet :
  Wallet.balance wallet = Some b ->
  kind = "transfer" ->
  PrimFloat.ltb b amount = false ->
  find_wallet_by_id (TransactionCreate.recipient_wallet_id transaction) db
  = Some recipient_wallet ->
  Wallet.balance recipient_wallet = None ->
  serve (create_transaction transaction current_user now) db
  = (Raise TypeError, db).
Proof.
  intros B K L R Br.
  pose proof (recipient_balance recipient_wallet
                (fun b => PrimFloat.sub b amount) R) as Hr.
  rewrite Br in Hr. cbn in Hr.
  assert (balance_of recipient_wallet
            (mkDB (users db)
                  (update_balance (fun b => PrimFloat.sub b amount)
                     (Wallet.id wallet) (wallets db))
                  (transactions db)) = None) as Hnone
      by (rewrite Hr; now destruct (_ =? _)).
  unfold create_transaction. handler_unfold.
  rewrite Hwallet, K. cbn. rewrite found_balance, B, L. cbn.
  rewrite R. cbn. rewrite found_balance, B. cbn. now rewrite Hnone.
Qed.

Lemma create_transaction_invalid :
  kind <> "deposit" -> kind <> "withdrawal" -> kind <> "transfer" ->
  serve (create_transaction transaction current_user now) db
  = (Raise (mkHTTPException 400 "Invalid transaction type"), db).
Proof.
  intros K1 K2 K3. unfold create_transaction. handler_unfold.
  rewrite Hwallet.
  apply String.eqb_neq in K1, K2, K3. now rewrite K1, K2, K3.
Qed.

End CreateTransaction.

Lemma create_transaction_no_wallet transaction current_user now db :
  find_wallet (User.id current_user)
    (TransactionCreate.currency transaction) db = None ->
  serve (create_transaction transaction current_user now) db
  = (Raise (mkHTTPException 400 "Wallet not found"), db).
Proof.
  intros W. unfold create_transaction. handler_unfold. now rewrite W.
Qed.

Lemma convert_currency_served conversion current_user now db wallet b :
  find_wallet (User.id current_user) "USDT" db = Some wallet ->
  Wallet.balance wallet = Some b ->
  let usdt_amount :=
    convert_uzs_to_usdt (ConversionRequest.amount_uzs conversion) in
  let entry :=
    ledger_entry db (User.id current_user) usdt_amount
      "USDT" "deposit" None now in
  serve (convert_currency conversion current_user now) db
  = (Return (ConversionOut.mk (ConversionRequest.amount_uzs conversion)
                              usdt_amount),
     mkDB (users db)
          (committed_update (fun b => PrimFloat.add b usdt_amount)
             (Wallet.id wallet) (wallets db))
          (transactions db ++ [entry])).
Proof.
  intros W B. unfold ledger_entry, convert_currency. handler_unfold.
  rewrite W. cbn. rewrite (found_wallet_balance _ _ _ _ W), B. cbn.
  destruct (committed_entry (transactions db) (User.id current_user)
              (convert_uzs_to_usdt (ConversionRequest.amount_uzs conversion))
              "USDT" "deposit" None now) as [-> _].
  now rewrite flush_update.
Qed.

Lemma convert_currency_null conversion current_user now db wallet :
  find_wallet (User.id current_user) "USDT" db = Some wallet ->
  Wallet.balance wallet = None ->
  serve (convert_currency conversion current_user now) db
  = (Raise TypeError, db).
Proof.
  intros W B. unfold convert_currency. handler_unfold.
  rewrite W. cbn. now rewrite (found_wallet_balance _ _ _ _ W), B.
Qed.

Lemma convert_currency_no_wallet conversion current_user now db :
  find_wallet (User.id current_user) "USDT" db = None ->
  serve (convert_currency conversion current_user now) db
  = (Raise (mkHTTPException 400 "USDT wallet not found"), db).
Proof.
  intros W. unfold convert_currency. handler_unfold. now rewrite W.
Qed.

(** *** Registration and authentication *)

Lemma create_user_duplicate user salt db existing :
  find_user (UserCreate.username user) db = Some existing ->
  serve (create_user user salt) db
  = (Raise (mkHTTPException 400 "Username already registered"), db).
Proof.
  intros F. unfold create_user. handler_unfold. now rewrite F.
Qed.

(** passlib refuses the secret: nothing has been added yet. *)
Lemma create_user_refused user salt db :
  find_user (UserCreate.username user) db = None ->
  get_password_hash salt (UserCreate.password user) = None ->
  serve (create_user user salt) db = (Raise ValueError, db).
Proof.
  intros F P. unfold create_user. handler_unfold. now rewrite F, P.
Qed.

Lemma create_user_fresh user salt db hashed :
  find_user (UserCreate.username user) db = None ->
  get_password_hash salt (UserCreate.password user) = Some hashed ->
  let new_user :=
    User.mk (next_id (map User.id (users db))) (UserCreate.username user)
            hashed in
  let new_wallet :=
    Wallet.mk (next_id (map Wallet.id (wallets db))) (User.id new_user)
              "USDT" (Some 0%float) in
  serve (create_user user salt) db
  = (Return new_user,
     mkDB (users db ++ [new_user]) (wallets db ++ [new_wallet])
          (transactions db)).
Proof.
  intros F P. unfold create_user. handler_unfold. rewrite F, P. cbn.
  pose proof (find_new_user (users db)
                (User.mk (next_id (map User.id (users db)))
                         (UserCreate.username user) hashed) eq_refl) as R.
  cbn [User.id] in R. rewrite R.
  cbn. now rewrite !flush_same, flush_new_wallet.
Qed.

Lemma login_served form_data now db user :
  find_user (OAuth2PasswordRequestForm.username form_data) db = Some user ->
  verify_password (OAuth2PasswordRequestForm.password form_data)
                  (User.hashed_password user) = Some true ->
  serve (login form_data now) db
  = (Return (TokenOut.mk _
               (create_access_token
                  (Claims.mk (Some (User.username user)) None) now)
               "bearer"),
     db).
Proof.
  intros F V. unfold login. handler_unfold. now rewrite F, V.
Qed.

(** Resolving a token only reads. *)
Lemma get_current_user_reads tok now s :
  snd (get_current_user tok now s) = s.
Proof.
  unfold get_current_user.
  destruct (jwt_decode _ _ _ _) as [payload |]; [| reflexivity].
  destruct (Claims.sub payload); [| reflexivity].
  handler_unfold. now destruct (find_user _ _).
Qed.

Lemma get_current_user_resolved tok now s payload username user :
  jwt_decode tok SECRET_KEY [ALGORITHM] now = Some payload ->
  Claims.sub payload = Some username ->
  find_user username (working s) = Some user ->
  get_current_user tok now s = (Return user, s).
Proof.
  intros D S F. unfold get_current_user. rewrite D, S.
  handler_unfold. now rewrite F.
Qed.

Lemma get_current_user_undecodable tok now s :
  jwt_decode tok SECRET_KEY [ALGORITHM] now = None ->
  get_current_user tok now s = (Raise credentials_exception, s).
Proof.
  intros D. unfold get_current_user. now rewrite D.
Qed.

(** Whoever it returns is a row of [users]. *)
Lemma get_current_user_registered tok now s user s' :
  get_current_user tok now s = (Return user, s') ->
  In user (users (working s)).
Proof.
  unfold get_current_user.
  destruct (jwt_decode _ _ _ _) as [payload |]; [| discriminate].
  destruct (Claims.sub payload) as [username |]; [| discriminate].
  handler_unfold.
  destruct (find_user username (working s)) as [u |] eqn:F; [| discriminate].
  intros E. inversion E; subst.
  unfold find_user in F. now apply find_some in F.
Qed.

End HandlerFacts.

(** ** What the storage conversion keeps *)

Module F64_cell.

Lemma compare_refl_shape x :
  x <> S754_nan -> SFcompare x x = Some Eq.
Proof.
  destruct x as [s | s | | s m e]; try congruence; intros _.
  - reflexivity.
  - now destruct s.
  - unfold SFcompare.
    rewrite Z.compare_refl, Pos.compare_cont_refl. now destruct s.
Qed.

Lemma is_nan_spec x : PrimFloat.is_nan x = true <-> Prim2SF x = S754_nan.
Proof.
  unfold is_nan. rewrite FloatAxioms.eqb_spec. unfold SFeqb. split.
  - destruct (Prim2SF x) as [s | s | | s m e] eqn:E; [| | reflexivity |];
      rewrite compare_refl_shape by discriminate; discriminate.
  - now intros ->.
Qed.

Lemma not_nan_spec x : PrimFloat.is_nan x = false <-> Prim2SF x <> S754_nan.
Proof.
  rewrite <- is_nan_spec. now destruct (PrimFloat.is_nan x).
Qed.

Lemma nonneg_not_nan x : F64.nonneg x -> PrimFloat.is_nan x = false.
Proof.
  rewrite F64_facts.nonneg_spec, not_nan_spec. intros Hx E.
  rewrite E in Hx. discriminate.
Qed.

Lemma zero_shape x :
  PrimFloat.is_zero x = true <-> exists s, Prim2SF x = S754_zero s.
Proof.
  unfold is_zero. rewrite FloatAxioms.eqb_spec.
  change (Prim2SF zero) with (S754_zero false). split.
  - destruct (Prim2SF x) as [s | [] | | [] m e]; try discriminate. eauto.
  - now intros [s ->].
Qed.



(** Comparisons do not tell [0.0] from [-0.0]. *)
Lemma compare_zero x y :
  PrimFloat.is_zero y = true ->
  PrimFloat.leb x y = PrimFloat.leb x 0
  /\ PrimFloat.leb y x = PrimFloat.leb 0 x
  /\ PrimFloat.ltb x y = PrimFloat.ltb x 0.
Proof.
  intros Z. apply zero_shape in Z as [s E].
  rewrite !leb_spec, !ltb_spec, E.
  change (Prim2SF 0) with (S754_zero false).
  now destruct (Prim2SF x) as [sx | [] | | [] m e].
Qed.

(** A property of numbers that [0.0] has is kept by the storage
    conversion. *)
Lemma sqlite_real_keeps (P : float -> Prop) x :
  P x -> P 0%float -> PrimFloat.is_nan x = false ->
  cell_is P (sqlite_real x).
Proof.
  intros Px P0 N. unfold sqlite_real. rewrite N.
  destruct (PrimFloat.is_zero x); [exists 0%float | exists x]; auto.
Qed.

Lemma written_keeps (P : float -> Prop) old x :
  P x -> P 0%float -> PrimFloat.is_nan x = false ->
  cell_is P (written old (Some x)).
Proof.
  intros Px P0 N.
  destruct (written_cases old (Some x)) as [-> | ->];
    [now exists x | now apply sqlite_real_keeps].
Qed.

Lemma nonneg_zero : F64.nonneg 0.
Proof. reflexivity. Qed.

Lemma written_nonneg old x :
  F64.nonneg x -> cell_is F64.nonneg (written old (Some x)).
Proof.
  intros Hx. apply written_keeps;
    [exact Hx | exact nonneg_zero | now apply nonneg_not_nan].
Qed.


End F64_cell.

(** ** Non-negative balances *)

Section Nonneg.

Variable ws : list Wallet.t.
Hypothesis Hids : NoDup (map Wallet.id ws).
Hypothesis Hnonneg :
  Forall (fun w => cell_is F64.nonneg (Wallet.balance w)) ws.

(** A primary key names one row. *)
Lemma wallet_id_inj w w' :
  In w ws -> In w' ws -> Wallet.id w' = Wallet.id w -> w' = w.
Proof.
  clear Hnonneg. induction ws as [| a l IH]; cbn [In map] in *; [tauto |].
  inversion Hids as [| ? ? Hnotin Hrest]; subst.
  intros [-> | Hw] [-> | Hw'] E; auto.
  - exfalso. apply Hnotin. rewrite <- E. now apply in_map.
  - exfalso. apply Hnotin. rewrite E. now apply in_map.
Qed.

Lemma credit_keeps_nonneg x wid :
  F64.nonneg x ->
  Forall (fun w => cell_is F64.nonneg (Wallet.balance w))
         (committed_update (fun b => PrimFloat.add b x) wid ws).
Proof.
  intros Hx. unfold committed_update, rewrite_balance. apply Forall_map.
  eapply Forall_impl; [| exact Hnonneg].
  intros w (b & Eb & Hb). cbv beta.
  destruct (Wallet.id w =? wid); [| now exists b].
  cbn [Wallet.with_balance Wallet.balance]. rewrite Eb. cbn [option_map].
  apply F64_cell.written_nonneg. now apply F64_facts.add_nonneg.
Qed.

Lemma debit_keeps_nonneg x wallet b :
  In wallet ws ->
  Wallet.balance wallet = Some b ->
  F64.finite_nonneg x ->
  PrimFloat.ltb b x = false ->
  Forall (fun w => cell_is F64.nonneg (Wallet.balance w))
         (committed_update (fun b => PrimFloat.sub b x) (Wallet.id wallet) ws).
Proof.
  intros Hin B Hx Hcover. unfold committed_update, rewrite_balance.
  apply Forall_map. apply Forall_forall. intros w Hw.
  pose proof (proj1 (Forall_forall _ _) Hnonneg w Hw) as Hb. cbv beta in Hb.
  destruct (Z.eqb_spec (Wallet.id w) (Wallet.id wallet)) as [E | _];
    [| exact Hb].
  assert (w = wallet) as -> by now apply wallet_id_inj.
  destruct Hb as (b' & Eb & Hb). rewrite B in Eb. inversion Eb; subst b'.
  cbn [Wallet.with_balance Wallet.balance]. rewrite B. cbn [option_map].
  apply F64_cell.written_nonneg. now apply F64_facts.sub_nonneg.
Qed.

(** Debit and credit on the same row. *)
Lemma round_trip_keeps_nonneg x wallet b :
  In wallet ws ->
  Wallet.balance wallet = Some b ->
  F64.finite_nonneg x ->
  PrimFloat.ltb b x = false ->
  Forall (fun w => cell_is F64.nonneg (Wallet.balance w))
         (committed_update
            (fun b => PrimFloat.add (PrimFloat.sub b x) x)
            (Wallet.id wallet) ws).
Proof.
  intros Hin B Hx Hcover. unfold committed_update, rewrite_balance.
  apply Forall_map. apply Forall_forall. intros w Hw.
  pose proof (proj1 (Forall_forall _ _) Hnonneg w Hw) as Hb. cbv beta in Hb.
  destruct (Z.eqb_spec (Wallet.id w) (Wallet.id wallet)) as [E | _];
    [| exact Hb].
  assert (w = wallet) as -> by now apply wallet_id_inj.
  destruct Hb as (b' & Eb & Hb). rewrite B in Eb. inversion Eb; subst b'.
  cbn [Wallet.with_balance Wallet.balance]. rewrite B. cbn [option_map].
  apply F64_cell.written_nonneg. apply F64_facts.add_nonneg; [| apply Hx].
  now apply F64_facts.sub_nonneg.
Qed.

Lemma new_wallet_keeps_ids uid cur bal :
  NoDup (map Wallet.id
           (ws ++ [Wallet.mk (next_id (map Wallet.id ws)) uid cur bal])).
Proof.
  rewrite map_app. cbn [map Wallet.id].
  apply NoDup_app; [exact Hids | repeat constructor; cbn; tauto |].
  intros i Hi [<- | []]. now apply next_id_fresh in Hi.
Qed.

End Nonneg.

Section Soundness.

Context `{Passlib} `{Jose}.

Lemma find_wallet_in uid cur db wallet :
  find_wallet uid cur db = Some wallet -> In wallet (wallets db).
Proof. unfold find_wallet. intros F. now apply find_some in F. Qed.

Lemma find_wallet_by_id_some rid db wallet :
  find_wallet_by_id rid db = Some wallet ->
  rid = Some (Wallet.id wallet) /\ In wallet (wallets db).
Proof.
  unfold find_wallet_by_id. intros F. apply find_some in F as [Hin F].
  split; [| exact Hin].
  unfold wallet_id_is in F. destruct rid as [i |]; [| discriminate].
  apply Z.eqb_eq in F. now rewrite F.
Qed.

Lemma credit_sound db x wid txs :
  wallets_sound db -> F64.nonneg x ->
  wallets_sound
    (mkDB (users db)
          (committed_update (fun b => PrimFloat.add b x) wid (wallets db))
          txs).
Proof.
  intros [Hids Hnn] Hx. split.
  - unfold wallet_ids_unique. cbn [wallets]. now rewrite committed_update_ids.
  - now apply credit_keeps_nonneg.
Qed.

Lemma debit_sound db x wallet b txs :
  wallets_sound db -> In wallet (wallets db) ->
  Wallet.balance wallet = Some b -> F64.finite_nonneg x ->
  PrimFloat.ltb b x = false ->
  wallets_sound
    (mkDB (users db)
          (committed_update (fun b => PrimFloat.sub b x) (Wallet.id wallet)
             (wallets db)) txs).
Proof.
  intros [Hids Hnn] Hin B Hx Hcover. split.
  - unfold wallet_ids_unique. cbn [wallets]. now rewrite committed_update_ids.
  - eapply debit_keeps_nonneg; eassumption.
Qed.

Lemma create_transaction_sound transaction current_user now db :
  wallets_sound db ->
  F64.finite_nonneg (TransactionCreate.amount transaction) ->
  wallets_sound
    (snd (serve (create_transaction transaction current_user now) db)).
Proof.
  intros Hdb Hx.
  assert (F64.nonneg (TransactionCreate.amount transaction)) as Hx0
      by apply Hx.
  destruct (find_wallet (User.id current_user)
              (TransactionCreate.currency transaction) db)
    as [wallet |] eqn:W;
    [| now rewrite create_transaction_no_wallet].
  pose proof (find_wallet_in _ _ _ _ W) as Hin.
  destruct (proj1 (Forall_forall _ _) (proj2 Hdb) wallet Hin) as (b & B & Hb).
  destruct (String.eqb_spec
              (TransactionCreate.transaction_type transaction) "deposit")
    as [K | K1].
  { rewrite (create_transaction_deposit _ _ now _ _ W b B K). cbn [snd].
    now apply credit_sound. }
  destruct (String.eqb_spec
              (TransactionCreate.transaction_type transaction) "withdrawal")
    as [K | K2].
  { destruct (PrimFloat.ltb b (TransactionCreate.amount transaction)) eqn:L.
    - now rewrite (create_transaction_insufficient _ _ now _ _ W b B
                     (or_introl K) L).
    - rewrite (create_transaction_withdrawal _ _ now _ _ W b B K L).
      cbn [snd]. eapply debit_sound; eassumption. }
  destruct (String.eqb_spec
              (TransactionCreate.transaction_type transaction) "transfer")
    as [K | K3];
    [| now rewrite (create_transaction_invalid _ _ now _ _ W K1 K2 K3)].
  destruct (PrimFloat.ltb b (TransactionCreate.amount transaction)) eqn:L.
  { now rewrite (create_transaction_insufficient _ _ now _ _ W b B
                   (or_intror K) L). }
  destruct (find_wallet_by_id
              (TransactionCreate.recipient_wallet_id transaction) db)
    as [recipient_wallet |] eqn:R;
    [| now rewrite (create_transaction_no_recipient _ _ now _ _ W b B K L R)].
  pose proof (find_wallet_by_id_some _ _ _ R) as [_ Hrin].
  destruct (proj1 (Forall_forall _ _) (proj2 Hdb) recipient_wallet Hrin)
    as (br & Br & Hbr).
  rewrite (create_transaction_transfer _ _ now _ _ W b recipient_wallet br
             B K L R Br).
  cbn [snd].
  destruct (Z.eq_dec (Wallet.id recipient_wallet) (Wallet.id wallet))
    as [E | E].
  - rewrite E, update_balance_twice. unfold committed_wallets.
    rewrite flush_update. destruct Hdb as [Hids Hnn]. split.
    + unfold wallet_ids_unique. cbn [wallets].
      now rewrite committed_update_ids.
    + eapply round_trip_keeps_nonneg; eassumption.
  - rewrite committed_wallets_transfer by exact E.
    apply (credit_sound
             (mkDB (users db)
                   (committed_update _ (Wallet.id wallet) (wallets db))
                   (transactions db))); [| exact Hx0].
    eapply debit_sound; eassumption.
Qed.

Lemma convert_currency_sound conversion current_user now db :
  wallets_sound db ->
  F64.finite_nonneg (ConversionRequest.amount_uzs conversion) ->
  wallets_sound
    (snd (serve (convert_currency conversion current_user now) db)).
Proof.
  intros Hdb [Hx _].
  destruct (find_wallet (User.id current_user) "USDT" db)
    as [wallet |] eqn:W;
    [| now rewrite convert_currency_no_wallet].
  pose proof (find_wallet_in _ _ _ _ W) as Hin.
  destruct (proj1 (Forall_forall _ _) (proj2 Hdb) wallet Hin) as (b & B & Hb).
  rewrite (convert_currency_served conversion _ now _ _ b W B). cbn [snd].
  apply credit_sound; [exact Hdb |].
  now apply F64_facts.convert_nonneg.
Qed.

Lemma create_user_sound user salt db :
  wallets_sound db -> wallets_sound (snd (serve (create_user user salt) db)).
Proof.
  intros Hdb.
  destruct (find_user (UserCreate.username user) db) as [existing |] eqn:F;
    [now rewrite (create_user_duplicate _ _ _ _ F) |].
  destruct (get_password_hash salt (UserCreate.password user))
    as [hashed |] eqn:P;
    [| now rewrite (create_user_refused _ _ _ F P)].
  rewrite (create_user_fresh _ _ _ _ F P). cbn [snd].
  destruct Hdb as [Hids Hnn]. split.
  - now apply new_wallet_keeps_ids.
  - apply Forall_app. split; [exact Hnn |].
    repeat constructor. exists 0%float. split; reflexivity.
Qed.

Lemma login_reads form_data now s : snd (login form_data now s) = s.
Proof.
  unfold login. handler_unfold.
  destruct (find_user _ _); [| reflexivity].
  destruct (verify_password _ _) as [[] |]; reflexivity.
Qed.

(** A route behind the bearer token either refuses, or runs its handler
    for a registered user. *)
Lemma authenticated_route {A B} tok now (h : User.t -> Handler A)
  (f : A -> B) db :
  snd (serve (current_user <- get_current_user tok now ;;
              r <- h current_user ;; ret (f r)) db) = db
  \/ exists current_user,
       In current_user (users db)
       /\ snd (serve (current_user <- get_current_user tok now ;;
                      r <- h current_user ;; ret (f r)) db)
          = snd (serve (h current_user) db).
Proof.
  unfold serve, bind, ret.
  pose proof (get_current_user_reads tok now (mkSession db db)) as R.
  destruct (get_current_user tok now (mkSession db db)) as [[u | e] s] eqn:G;
    cbn in R; subst s.
  - right. exists u. split.
    + now apply get_current_user_registered in G.
    + now destruct (h u (mkSession db db)) as [[a | e] s].
  - now left.
Qed.

Lemma app_sound req now db :
  wallets_sound db -> amount_finite_nonneg req ->
  wallets_sound (snd (app req now db)).
Proof.
  intros Hdb Hreq. unfold app.
  destruct req as [user salt | form_data | tok | tok transaction | tok
                  | tok conversion]; cbn [route amount_finite_nonneg] in *.
  - pose proof (create_user_sound user salt db Hdb) as S.
    unfold serve, bind, ret in *.
    now destruct (create_user user salt (mkSession db db)) as [[a | e] s].
  - unfold serve, bind, ret.
    pose proof (login_reads form_data now (mkSession db db)) as R.
    destruct (login form_data now (mkSession db db)) as [[a | e] s];
      cbn in R; now subst s.
  - destruct (authenticated_route tok now get_wallets WalletsOut db)
      as [-> | (u & _ & ->)]; auto.
  - destruct (authenticated_route tok now
                (fun u => create_transaction transaction u now)
                TransactionOut db) as [-> | (u & _ & ->)]; auto.
    now apply create_transaction_sound.
  - destruct (authenticated_route tok now get_transactions TransactionsOut db)
      as [-> | (u & _ & ->)]; auto.
  - destruct (authenticated_route tok now
                (fun u => convert_currency conversion u now)
                Converted db) as [-> | (u & _ & ->)]; auto.
    now apply convert_currency_sound.
Qed.

End Soundness.

(** ** The sum of balances *)




Lemma map_fixed {A} (f : A -> A) (l : list A) x :
  map f l = l -> In x l -> f x = x.
Proof.
  induction l as [| a l IH]; [intros _ [] |].
  cbn [map]. intros E [-> | Hin]; injection E as E1 E2; auto.
Qed.

(** Under a primary key, rewriting the cell of a row leaves the table as it
    was exactly when it leaves that cell as it was. *)
Lemma rewrite_balance_fixed h wallet ws :
  NoDup (map Wallet.id ws) ->
  In wallet ws ->
  rewrite_balance h (Wallet.id wallet) ws = ws
  <-> h (Wallet.balance wallet) = Wallet.balance wallet.
Proof.
  intros Hids Hin. split.
  - intros E. apply (map_fixed _ _ wallet) in E; [| exact Hin].
    cbn in E. rewrite Z.eqb_refl in E.
    apply (f_equal Wallet.balance) in E. exact E.
  - intros E. unfold rewrite_balance. rewrite <- (map_id ws) at 2.
    apply map_ext_in. intros w Hw.
    destruct (Z.eqb_spec (Wallet.id w) (Wallet.id wallet)) as [Ew | _];
      [| reflexivity].
    assert (w = wallet) as -> by (eapply wallet_id_inj; eassumption).
    rewrite E. now destruct wallet.
Qed.

(** ** Rounding and the order of balances *)

Module SF_order.
Import SF SF_facts SF_round.

Lemma iter_pos_counted {A} (f : A -> A) (Q : Z -> A -> Prop) :
  (forall k a, 0 <= k -> Q k a -> Q (k + 1) (f a)) ->
  forall p k a, 0 <= k -> Q k a -> Q (k + Z.pos p) (iter_pos f p a).
Proof.
  intros Hf. induction p as [p IH | p IH |]; intros k a Hk Ha; simpl.
  - replace (k + Z.pos p~1) with (k + 1 + Z.pos p + Z.pos p) by lia.
    apply IH; [lia |]. apply IH; [lia |]. now apply Hf.
  - replace (k + Z.pos p~0) with (k + Z.pos p + Z.pos p) by lia.
    apply IH; [lia |]. now apply IH.
  - now apply Hf.
Qed.

Lemma pow2_pos k : 0 <= k -> 0 < 2 ^ k.
Proof. intros. now apply Z.pow_pos_nonneg. Qed.

Lemma shr_1_spec mrs :
  0 <= shr_m mrs ->
  shr_m (shr_1 mrs) = shr_m mrs / 2
  /\ shr_r (shr_1 mrs) = Z.odd (shr_m mrs)
  /\ shr_s (shr_1 mrs) = shr_r mrs || shr_s mrs.
Proof.
  destruct mrs as [m r s]. cbn [shr_m shr_r shr_s]. intros Hm.
  destruct m as [| p | p]; [now cbn | | lia].
  destruct p as [p | p |]; cbn [shr_1 shr_m shr_r shr_s Z.odd].
  - repeat split. rewrite Pos2Z.inj_xI.
    apply Z.div_unique with 1; lia.
  - repeat split. rewrite Pos2Z.inj_xO.
    apply Z.div_unique with 0; lia.
  - repeat split.
Qed.

Lemma mod_pow2_succ M k :
  0 <= k -> M mod 2 ^ (k + 1) = 0 ->
  M mod 2 ^ k = 0 /\ Z.odd (M / 2 ^ k) = false.
Proof.
  intros Hk Hmod. pose proof (pow2_pos k Hk) as Hp.
  apply Z.mod_divide in Hmod; [| rewrite Z.pow_add_r; lia].
  destruct Hmod as [c ->]. rewrite Z.pow_add_r by lia.
  replace (c * (2 ^ k * 2 ^ 1)) with (c * 2 * 2 ^ k)
    by (change (2 ^ 1) with 2; lia).
  split.
  - apply Z.mod_mul. lia.
  - rewrite Z.div_mul by lia. rewrite Z.mul_comm. apply Z.odd_even.
Qed.

Lemma shifted_step l M k mrs :
  0 <= M -> 0 <= k -> shifted l M k mrs -> shifted l M (k + 1) (shr_1 mrs).
Proof.
  intros HM Hk [Hm Hexact]. pose proof (pow2_pos k Hk) as Hp.
  assert (0 <= shr_m mrs) as Hnn by (rewrite Hm; apply Z.div_pos; lia).
  destruct (shr_1_spec mrs Hnn) as (Em & Er & Es).
  split.
  - rewrite Em, Hm, Z.div_div by lia.
    rewrite Z.pow_add_r by lia. reflexivity.
  - intros Hl Hmod. apply mod_pow2_succ in Hmod as [Hmod Hodd]; [| exact Hk].
    destruct (Hexact Hl Hmod) as [Hr Hs].
    rewrite Er, Es, Hm, Hodd, Hr, Hs. now split.
Qed.

Lemma shifted_start l M : shifted l M 0 (shr_record_of_loc M l).
Proof.
  split.
  - rewrite shr_record_of_loc_m. now rewrite Z.div_1_r.
  - now intros ->.
Qed.

Lemma shr_spec M e0 n l :
  0 <= M ->
  let k := Z.max 0 n in
  let mrs := fst (shr (shr_record_of_loc M l) e0 n) in
  snd (shr (shr_record_of_loc M l) e0 n) = e0 + k
  /\ shr_m mrs = M / 2 ^ k
  /\ (l = loc_Exact -> M mod 2 ^ k = 0 -> loc_of_shr_record mrs = loc_Exact).
Proof.
  intros HM k mrs. subst k mrs.
  assert (forall mrs,
             shifted l M (Z.max 0 n) mrs ->
             shr_m mrs = M / 2 ^ Z.max 0 n
             /\ (l = loc_Exact -> M mod 2 ^ Z.max 0 n = 0 ->
                 loc_of_shr_record mrs = loc_Exact)) as Hdone.
  { intros [m r s] [Hm Hexact]. split; [exact Hm |].
    intros Hl Hmod. destruct (Hexact Hl Hmod) as [Hr Hs].
    cbn in Hr, Hs. now subst. }
  pose proof (shifted_start l M) as H0.
  destruct n as [| p | p]; cbn [shr fst snd].
  - split; [now rewrite Z.add_0_r | now apply Hdone].
  - split; [reflexivity |]. apply Hdone. rewrite Z.max_r by lia.
    apply (iter_pos_counted shr_1 (shifted l M)) with (k := 0); [| lia | exact H0].
    intros k a Hk. now apply shifted_step.
  - split; [now rewrite Z.add_0_r | now apply Hdone].
Qed.

Lemma round_nearest_even_bounds m l :
  m <= round_nearest_even m l <= m + 1
  /\ (l = loc_Exact -> round_nearest_even m l = m).
Proof.
  unfold round_nearest_even.
  destruct l as [| []]; [| destruct (Z.even m) | |];
    (split; [lia | try discriminate; reflexivity]).
Qed.

(** What rounding an integer mantissa [M] at exponent [e0] returns. *)
Lemma binary_round_aux_spec sx M e0 l :
  0 <= M ->
  let k := Z.max 0 (fexp prec emax (Zdigits2 M + e0) - e0) in
  exists m1,
    M / 2 ^ k <= m1 <= M / 2 ^ k + 1
    /\ (l = loc_Exact -> M mod 2 ^ k = 0 -> m1 = M / 2 ^ k)
    /\ let e1 := e0 + k in
       let k2 := Z.max 0 (fexp prec emax (Zdigits2 m1 + e1) - e1) in
       binary_round_aux prec emax sx M e0 l
       = match m1 / 2 ^ k2 with
         | 0 => S754_zero sx
         | Z.pos p =>
             if e1 + k2 <=? emax - prec
             then S754_finite sx p (e1 + k2) else S754_infinity sx
         | Z.neg _ => S754_nan
         end.
Proof.
  intros HM k. unfold binary_round_aux, shr_fexp.
  destruct (shr_spec M e0 (fexp prec emax (Zdigits2 M + e0) - e0) l HM)
    as (He1 & Hm & Hloc).
  fold k in He1, Hm, Hloc.
  destruct (shr (shr_record_of_loc M l) e0 _) as [mrs' e'].
  cbn [fst snd] in He1, Hm, Hloc. subst e'.
  set (m1 := round_nearest_even (shr_m mrs') (loc_of_shr_record mrs')).
  destruct (round_nearest_even_bounds (shr_m mrs') (loc_of_shr_record mrs'))
    as [Hb Hex].
  fold m1 in Hb, Hex. rewrite Hm in Hb, Hex.
  exists m1. split; [exact Hb |].
  split; [intros Hl Hmod; now apply Hex, Hloc |].
  set (e1 := e0 + k).
  set (k2 := Z.max 0 (fexp prec emax (Zdigits2 m1 + e1) - e1)).
  assert (0 <= m1) as Hm1.
  { pose proof (Z.div_pos M (2 ^ k) HM (pow2_pos k ltac:(lia))). lia. }
  destruct (shr_spec m1 e1 (fexp prec emax (Zdigits2 m1 + e1) - e1)
              loc_Exact Hm1) as (He2 & Hm2 & _).
  fold k2 in He2, Hm2.
  destruct (shr (shr_record_of_loc m1 loc_Exact) e1 _) as [mrs'' e''].
  cbn [fst snd] in He2, Hm2. subst e''. rewrite Hm2. reflexivity.
Qed.

(** *** Digits and magnitudes *)

Lemma fexp_eq z : fexp prec emax z = Z.max (z - 53) (-1074).
Proof. reflexivity. Qed.

Lemma Zdigits2_bounds M :
  0 < M -> 1 <= Zdigits2 M /\ 2 ^ (Zdigits2 M - 1) <= M < 2 ^ Zdigits2 M.
Proof.
  destruct M as [| p | p]; try lia. intros _. cbn [Zdigits2].
  split; [lia | apply digits2_pos_bounds].
Qed.

Lemma digits_le M d : 0 < M -> 0 <= d -> M < 2 ^ d -> Zdigits2 M <= d.
Proof.
  intros HM Hd Hlt. destruct (Zdigits2_bounds M HM) as (H1 & Hlo & _).
  destruct (Z.le_gt_cases (Zdigits2 M) d) as [| Hgt]; [assumption |].
  assert (2 ^ d <= 2 ^ (Zdigits2 M - 1)) by (apply Z.pow_le_mono_r; lia).
  lia.
Qed.

Lemma digits_ge M d : 0 < M -> 2 ^ (d - 1) <= M -> d <= Zdigits2 M.
Proof.
  intros HM Hge. destruct (Zdigits2_bounds M HM) as (H1 & _ & Hhi).
  destruct (Z.le_gt_cases d (Zdigits2 M)) as [| Hgt]; [assumption |].
  assert (2 ^ Zdigits2 M <= 2 ^ (d - 1)) by (apply Z.pow_le_mono_r; lia).
  lia.
Qed.

(** The larger number has the larger magnitude. *)
Lemma digits_magnitude a x b y :
  0 < a -> 0 < b -> -1074 <= x -> -1074 <= y ->
  a * 2 ^ (x + 1074) <= b * 2 ^ (y + 1074) ->
  Zdigits2 a + x <= Zdigits2 b + y.
Proof.
  intros Ha Hb Hx Hy Hle.
  destruct (Zdigits2_bounds a Ha) as (Ha1 & Halo & _).
  destruct (Zdigits2_bounds b Hb) as (Hb1 & _ & Hbhi).
  pose proof (pow2_pos (x + 1074) ltac:(lia)) as Px.
  pose proof (pow2_pos (y + 1074) ltac:(lia)) as Py.
  assert (2 ^ (Zdigits2 a - 1 + (x + 1074)) < 2 ^ (Zdigits2 b + (y + 1074)))
    as Hpow.
  { rewrite (Z.pow_add_r 2 (Zdigits2 a - 1)), (Z.pow_add_r 2 (Zdigits2 b))
      by lia.
    apply Z.le_lt_trans with (a * 2 ^ (x + 1074)).
    - apply Z.mul_le_mono_nonneg_r; lia.
    - apply Z.le_lt_trans with (b * 2 ^ (y + 1074)); [exact Hle |].
      apply Zmult_lt_compat_r; lia. }
  apply Z.pow_lt_mono_r_iff in Hpow; lia.
Qed.

Lemma quotient_ge m M k e0 :
  0 <= k -> -1074 <= e0 ->
  m * 2 ^ (e0 + k + 1074) <= M * 2 ^ (e0 + 1074) ->
  m <= M / 2 ^ k.
Proof.
  intros Hk He Hle. pose proof (pow2_pos k Hk) as Pk.
  pose proof (pow2_pos (e0 + 1074) ltac:(lia)) as Pe.
  replace (e0 + k + 1074) with (k + (e0 + 1074)) in Hle by lia.
  rewrite (Z.pow_add_r 2 k (e0 + 1074)), Z.mul_assoc in Hle by lia.
  apply Z.mul_le_mono_pos_r in Hle; [| exact Pe].
  apply Z.div_le_lower_bound; [exact Pk |].
  now rewrite Z.mul_comm.
Qed.

Lemma quotient_le m M k e0 :
  0 <= M -> 0 <= k -> -1074 <= e0 ->
  M * 2 ^ (e0 + 1074) <= m * 2 ^ (e0 + k + 1074) ->
  M / 2 ^ k <= m /\ (M mod 2 ^ k <> 0 -> M / 2 ^ k < m).
Proof.
  intros HM Hk He Hle. pose proof (pow2_pos k Hk) as Pk.
  pose proof (pow2_pos (e0 + 1074) ltac:(lia)) as Pe.
  replace (e0 + k + 1074) with (k + (e0 + 1074)) in Hle by lia.
  rewrite (Z.pow_add_r 2 k (e0 + 1074)), Z.mul_assoc in Hle by lia.
  assert (M <= m * 2 ^ k) as HMm
      by (apply Z.mul_le_mono_pos_r in Hle; [exact Hle | exact Pe]).
  pose proof (Z.div_mod M (2 ^ k) ltac:(lia)) as Hdm.
  pose proof (Z.mod_pos_bound M (2 ^ k) Pk) as Hmod.
  split.
  - apply Z.div_le_upper_bound; [lia | nia].
  - intros Hne. nia.
Qed.

Lemma quotient_normal M k :
  0 < M -> 0 <= k -> k = Zdigits2 M - 53 -> 2 ^ 52 <= M / 2 ^ k.
Proof.
  intros HM Hk Ek. destruct (Zdigits2_bounds M HM) as (H1 & Hlo & _).
  pose proof (pow2_pos k Hk) as Pk.
  apply Z.div_le_lower_bound; [lia |].
  rewrite <- Z.pow_add_r by lia.
  replace (k + 52) with (Zdigits2 M - 1) by lia. exact Hlo.
Qed.

Lemma quotient_small M k :
  0 < M -> 0 <= k -> Zdigits2 M - 53 <= k -> M / 2 ^ k < 2 ^ 53.
Proof.
  intros HM Hk Ek. destruct (Zdigits2_bounds M HM) as (H1 & _ & Hhi).
  pose proof (pow2_pos k Hk) as Pk.
  apply Z.div_lt_upper_bound; [lia |].
  rewrite <- Z.pow_add_r by lia.
  assert (2 ^ Zdigits2 M <= 2 ^ (k + 53)) by (apply Z.pow_le_mono_r; lia).
  lia.
Qed.

(** *** Rounding keeps the order *)

Lemma canonical_spec m e :
  canonical_mantissa prec emax m e = true <->
  e = Z.max (Zdigits2 (Z.pos m) + e - 53) (-1074).
Proof.
  unfold canonical_mantissa. rewrite Z.eqb_eq, fexp_eq. cbn [Zdigits2].
  split; intros; lia.
Qed.

Lemma second_shift m1 E :
  0 < m1 -> m1 <= 2 ^ 53 -> -1074 <= E ->
  let k2 := Z.max 0 (fexp prec emax (Zdigits2 m1 + E) - E) in
  (m1 < 2 ^ 53 /\ k2 = 0 /\ m1 / 2 ^ k2 = m1)
  \/ (m1 = 2 ^ 53 /\ k2 = 1 /\ m1 / 2 ^ k2 = 2 ^ 52).
Proof.
  intros H0 H1 HE k2. subst k2. rewrite fexp_eq.
  destruct (Z.eq_dec m1 (2 ^ 53)) as [-> | Hne].
  - right. change (Zdigits2 (2 ^ 53)) with 54.
    replace (Z.max 0 (Z.max (54 + E - 53) (-1074) - E)) with 1 by lia.
    repeat split.
  - left. assert (m1 < 2 ^ 53) as Hlt by lia.
    pose proof (digits_le m1 53 H0 ltac:(lia) Hlt).
    replace (Z.max 0 (Z.max (Zdigits2 m1 + E - 53) (-1074) - E)) with 0 by lia.
    repeat split; [exact Hlt |]. now rewrite Z.div_1_r.
Qed.

Lemma round_at_least s m e M e0 :
  canonical_mantissa prec emax m e = true ->
  0 < M -> -1074 <= e0 <= fexp prec emax (Zdigits2 M + e0) ->
  Z.pos m * 2 ^ (e + 1074) <= M * 2 ^ (e0 + 1074) ->
  at_least s m e (binary_round_aux prec emax s M e0 loc_Exact).
Proof.
  intros Hc HM [He0 Hf] Hle. apply canonical_spec in Hc.
  destruct (binary_round_aux_spec s M e0 loc_Exact ltac:(lia))
    as (m1 & Hb & _ & Hres).
  cbv zeta in Hres, Hb. rewrite Hres. clear Hres.
  set (E := fexp prec emax (Zdigits2 M + e0)) in *.
  assert (E = Z.max (Zdigits2 M + e0 - 53) (-1074)) as HE by apply fexp_eq.
  rewrite (Z.max_r 0 (E - e0)) in * by lia.
  replace (e0 + (E - e0)) with E by lia.
  pose proof (digits_magnitude (Z.pos m) e M e0 ltac:(lia) HM ltac:(lia) He0 Hle)
    as Hmag.
  assert (e <= E) as HeE by lia.
  pose proof (quotient_small M (E - e0) HM ltac:(lia) ltac:(lia)) as Hsmall.
  assert (Z.pos m <= M / 2 ^ (E - e0) \/ (e < E /\ 2 ^ 52 <= M / 2 ^ (E - e0)))
    as Hlow.
  { destruct (Z.eq_dec e E) as [Heq | Hne].
    - left. apply quotient_ge with e0; [lia | lia |].
      now replace (e0 + (E - e0)) with e by lia.
    - right. split; [lia |]. apply quotient_normal; lia. }
  assert (0 < m1) as Hm1 by (change (2 ^ 52) with 4503599627370496 in Hlow; lia).
  destruct (second_shift m1 E Hm1 ltac:(lia) ltac:(lia))
    as [(Hlt & -> & ->) | (Heq & -> & ->)].
  - rewrite Z.add_0_r. destruct m1 as [| p |]; try lia.
    destruct (E <=? emax - prec); constructor.
    unfold mag_le. lia.
  - change (2 ^ 52) with (Z.pos 4503599627370496).
    cbv iota. destruct (E + 1 <=? emax - prec); constructor.
    unfold mag_le. lia.
Qed.

Lemma round_at_most s m e M e0 :
  bounded prec emax m e = true ->
  0 < M -> -1074 <= e0 <= fexp prec emax (Zdigits2 M + e0) ->
  M * 2 ^ (e0 + 1074) <= Z.pos m * 2 ^ (e + 1074) ->
  at_most s m e (binary_round_aux prec emax s M e0 loc_Exact).
Proof.
  intros Hc HM [He0 Hf] Hle. unfold bounded in Hc.
  apply andb_prop in Hc as [Hc Hmax]. apply canonical_spec in Hc.
  apply Z.leb_le in Hmax.
  destruct (binary_round_aux_spec s M e0 loc_Exact ltac:(lia))
    as (m1 & Hb & Hexact & Hres).
  specialize (Hexact eq_refl).
  cbv zeta in Hres, Hb, Hexact. rewrite Hres. clear Hres.
  set (E := fexp prec emax (Zdigits2 M + e0)) in *.
  assert (E = Z.max (Zdigits2 M + e0 - 53) (-1074)) as HE by apply fexp_eq.
  rewrite (Z.max_r 0 (E - e0)) in * by lia.
  replace (e0 + (E - e0)) with E by lia.
  pose proof (digits_magnitude M e0 (Z.pos m) e HM ltac:(lia) He0 ltac:(lia) Hle)
    as Hmag.
  assert (E <= e) as HeE by lia.
  pose proof (quotient_small M (E - e0) HM ltac:(lia) ltac:(lia)) as Hsmall.
  destruct (Zdigits2_bounds (Z.pos m) ltac:(lia)) as (_ & Hmlo & Hmhi).
  assert (Z.pos m < 2 ^ 53) as Hm53.
  { assert (2 ^ Zdigits2 (Z.pos m) <= 2 ^ 53)
      by (apply Z.pow_le_mono_r; lia). lia. }
  assert (0 <= M / 2 ^ (E - e0)) as Hq0
      by (apply Z.div_pos; [lia | apply pow2_pos; lia]).
  destruct (Z.eq_dec m1 0) as [-> | Hm0].
  { rewrite Z.div_0_l; [constructor |].
    apply Z.pow_nonzero; lia. }
  assert (0 < m1) as Hm1 by lia.
  assert (E = e -> m1 <= Z.pos m) as Hsame.
  { intros Heq.
    destruct (quotient_le (Z.pos m) M (E - e0) e0 ltac:(lia) ltac:(lia) He0)
      as [Hq Hstrict].
    { now replace (e0 + (E - e0)) with e by lia. }
    destruct (Z.eq_dec (M mod 2 ^ (E - e0)) 0) as [Hz | Hnz].
    - rewrite (Hexact Hz). exact Hq.
    - specialize (Hstrict Hnz). lia. }
  assert (E < e -> 2 ^ 52 <= Z.pos m) as Hnormal.
  { intros Hlt. replace (Zdigits2 (Z.pos m)) with 53 in Hmlo by lia.
    exact Hmlo. }
  destruct (second_shift m1 E Hm1 ltac:(lia) ltac:(lia))
    as [(Hlt & -> & ->) | (Heq & -> & ->)].
  - rewrite Z.add_0_r. destruct m1 as [| p |]; try lia.
    replace (E <=? emax - prec) with true by (symmetry; apply Z.leb_le; lia).
    constructor. unfold mag_le. lia.
  - change (2 ^ 52) with (Z.pos 4503599627370496) in *.
    cbv iota.
    assert (E < e) as Hlt by lia.
    replace (E + 1 <=? emax - prec) with true
      by (symmetry; apply Z.leb_le; lia).
    constructor. unfold mag_le. specialize (Hnormal Hlt). lia.
Qed.

(** *** Alignment *)

Lemma pow2_split a b : 0 <= a -> 0 <= b -> 2 ^ a * 2 ^ b = 2 ^ (a + b).
Proof. intros. now rewrite Z.pow_add_r. Qed.

Lemma shl_align_spec m e e' :
  exists mz,
    shl_align m e e' = (mz, Z.min e e')
    /\ Z.pos mz = Z.pos m * 2 ^ (e - Z.min e e').
Proof.
  unfold shl_align. destruct (e' - e) as [| d | d] eqn:D.
  - exists m. rewrite Z.min_l by lia. rewrite Z.sub_diag. split; [easy | lia].
  - exists m. rewrite Z.min_l by lia. rewrite Z.sub_diag. split; [easy | lia].
  - exists (Pos.iter xO m d). rewrite Z.min_r by lia.
    split; [easy |]. rewrite iter_xO_value. f_equal. f_equal. lia.
Qed.

Lemma aligned_value m e e' mz :
  -1074 <= e -> -1074 <= e' ->
  Z.pos mz = Z.pos m * 2 ^ (e - Z.min e e') ->
  Z.pos mz * 2 ^ (Z.min e e' + 1074) = Z.pos m * 2 ^ (e + 1074).
Proof.
  intros He He' ->. rewrite <- Z.mul_assoc, pow2_split by lia.
  f_equal. f_equal. lia.
Qed.

Lemma digits_shift M d :
  0 < M -> 0 <= d -> Zdigits2 (M * 2 ^ d) = Zdigits2 M + d.
Proof.
  intros HM Hd. destruct (Zdigits2_bounds M HM) as (H1 & Hlo & Hhi).
  pose proof (pow2_pos d Hd) as Pd.
  assert (0 < M * 2 ^ d) as HMd by (apply Z.mul_pos_pos; lia).
  apply Z.le_antisymm.
  - apply digits_le; [exact HMd | lia |].
    rewrite Z.pow_add_r by lia. now apply Zmult_lt_compat_r.
  - apply digits_ge; [exact HMd |].
    replace (Zdigits2 M + d - 1) with (Zdigits2 M - 1 + d) by lia.
    rewrite Z.pow_add_r by lia. apply Z.mul_le_mono_nonneg_r; lia.
Qed.

(** [binary_round] first aligns the mantissa, then rounds it. *)
Lemma binary_round_aligned s q ez :
  -1074 <= ez ->
  exists M e0,
    binary_round prec emax s q ez
    = binary_round_aux prec emax s M e0 loc_Exact
    /\ 0 < M
    /\ -1074 <= e0 <= fexp prec emax (Zdigits2 M + e0)
    /\ M * 2 ^ (e0 + 1074) = Z.pos q * 2 ^ (ez + 1074).
Proof.
  intros Hez. unfold binary_round.
  set (f := fexp prec emax (Z.pos (digits2_pos q) + ez)).
  assert (f = Z.max (Zdigits2 (Z.pos q) + ez - 53) (-1074)) as Hf
      by apply fexp_eq.
  destruct (shl_align_spec q ez f) as (mz & -> & Hmz).
  exists (Z.pos mz), (Z.min ez f). split; [reflexivity |].
  split; [lia |]. split.
  - split; [lia |]. rewrite Hmz, digits_shift, fexp_eq by lia.
    lia.
  - apply aligned_value; lia.
Qed.

Lemma round_sign s M e0 l :
  0 <= M -> sign_is s (binary_round_aux prec emax s M e0 l).
Proof.
  intros HM.
  destruct (binary_round_aux_spec s M e0 l HM) as (m1 & Hb & _ & Hres).
  cbv zeta in Hres, Hb. rewrite Hres. clear Hres.
  set (k := Z.max 0 _) in Hb. set (k2 := Z.max 0 _).
  assert (0 <= m1 / 2 ^ k2) as Hq.
  { apply Z.div_pos; [| apply pow2_pos; lia].
    pose proof (Z.div_pos M (2 ^ k) HM (pow2_pos k ltac:(lia))). lia. }
  destruct (m1 / 2 ^ k2); [constructor | | lia].
  destruct (_ <=? _); constructor.
Qed.

Lemma binary_round_sign s q ez :
  -1074 <= ez -> sign_is s (binary_round prec emax s q ez).
Proof.
  intros Hez. destruct (binary_round_aligned s q ez Hez)
    as (M & e0 & -> & HM & _). apply round_sign. lia.
Qed.

Lemma binary_round_at_least s m e q ez :
  canonical_mantissa prec emax m e = true -> -1074 <= ez ->
  Z.pos m * 2 ^ (e + 1074) <= Z.pos q * 2 ^ (ez + 1074) ->
  at_least s m e (binary_round prec emax s q ez).
Proof.
  intros Hc Hez Hle. destruct (binary_round_aligned s q ez Hez)
    as (M & e0 & -> & HM & He0 & Hv).
  apply round_at_least; try assumption. now rewrite Hv.
Qed.

Lemma binary_round_at_most s m e q ez :
  bounded prec emax m e = true -> -1074 <= ez ->
  Z.pos q * 2 ^ (ez + 1074) <= Z.pos m * 2 ^ (e + 1074) ->
  at_most s m e (binary_round prec emax s q ez).
Proof.
  intros Hc Hez Hle. destruct (binary_round_aligned s q ez Hez)
    as (M & e0 & -> & HM & He0 & Hv).
  apply round_at_most; try assumption. now rewrite Hv.
Qed.

(** *** From magnitudes to [SFleb] *)

Lemma mag_le_compare m e p e' :
  mag_le m e p e' ->
  match (e ?= e') with
  | Eq => Pos.compare_cont Eq m p <> Gt
  | Lt => True
  | Gt => False
  end.
Proof.
  intros [Hlt | [-> Hle]].
  - now apply Z.compare_lt_iff in Hlt as ->.
  - rewrite Z.compare_refl. exact Hle.
Qed.

Lemma SFleb_refl x : SFeqb x x = true -> SFleb x x = true.
Proof. unfold SFeqb, SFleb. now destruct (SFcompare x x) as [[] |]. Qed.

Lemma sign_leb s m e r :
  sign_is (negb s) r ->
  if s then SFleb (S754_finite true m e) r = true
  else SFleb r (S754_finite false m e) = true.
Proof. intros [s' | | p e']; destruct s; reflexivity. Qed.

Lemma at_least_leb s m e r :
  at_least s m e r ->
  if s then SFleb r (S754_finite true m e) = true
  else SFleb (S754_finite false m e) r = true.
Proof.
  intros [| p e' Hmag]; [now destruct s |].
  apply mag_le_compare in Hmag. unfold SFleb, SFcompare.
  destruct s.
  - rewrite (Z.compare_antisym e e'). destruct (e ?= e'); cbn; try easy.
    rewrite (Pos.compare_cont_antisym p m Eq). cbn.
    now destruct (Pos.compare_cont Eq m p).
  - destruct (e ?= e'); try easy.
    now destruct (Pos.compare_cont Eq m p).
Qed.

Lemma at_most_leb s m e r :
  at_most s m e r ->
  if s then SFleb (S754_finite true m e) r = true
  else SFleb r (S754_finite false m e) = true.
Proof.
  intros [s' | p e' Hmag]; [now destruct s |].
  apply mag_le_compare in Hmag. unfold SFleb, SFcompare.
  destruct s.
  - rewrite (Z.compare_antisym e' e). destruct (e' ?= e); cbn; try easy.
    rewrite (Pos.compare_cont_antisym m p Eq). cbn.
    now destruct (Pos.compare_cont Eq p m).
  - destruct (e' ?= e); try easy.
    now destruct (Pos.compare_cont Eq p m).
Qed.

Lemma aligned m e e' :
  -1074 <= e' <= e ->
  Z.pos (fst (shl_align m e e')) * 2 ^ (e' + 1074) = Z.pos m * 2 ^ (e + 1074).
Proof.
  intros He. destruct (shl_align_spec m e e') as (mz & -> & Hmz).
  cbn [fst]. rewrite Z.min_r in Hmz by lia. rewrite Hmz.
  rewrite <- Z.mul_assoc, pow2_split by lia. f_equal. f_equal. lia.
Qed.

Lemma valid_finite s m e :
  valid_binary (S754_finite s m e) = true ->
  bounded prec emax m e = true
  /\ canonical_mantissa prec emax m e = true /\ -1074 <= e.
Proof.
  cbn [SpecFloat.valid_binary]. intros B. split; [exact B |].
  unfold bounded in B. apply andb_prop in B as [C _]. split; [exact C |].
  apply canonical_spec in C. lia.
Qed.

(** Adding a number [>= 0] never gives less, unless it gives NaN. *)
Lemma SFadd_ge x y :
  valid_binary x = true -> valid_binary y = true ->
  sf_nonneg y -> SFeqb (SF64add x y) (SF64add x y) = true ->
  SFleb x (SF64add x y) = true.
Proof.
  intros Vx Vy Hy Hnum.
  destruct (sf_nonneg_shape _ Hy) as [s' | | my ey].
  - destruct x as [s | s | | s m e]; try discriminate.
    + now destruct s, s'.
    + now destruct s.
    + now apply SFleb_refl.
  - destruct x as [s | [] | | [] m e]; try discriminate; reflexivity.
  - destruct x as [s | s | | s mx ex]; try discriminate.
    + reflexivity.
    + now destruct s.
    + clear Hnum Hy.
      apply valid_finite in Vx as (Bx & Cx & Ex), Vy as (_ & _ & Ey).
      unfold SF64add, SFadd. cbv zeta.
      set (ez := Z.min ex ey).
      pose proof (aligned mx ex ez ltac:(lia)) as Hax.
      pose proof (aligned my ey ez ltac:(lia)) as Hay.
      set (ax := fst (shl_align mx ex ez)) in *.
      set (ay := fst (shl_align my ey ez)) in *.
      pose proof (pow2_pos (ez + 1074) ltac:(lia)) as Pz.
      destruct s; unfold cond_Zopp.
      * destruct (- Z.pos ax + Z.pos ay) as [| q | q] eqn:Ez;
          cbn [binary_normalize].
        -- reflexivity.
        -- apply (sign_leb true). cbn [negb]. apply binary_round_sign. lia.
        -- apply (at_most_leb true). apply binary_round_at_most; [exact Bx | lia |].
           rewrite <- Hax. apply Z.mul_le_mono_nonneg_r; lia.
      * change (Z.pos ax + Z.pos ay) with (Z.pos (ax + ay)).
        cbn [binary_normalize].
        apply (at_least_leb false). apply binary_round_at_least; [exact Cx | lia |].
        rewrite <- Hax. apply Z.mul_le_mono_nonneg_r; lia.
Qed.

(** Subtracting a number [>= 0] never gives more, unless it gives NaN. *)
Lemma SFsub_le x y :
  valid_binary x = true -> valid_binary y = true ->
  sf_nonneg y -> SFeqb (SF64sub x y) (SF64sub x y) = true ->
  SFleb (SF64sub x y) x = true.
Proof.
  intros Vx Vy Hy Hnum.
  destruct (sf_nonneg_shape _ Hy) as [s' | | my ey].
  - destruct x as [s | s | | s m e]; try discriminate.
    + now destruct s, s'.
    + now destruct s.
    + now apply SFleb_refl.
  - destruct x as [s | [] | | [] m e]; try discriminate; reflexivity.
  - destruct x as [s | s | | s mx ex]; try discriminate.
    + reflexivity.
    + now destruct s.
    + clear Hnum Hy.
      apply valid_finite in Vx as (Bx & Cx & Ex), Vy as (_ & _ & Ey).
      unfold SF64sub, SFsub. cbv zeta.
      set (ez := Z.min ex ey).
      pose proof (aligned mx ex ez ltac:(lia)) as Hax.
      pose proof (aligned my ey ez ltac:(lia)) as Hay.
      set (ax := fst (shl_align mx ex ez)) in *.
      set (ay := fst (shl_align my ey ez)) in *.
      pose proof (pow2_pos (ez + 1074) ltac:(lia)) as Pz.
      destruct s; unfold cond_Zopp.
      * change (- Z.pos ax - Z.pos ay) with (Z.neg (ax + ay)).
        cbn [binary_normalize].
        apply (at_least_leb true). apply binary_round_at_least; [exact Cx | lia |].
        rewrite <- Hax. apply Z.mul_le_mono_nonneg_r; lia.
      * destruct (Z.pos ax - Z.pos ay) as [| q | q] eqn:Ez;
          cbn [binary_normalize].
        -- reflexivity.
        -- apply (at_most_leb false). apply binary_round_at_most; [exact Bx | lia |].
           rewrite <- Hax. apply Z.mul_le_mono_nonneg_r; lia.
        -- apply (sign_leb false). cbn [negb]. apply binary_round_sign. lia.
Qed.

(** *** Numbers stay numbers *)

Lemma finite_number x : sf_finite x = true -> SFeqb x x = true.
Proof.
  destruct x as [s | s | | s m e]; try discriminate; intros _.
  - reflexivity.
  - unfold SFeqb, SFcompare.
    rewrite Z.compare_refl, Pos.compare_cont_refl. now destruct s.
Qed.

Lemma sign_is_number s r : sign_is s r -> SFeqb r r = true.
Proof.
  intros [s' | | p e]; [reflexivity | now destruct s |].
  now apply finite_number.
Qed.

Lemma binary_normalize_number z ez :
  -1074 <= ez ->
  SFeqb (binary_normalize prec emax z ez false)
        (binary_normalize prec emax z ez false) = true.
Proof.
  intros Hez. destruct z as [| q | q]; cbn [binary_normalize].
  - reflexivity.
  - apply (sign_is_number false). now apply binary_round_sign.
  - apply (sign_is_number true). now apply binary_round_sign.
Qed.

(** A number plus a finite number is a number. *)
Lemma SFadd_number x y :
  valid_binary x = true -> valid_binary y = true ->
  SFeqb x x = true -> sf_finite y = true ->
  SFeqb (SF64add x y) (SF64add x y) = true.
Proof.
  intros Vx Vy Hx Hy.
  destruct y as [sy | sy | | sy my ey]; try discriminate;
    destruct x as [sx | sx | | sx mx ex]; try discriminate; try exact Hx.
  - now destruct sx, sy.
  - now apply finite_number.
  - apply valid_finite in Vx as (_ & _ & Ex), Vy as (_ & _ & Ey).
    apply binary_normalize_number. lia.
Qed.

Lemma SFsub_number x y :
  valid_binary x = true -> valid_binary y = true ->
  SFeqb x x = true -> sf_finite y = true ->
  SFeqb (SF64sub x y) (SF64sub x y) = true.
Proof.
  intros Vx Vy Hx Hy.
  destruct y as [sy | sy | | sy my ey]; try discriminate;
    destruct x as [sx | sx | | sx mx ex]; try discriminate; try exact Hx.
  - now destruct sx, sy.
  - now apply finite_number.
  - apply valid_finite in Vx as (_ & _ & Ex), Vy as (_ & _ & Ey).
    apply binary_normalize_number. lia.
Qed.

(** Rounding does not overflow below [2^1023]. *)
Lemma round_finite s M e0 l :
  0 <= M -> e0 <= 971 -> Zdigits2 M + e0 <= 1023 ->
  sf_finite (binary_round_aux prec emax s M e0 l) = true.
Proof.
  intros HM He0 HT.
  destruct (binary_round_aux_spec s M e0 l HM) as (m1 & Hb & _ & Hres).
  cbv zeta in Hres, Hb. rewrite Hres. clear Hres.
  rewrite !fexp_eq in *.
  set (k := Z.max 0 (Z.max (Zdigits2 M + e0 - 53) (-1074) - e0)) in *.
  pose proof (pow2_pos k ltac:(lia)) as Pk.
  pose proof (Z.div_pos M (2 ^ k) HM Pk) as Hq.
  assert (Zdigits2 m1 + (e0 + k) <= 1024) as Hd1.
  { destruct (Z.eq_dec m1 0) as [-> | Hne]; [cbn; lia |].
    assert (Zdigits2 m1 <= Z.max (Zdigits2 M - k) 0 + 1); [| lia].
    apply digits_le; [lia | lia |].
    rewrite Z.pow_add_r by lia. change (2 ^ 1) with 2.
    assert (M / 2 ^ k < 2 ^ Z.max (Zdigits2 M - k) 0); [| lia].
    destruct (Z.eq_dec M 0) as [-> | HM0].
    { rewrite Z.div_0_l by lia. apply pow2_pos. lia. }
    destruct (Zdigits2_bounds M ltac:(lia)) as (_ & _ & Hhi).
    apply Z.div_lt_upper_bound; [exact Pk |].
    rewrite <- Z.pow_add_r by lia.
    assert (2 ^ Zdigits2 M <= 2 ^ (k + Z.max (Zdigits2 M - k) 0))
      by (apply Z.pow_le_mono_r; lia).
    lia. }
  set (k2 := Z.max 0 _).
  assert (e0 + k + k2 <= 971) as Hfin by lia.
  destruct (m1 / 2 ^ k2) as [| p | p] eqn:Eq.
  - reflexivity.
  - replace (e0 + k + k2 <=? emax - prec) with true; [reflexivity |].
    symmetry. apply Z.leb_le. exact Hfin.
  - exfalso. assert (0 <= m1 / 2 ^ k2); [| lia].
    apply Z.div_pos; [lia | apply pow2_pos; lia].
Qed.

(** Dividing a finite number by a finite number [>= 2] gives a finite
    number. *)
Lemma SFdiv_finite x sy my ey :
  valid_binary x = true -> 2 <= Zdigits2 (Z.pos my) + ey ->
  sf_finite x = true ->
  sf_finite (SF64div x (S754_finite sy my ey)) = true.
Proof.
  intros Vx Hy Hx.
  destruct x as [sx | sx | | sx mx ex]; try discriminate; [reflexivity |].
  clear Hx. apply valid_finite in Vx as (Bx & Cx & Ex).
  unfold bounded in Bx. apply andb_prop in Bx as [_ Hmax].
  apply Z.leb_le in Hmax. apply canonical_spec in Cx.
  change (emax - prec) with 971 in Hmax.
  unfold SF64div, SFdiv, SFdiv_core_binary. cbv zeta.
  rewrite fexp_eq.
  set (d1 := Zdigits2 (Z.pos mx)) in *.
  set (d2 := Zdigits2 (Z.pos my)) in *.
  set (e' := Z.min (Z.max (d1 + ex - (d2 + ey) - 53) (-1074)) (ex - ey)).
  set (m' := match ex - ey - e' with
             | 0 => Z.pos mx
             | Z.pos _ => Z.shiftl (Z.pos mx) (ex - ey - e')
             | Z.neg _ => 0
             end).
  assert (m' = Z.pos mx * 2 ^ (ex - ey - e')) as Hm'.
  { subst m'. destruct (ex - ey - e') as [| p | p] eqn:Es; [cbn; lia | | lia].
    now rewrite Z.shiftl_mul_pow2 by lia. }
  destruct (Z.div_eucl m' (Z.pos my)) as [q r] eqn:D.
  assert (q = m' / Z.pos my) as Hq by (unfold Z.div; now rewrite D).
  destruct (Zdigits2_bounds (Z.pos mx) ltac:(lia)) as (Hd1 & _ & Hxhi).
  destruct (Zdigits2_bounds (Z.pos my) ltac:(lia)) as (Hd2 & Hylo & _).
  fold d1 in Hxhi, Hd1. fold d2 in Hylo, Hd2.
  pose proof (pow2_pos (ex - ey - e') ltac:(lia)) as Ps.
  assert (0 <= m') as Hm0 by (rewrite Hm'; lia).
  assert (0 <= q) as Hq0 by (rewrite Hq; apply Z.div_pos; lia).
  apply round_finite; [exact Hq0 | lia |].
  destruct (Z.eq_dec q 0) as [-> | Hne]; [cbn; lia |].
  assert (Zdigits2 q <= d1 + (ex - ey - e') - d2 + 1); [| lia].
  assert (q * 2 ^ (d2 - 1) < 2 ^ (d1 + (ex - ey - e'))) as Hlt.
  { apply Z.le_lt_trans with (q * Z.pos my).
    - apply Z.mul_le_mono_nonneg_l; lia.
    - apply Z.le_lt_trans with m'.
      + rewrite Hq, Z.mul_comm. apply Z.mul_div_le. lia.
      + rewrite Hm', Z.pow_add_r by lia. apply Zmult_lt_compat_r; lia. }
  destruct (Z.le_gt_cases (Zdigits2 q) (d1 + (ex - ey - e') - d2 + 1))
    as [| Hgt]; [assumption | exfalso].
  assert (d2 - 1 < d1 + (ex - ey - e')) as Hpos.
  { apply (Z.pow_lt_mono_r_iff 2); [lia | lia |].
    apply Z.le_lt_trans with (q * 2 ^ (d2 - 1)); [| exact Hlt].
    pose proof (pow2_pos (d2 - 1) ltac:(lia)). nia. }
  destruct (Zdigits2_bounds q ltac:(lia)) as (_ & Hqlo & _).
  assert (2 ^ (d1 + (ex - ey - e') - d2 + 1) <= 2 ^ (Zdigits2 q - 1))
    by (apply Z.pow_le_mono_r; lia).
  assert (2 ^ (d1 + (ex - ey - e') - d2 + 1) * 2 ^ (d2 - 1)
          = 2 ^ (d1 + (ex - ey - e'))) as Hsplit.
  { rewrite <- Z.pow_add_r by lia. f_equal. lia. }
  assert (2 ^ (d1 + (ex - ey - e') - d2 + 1) * 2 ^ (d2 - 1)
          <= q * 2 ^ (d2 - 1)).
  { apply Z.mul_le_mono_nonneg_r; [apply Z.pow_nonneg; lia | lia]. }
  lia.
Qed.

(** *** Signs *)

Lemma round_signed s M e0 l :
  0 <= M -> signed s (binary_round_aux prec emax s M e0 l).
Proof.
  intros HM.
  destruct (binary_round_aux_spec s M e0 l HM) as (m1 & Hb & _ & Hres).
  cbv zeta in Hres, Hb. rewrite Hres. clear Hres.
  set (k := Z.max 0 _) in Hb. set (k2 := Z.max 0 _).
  assert (0 <= m1 / 2 ^ k2) as Hq.
  { apply Z.div_pos; [| apply pow2_pos; lia].
    pose proof (Z.div_pos M (2 ^ k) HM (pow2_pos k ltac:(lia))). lia. }
  destruct (m1 / 2 ^ k2); [constructor | | lia].
  destruct (_ <=? _); constructor.
Qed.

(** Rounding a non-zero integer at an exponent of the format never gives
    zero: the result is at least the smallest positive number. *)
Lemma binary_round_nonzero s q ez s' :
  -1074 <= ez -> binary_round prec emax s q ez <> S754_zero s'.
Proof.
  intros Hez E.
  assert (at_least s 1 (-1074) (binary_round prec emax s q ez)) as Hlow.
  { apply binary_round_at_least; [reflexivity | exact Hez |].
    change (Z.pos 1 * 2 ^ (-1074 + 1074)) with 1.
    pose proof (pow2_pos (ez + 1074) ltac:(lia)). nia. }
  rewrite E in Hlow. inversion Hlow.
Qed.

Lemma binary_normalize_zero z ez s' :
  -1074 <= ez ->
  binary_normalize prec emax z ez false = S754_zero s' -> s' = false.
Proof.
  intros Hez. destruct z as [| q | q]; cbn [binary_normalize].
  - congruence.
  - intros E. now apply binary_round_nonzero in E.
  - intros E. now apply binary_round_nonzero in E.
Qed.

(** Adding a number of positive sign never gives [-0.0]. *)
Lemma SFadd_zero_sign x y s' :
  valid_binary x = true -> valid_binary y = true ->
  signed false y -> SF64add x y = S754_zero s' -> s' = false.
Proof.
  intros Vx Vy Hy.
  destruct Hy as [| | my ey];
    destruct x as [sx | sx | | sx mx ex]; try discriminate.
  - destruct sx; cbn; congruence.
  - destruct sx; cbn; discriminate.
  - apply valid_finite in Vx as (_ & _ & Ex), Vy as (_ & _ & Ey).
    apply binary_normalize_zero. lia.
Qed.

(** A quotient by a positive number has the sign of the dividend. *)
Lemma SFdiv_signed x s my ey :
  signed s x -> signed s (SF64div x (S754_finite false my ey)).
Proof.
  intros [| | mx ex]; unfold SF64div, SFdiv; rewrite ?xorb_false_r;
    try constructor.
  destruct (SFdiv_core_binary prec emax (Z.pos mx) ex (Z.pos my) ey)
    as [[mz ez] lz] eqn:E.
  apply round_signed.
  unfold SFdiv_core_binary in E.
  set (m' := match _ - _ - _ with Z.pos _ => _ | 0 => _ | Z.neg _ => _ end) in E.
  destruct (Z.div_eucl m' (Z.pos my)) as [q r] eqn:D.
  inversion E; subst.
  eapply Zdiv_eucl_nonneg; [ | | exact D]; [| lia].
  subst m'.
  destruct (_ - _ - _); try lia.
  apply Z.shiftl_nonneg. lia.
Qed.

(** [==] on numbers other than zero is identity. *)
Lemma SFeqb_same x y :
  SFeqb x y = true -> (forall s, x <> S754_zero s) -> x = y.
Proof.
  unfold SFeqb, SFcompare. intros E Hx.
  destruct x as [sx | sx | | sx mx ex]; [now destruct (Hx sx) | | discriminate |];
    destruct y as [sy | sy | | sy my ey]; try discriminate;
    try (destruct sx; discriminate);
    try (destruct sx, sy; discriminate || reflexivity).
  assert (sx = sy /\ (ex ?= ey) = Eq /\ Pos.compare_cont Eq mx my = Eq)
    as (-> & Ee & Em).
  { destruct sx, sy; try discriminate;
      destruct (ex ?= ey); try discriminate;
      destruct (Pos.compare_cont Eq mx my); try discriminate; auto. }
  apply Z.compare_eq in Ee. change (Pos.compare mx my = Eq) in Em.
  apply Pos.compare_eq in Em. now subst.
Qed.

End SF_order.

Module F64_order.

Lemma leb_refl x : is_number x -> PrimFloat.leb x x = true.
Proof.
  unfold is_number. rewrite FloatAxioms.eqb_spec, FloatAxioms.leb_spec.
  apply SF_order.SFleb_refl.
Qed.

Lemma add_ge x y :
  F64.nonneg y -> is_number (PrimFloat.add x y) ->
  PrimFloat.leb x (PrimFloat.add x y) = true.
Proof.
  unfold is_number.
  rewrite F64_facts.nonneg_spec, FloatAxioms.eqb_spec, FloatAxioms.leb_spec,
    add_spec.
  apply SF_order.SFadd_ge; apply Prim2SF_valid.
Qed.

Lemma sub_le x y :
  F64.nonneg y -> is_number (PrimFloat.sub x y) ->
  PrimFloat.leb (PrimFloat.sub x y) x = true.
Proof.
  unfold is_number.
  rewrite F64_facts.nonneg_spec, FloatAxioms.eqb_spec, FloatAxioms.leb_spec,
    sub_spec.
  apply SF_order.SFsub_le; apply Prim2SF_valid.
Qed.

Lemma is_finite_spec x :
  PrimFloat.is_finite x = SF_round.sf_finite (Prim2SF x).
Proof.
  unfold is_finite, is_nan, is_infinity.
  rewrite !FloatAxioms.eqb_spec, abs_spec.
  change (Prim2SF infinity) with (S754_infinity false).
  destruct (Prim2SF x) as [s | [] | | s m e] eqn:E; try reflexivity.
  rewrite (SF_order.finite_number (S754_finite s m e) eq_refl).
  reflexivity.
Qed.

Lemma finite_is_number x : PrimFloat.is_finite x = true -> is_number x.
Proof.
  unfold is_number. rewrite is_finite_spec, FloatAxioms.eqb_spec.
  apply SF_order.finite_number.
Qed.

Lemma add_number x y :
  is_number x -> PrimFloat.is_finite y = true ->
  is_number (PrimFloat.add x y).
Proof.
  unfold is_number. rewrite is_finite_spec, !FloatAxioms.eqb_spec, add_spec.
  apply SF_order.SFadd_number; apply Prim2SF_valid.
Qed.

Lemma sub_number x y :
  is_number x -> PrimFloat.is_finite y = true ->
  is_number (PrimFloat.sub x y).
Proof.
  unfold is_number. rewrite is_finite_spec, !FloatAxioms.eqb_spec, sub_spec.
  apply SF_order.SFsub_number; apply Prim2SF_valid.
Qed.

Lemma convert_finite x :
  PrimFloat.is_finite x = true ->
  PrimFloat.is_finite (convert_uzs_to_usdt x) = true.
Proof.
  unfold convert_uzs_to_usdt. rewrite !is_finite_spec, div_spec.
  apply SF_order.SFdiv_finite; [apply Prim2SF_valid | now vm_compute].
Qed.

Lemma nan_add x y :
  PrimFloat.is_nan x = true -> PrimFloat.is_nan (PrimFloat.add x y) = true.
Proof. rewrite !F64_cell.is_nan_spec, add_spec. now intros ->. Qed.

Lemma nan_sub x y :
  PrimFloat.is_nan x = true -> PrimFloat.is_nan (PrimFloat.sub x y) = true.
Proof. rewrite !F64_cell.is_nan_spec, sub_spec. now intros ->. Qed.

Lemma nan_ltb x y : PrimFloat.is_nan x = true -> PrimFloat.ltb x y = false.
Proof. rewrite F64_cell.is_nan_spec, ltb_spec. now intros ->. Qed.

(** A number of positive sign: [0.0], a positive number or [inf]. *)
Lemma positive_signed x :
  PrimFloat.ltb 0 x = true -> SF_round.signed false (Prim2SF x).
Proof.
  rewrite ltb_spec. change (Prim2SF 0) with (S754_zero false).
  destruct (Prim2SF x) as [s | [] | | [] m e]; try discriminate;
    constructor.
Qed.

Lemma convert_signed x :
  SF_round.signed false (Prim2SF x) ->
  SF_round.signed false (Prim2SF (convert_uzs_to_usdt x)).
Proof.
  unfold convert_uzs_to_usdt. rewrite div_spec.
  apply SF_order.SFdiv_signed.
Qed.

(** SQLite keeps a number of positive sign as it is. *)
Lemma sqlite_real_signed x :
  SF_round.signed false (Prim2SF x) -> sqlite_real x = Some x.
Proof.
  intros Hx. unfold sqlite_real.
  destruct (PrimFloat.is_nan x) eqn:N.
  { apply F64_cell.is_nan_spec in N. rewrite N in Hx. inversion Hx. }
  destruct (PrimFloat.is_zero x) eqn:Z; [| reflexivity].
  f_equal. apply Prim2SF_inj.
  apply F64_cell.zero_shape in Z as [s E]. rewrite E in *.
  now inversion Hx.
Qed.

(** ... and a sum with such a number, unless it is NaN. *)
Lemma sqlite_real_add x y :
  SF_round.signed false (Prim2SF y) ->
  is_number (PrimFloat.add x y) ->
  sqlite_real (PrimFloat.add x y) = Some (PrimFloat.add x y).
Proof.
  intros Hy Hnum. unfold sqlite_real.
  replace (PrimFloat.is_nan (PrimFloat.add x y)) with false
    by (unfold PrimFloat.is_nan; now rewrite Hnum).
  destruct (PrimFloat.is_zero (PrimFloat.add x y)) eqn:Z; [| reflexivity].
  f_equal. apply Prim2SF_inj.
  apply F64_cell.zero_shape in Z as [s E]. rewrite E.
  rewrite add_spec in E.
  now rewrite (SF_order.SFadd_zero_sign _ _ s (Prim2SF_valid x)
                 (Prim2SF_valid y) Hy E).
Qed.

(** What a flush leaves of a value SQLite keeps as it is. *)
Lemma written_kept old x :
  sqlite_real x = Some x -> written old (Some x) = Some x.
Proof.
  intros E. destruct (written_cases old (Some x)) as [-> | ->];
    [reflexivity | exact E].
Qed.

(** [==] on stored numbers is identity. *)
Lemma stored_eqb x y :
  stored_cell (Some y) ->
  (sqlite_real x = Some y <-> PrimFloat.eqb x y = true).
Proof.
  unfold stored_cell. cbn [sqlite_store]. intros Hy. split.
  - intros E.
    destruct (sqlite_real_cases x)
      as [[_ N] | [(N & Z & S) | (N & Z & S)]]; rewrite E in *;
      try discriminate; inversion S; subst.
    + rewrite FloatAxioms.eqb_spec.
      apply F64_cell.zero_shape in Z as [s ->]. reflexivity.
    + unfold PrimFloat.is_nan in N. now destruct (PrimFloat.eqb x x).
  - intros E. rewrite FloatAxioms.eqb_spec in E.
    unfold sqlite_real.
    destruct (PrimFloat.is_nan x) eqn:N.
    { apply F64_cell.is_nan_spec in N. rewrite N in E. discriminate. }
    destruct (PrimFloat.is_zero x) eqn:Z.
    + apply F64_cell.zero_shape in Z as [s Z]. rewrite Z in E.
      assert (PrimFloat.is_zero y = true) as Zy.
      { apply F64_cell.zero_shape.
        destruct (Prim2SF y) as [sy | [] | | [] m e]; try discriminate.
        eauto. }
      unfold sqlite_real in Hy. rewrite Zy in Hy.
      now destruct (PrimFloat.is_nan y).
    + f_equal. apply Prim2SF_inj. apply SF_order.SFeqb_same; [exact E |].
      intros s Zs.
      assert (PrimFloat.is_zero x = true) by (apply F64_cell.zero_shape; eauto).
      congruence.
Qed.

(** On a cell loaded from the database, the comparison by identity writes
    what SQLAlchemy's comparison with [==] writes: nothing when the new
    value equals the old one, the stored new value when not. *)
Lemma written_as_compared old new :
  stored_cell old ->
  written old new = if python_eq new old then old else sqlite_store new.
Proof.
  intros Hold. rewrite (written_stored _ _ Hold).
  destruct new as [b |], old as [a |]; cbn [python_eq sqlite_store];
    try reflexivity.
  destruct (PrimFloat.eqb b a) eqn:E; [| reflexivity].
  now apply stored_eqb.
Qed.

End F64_order.

(** ** The reference libraries meet their contracts *)

Lemma reference_passlib_ok : @passlib_ok Reference.passlib.
Proof.
  intros salt password hashed. cbn.
  destruct (contains_nul password); [discriminate |].
  intros E. inversion E; subst. cbn. rewrite String.eqb_refl.
  now destruct password.
Qed.

Lemma reference_refuses_nul : @bcrypt_refuses_nul Reference.passlib.
Proof. intros secret N. cbn. now rewrite N. Qed.

Lemma reference_jose_ok : @jose_ok Reference.jose.
Proof.
  split.
  - intros c key alg now. cbn. rewrite !String.eqb_refl. cbn.
    now destruct (expired c now).
  - intros tok key algs now c. cbn.
    destruct (String.eqb _ _ && existsb _ _); cbn; [| discriminate].
    destruct (expired (Reference.signed_claims tok) now) eqn:X; cbn;
      [discriminate |].
    intros E. inversion E; subst. now split.
Qed.

(** ** Every outcome of a request *)

Lemma rewrite_balance_keys h wid ws :
  map wallet_key (rewrite_balance h wid ws) = map wallet_key ws.
Proof.
  unfold rewrite_balance. rewrite map_map. apply map_ext.
  intros w. now destruct (Wallet.id w =? wid).
Qed.

Lemma committed_update_keys f wid ws :
  map wallet_key (committed_update f wid ws) = map wallet_key ws.
Proof. apply rewrite_balance_keys. Qed.

Lemma wallet_key_ids ws ws' :
  map wallet_key ws' = map wallet_key ws ->
  map Wallet.id ws' = map Wallet.id ws
  /\ map Wallet.user_id ws' = map Wallet.user_id ws
  /\ map Wallet.currency ws' = map Wallet.currency ws.
Proof.
  intros E.
  repeat split.
  - apply (f_equal (map (fun k => fst (fst k)))) in E.
    now rewrite !map_map in E.
  - apply (f_equal (map (fun k => snd (fst k)))) in E.
    now rewrite !map_map in E.
  - apply (f_equal (map snd)) in E. now rewrite !map_map in E.
Qed.

(** The table a transfer commits: one round trip on the sender's row when
    it is the recipient's too, a debit and a credit when not. *)
Lemma transfer_table f g wid rid ws :
  committed_wallets ws (update_balance g rid (update_balance f wid ws))
  = if rid =? wid then committed_update (fun b => g (f b)) wid ws
    else committed_update g rid (committed_update f wid ws).
Proof.
  destruct (Z.eqb_spec rid wid) as [-> | Hne].
  - unfold committed_wallets. now rewrite update_balance_twice, flush_update.
  - now apply committed_wallets_transfer.
Qed.

Lemma nth_error_rewrite_other h wid ws i w :
  nth_error ws i = Some w -> Wallet.id w <> wid ->
  nth_error (rewrite_balance h wid ws) i = Some w.
Proof.
  intros N Hne. unfold rewrite_balance. rewrite nth_error_map, N. cbn.
  destruct (Z.eqb_spec (Wallet.id w) wid); [contradiction | reflexivity].
Qed.

Lemma applied_keys transaction current_user db ws :
  applied transaction current_user db ws ->
  map wallet_key ws = map wallet_key (wallets db).
Proof.
  intros [wallet b W B K | wallet b W B K L
         | wallet b recipient_wallet br W B K L R Br].
  - apply committed_update_keys.
  - apply committed_update_keys.
  - rewrite transfer_table.
    destruct (_ =? _); now rewrite !committed_update_keys.
Qed.

Section Outcomes.

Context `{Passlib} `{Jose}.

(** [create_transaction] either raises, and the database is as it was, or
    applies the request and returns the ledger entry it appended. *)
Lemma create_transaction_cases transaction current_user now db :
  let entry :=
    ledger_entry db (User.id current_user)
      (TransactionCreate.amount transaction)
      (TransactionCreate.currency transaction)
      (TransactionCreate.transaction_type transaction)
      (TransactionCreate.recipient_wallet_id transaction) now in
  (exists e,
      serve (create_transaction transaction current_user now) db
      = (Raise e, db))
  \/ (exists ws,
         applied transaction current_user db ws
         /\ serve (create_transaction transaction current_user now) db
            = (Return entry,
               mkDB (users db) ws (transactions db ++ [entry]))).
Proof.
  intros entry.
  destruct (find_wallet (User.id current_user)
              (TransactionCreate.currency transaction) db)
    as [wallet |] eqn:W;
    [| left; eexists; now apply create_transaction_no_wallet].
  assert (TransactionCreate.transaction_type transaction = "deposit"
          \/ TransactionCreate.transaction_type transaction = "withdrawal"
          \/ TransactionCreate.transaction_type transaction = "transfer"
          \/ (TransactionCreate.transaction_type transaction <> "deposit"
              /\ TransactionCreate.transaction_type transaction <> "withdrawal"
              /\ TransactionCreate.transaction_type transaction <> "transfer"))
    as Hkind.
  { destruct (String.eqb_spec
                (TransactionCreate.transaction_type transaction) "deposit");
      [tauto |].
    destruct (String.eqb_spec
                (TransactionCreate.transaction_type transaction) "withdrawal");
      [tauto |].
    destruct (String.eqb_spec
                (TransactionCreate.transaction_type transaction) "transfer");
      tauto. }
  destruct (Wallet.balance wallet) as [b |] eqn:B.
  2: { left. destruct Hkind as [K | [K | [K | (K1 & K2 & K3)]]].
       - eexists. eapply create_transaction_null; eauto.
       - eexists. eapply create_transaction_null; eauto.
       - eexists. eapply create_transaction_null; eauto.
       - eexists. eapply create_transaction_invalid; eauto. }
  destruct Hkind as [K | [K | [K | (K1 & K2 & K3)]]].
  - right. eexists. split; [eapply applied_deposit; eassumption |].
    eapply create_transaction_deposit; eassumption.
  - destruct (PrimFloat.ltb b (TransactionCreate.amount transaction)) eqn:L.
    + left. eexists. eapply create_transaction_insufficient; eauto.
    + right. eexists. split; [eapply applied_withdrawal; eassumption |].
      eapply create_transaction_withdrawal; eassumption.
  - destruct (PrimFloat.ltb b (TransactionCreate.amount transaction)) eqn:L.
    { left. eexists. eapply create_transaction_insufficient; eauto. }
    destruct (find_wallet_by_id
                (TransactionCreate.recipient_wallet_id transaction) db)
      as [recipient_wallet |] eqn:R.
    2: { left. eexists. eapply create_transaction_no_recipient; eauto. }
    destruct (Wallet.balance recipient_wallet) as [br |] eqn:Br.
    2: { left. eexists. eapply create_transaction_recipient_null; eauto. }
    right. eexists. split; [eapply applied_transfer; eassumption |].
    eapply create_transaction_transfer; eassumption.
  - left. eexists. eapply create_transaction_invalid; eauto.
Qed.

(** [convert_currency] likewise. *)
Lemma convert_currency_cases conversion current_user now db :
  let usdt_amount :=
    convert_uzs_to_usdt (ConversionRequest.amount_uzs conversion) in
  let entry :=
    ledger_entry db (User.id current_user) usdt_amount
      "USDT" "deposit" None now in
  (exists e,
      serve (convert_currency conversion current_user now) db
      = (Raise e, db))
  \/ (exists wallet b,
         find_wallet (User.id current_user) "USDT" db = Some wallet
         /\ Wallet.balance wallet = Some b
         /\ serve (convert_currency conversion current_user now) db
            = (Return (ConversionOut.mk
                         (ConversionRequest.amount_uzs conversion)
                         usdt_amount),
               mkDB (users db)
                    (committed_update (fun b => PrimFloat.add b usdt_amount)
                       (Wallet.id wallet) (wallets db))
                    (transactions db ++ [entry]))).
Proof.
  intros usdt_amount entry.
  destruct (find_wallet (User.id current_user) "USDT" db)
    as [wallet |] eqn:W;
    [| left; eexists; now apply convert_currency_no_wallet].
  destruct (Wallet.balance wallet) as [b |] eqn:B.
  - right. exists wallet, b. split; [reflexivity |]. split; [exact B |].
    now apply (convert_currency_served conversion _ now _ wallet b).
  - left. eexists. eapply convert_currency_null; eauto.
Qed.

(** [create_user] raises and changes nothing, or appends the user and the
    wallet. *)
Lemma create_user_cases user salt db :
  (exists e, serve (create_user user salt) db = (Raise e, db))
  \/ (exists hashed,
         find_user (UserCreate.username user) db = None
         /\ let new_user :=
              User.mk (next_id (map User.id (users db)))
                      (UserCreate.username user) hashed in
            let new_wallet :=
              Wallet.mk (next_id (map Wallet.id (wallets db)))
                        (User.id new_user) "USDT" (Some 0%float) in
            serve (create_user user salt) db
            = (Return new_user,
               mkDB (users db ++ [new_user]) (wallets db ++ [new_wallet])
                    (transactions db))).
Proof.
  destruct (find_user (UserCreate.username user) db) as [existing |] eqn:F;
    [left; eexists; eapply create_user_duplicate; eassumption |].
  destruct (get_password_hash salt (UserCreate.password user))
    as [hashed |] eqn:P;
    [| left; eexists; now apply create_user_refused].
  right. exists hashed. split; [reflexivity |].
  now apply create_user_fresh.
Qed.

(** What the routes do to the database, handler by handler. *)
Lemma app_cases req now db :
  snd (app req now db) = db
  \/ (exists user salt,
         snd (app req now db) = snd (serve (create_user user salt) db))
  \/ (exists transaction current_user,
         In current_user (users db)
         /\ req = POST_transactions (fst transaction) (snd transaction)
         /\ snd (app req now db)
            = snd (serve (create_transaction (snd transaction)
                            current_user now) db))
  \/ (exists conversion current_user,
         In current_user (users db)
         /\ req = POST_convert (fst conversion) (snd conversion)
         /\ snd (app req now db)
            = snd (serve (convert_currency (snd conversion)
                            current_user now) db)).
Proof.
  unfold app.
  destruct req as [user salt | form_data | tok | tok transaction | tok
                  | tok conversion]; cbn [route].
  - right. left. exists user, salt.
    unfold serve, bind, ret.
    now destruct (create_user user salt (mkSession db db)) as [[a | e] s].
  - left. unfold serve, bind, ret.
    pose proof (login_reads form_data now (mkSession db db)) as R.
    destruct (login form_data now (mkSession db db)) as [[a | e] s];
      cbn in R; now subst s.
  - left.
    destruct (authenticated_route tok now get_wallets WalletsOut db)
      as [-> | (u & _ & ->)]; reflexivity.
  - destruct (authenticated_route tok now
                (fun u => create_transaction transaction u now)
                TransactionOut db) as [-> | (u & Hu & ->)];
      [now left |].
    right. right. left. now exists (tok, transaction), u.
  - left.
    destruct (authenticated_route tok now get_transactions TransactionsOut db)
      as [-> | (u & _ & ->)]; reflexivity.
  - destruct (authenticated_route tok now
                (fun u => convert_currency conversion u now)
                Converted db) as [-> | (u & Hu & ->)];
      [now left |].
    right. right. right. now exists (tok, conversion), u.
Qed.

End Outcomes.

(** * The claims *)

Import Reference.

(** ** Rejections *)

(** C4: a withdrawal or a transfer that asks for more than the sender's
    wallet holds is rejected with "Insufficient balance" (HTTP 400), and the
    database is left as it was: every wallet balance unchanged, no ledger
    entry appended. *)
Theorem C4_insufficient_funds_rejected
  (transaction : TransactionCreate.t) (current_user : User.t) (now : Z)
  (db : DB) (wallet : Wallet.t) (balance : float) :
  find_wallet (User.id current_user)
    (TransactionCreate.currency transaction) db = Some wallet ->
  Wallet.balance wallet = Some balance ->
  TransactionCreate.transaction_type transaction = "withdrawal"
  \/ TransactionCreate.transaction_type transaction = "transfer" ->
  PrimFloat.ltb balance (TransactionCreate.amount transaction) = true ->
  serve (create_transaction transaction current_user now) db
  = (Raise (mkHTTPException 400 "Insufficient balance"), db).
Proof.
  intros W B K L. eapply create_transaction_insufficient; eassumption.
Qed.

(** After depositing 100, withdrawing 150 fails and the balance stays 100. *)
Lemma C4_witness_withdraw_150_of_100 :
  serve (create_transaction (withdrawal 150) alice_row 3000) db_alice_100
  = (Raise (mkHTTPException 400 "Insufficient balance"), db_alice_100)
  /\ map Wallet.balance (wallets db_alice_100)
     = [Some 100%float; Some 0%float].
Proof.
  split.
  - apply (C4_insufficient_funds_rejected (withdrawal 150) alice_row 3000
             db_alice_100 (Wallet.mk 1 1 "USDT" (Some 100%float)) 100).
    + vm_compute. reflexivity.
    + reflexivity.
    + left. reflexivity.
    + vm_compute. reflexivity.
  - vm_compute. reflexivity.
Defined.







(** ** Conversion *)

(** C5, as stated, fails: converting 12700 UZS credits 1.0 USDT, but the
    ledger entry it appends has kind "deposit", not a kind of its own. *)
Lemma C5_counterexample_entry_kind :
  exists out db' entry,
    serve (convert_currency (ConversionRequest.mk 12700) alice_row 2000)
          db_two_users
    = (Return out, db')
    /\ ConversionOut.usdt_amount out = 1%float
    /\ transactions db' = [entry]
    /\ Transaction.transaction_type entry = "deposit"
    /\ Transaction.transaction_type entry <> "conversion-deposit".
Proof.
  do 3 eexists. split; [vm_compute; reflexivity |].
  repeat split. discriminate.
Qed.

(** C5, amended: for every positive source amount and a caller whose USDT
    balance is a number [b], the settlement amount of a conversion is
    [amount_uzs / 12700] as binary64 computes it; the balance is assigned
    [b + settlement amount] and committed, and exactly one ledger entry is
    appended, of kind "deposit" in USDT, whose amount is the settlement
    amount.  Unless the sum is NaN (stored as NULL) the balance read back
    is that sum.  Converting 12700 UZS yields exactly 1.0 USDT. *)
Theorem C5_conversion_credits_quotient
  (conversion : ConversionRequest.t) (current_user : User.t) (now : Z)
  (db : DB) (wallet : Wallet.t) (b : float) :
  let amount_uzs := ConversionRequest.amount_uzs conversion in
  let usdt_amount := PrimFloat.div amount_uzs 12700 in
  let entry :=
    Transaction.mk (next_id (map Transaction.id (transactions db)))
                   (User.id current_user) (Some usdt_amount)
                   "USDT" "deposit" None now in
  let db' :=
    mkDB (users db)
         (committed_update (fun b => PrimFloat.add b usdt_amount)
            (Wallet.id wallet) (wallets db))
         (transactions db ++ [entry]) in
  find_wallet (User.id current_user) "USDT" db = Some wallet ->
  Wallet.balance wallet = Some b ->
  PrimFloat.ltb 0 amount_uzs = true ->
  serve (convert_currency conversion current_user now) db
  = (Return (ConversionOut.mk amount_uzs usdt_amount), db')
  /\ (is_number (PrimFloat.add b usdt_amount) ->
      find_wallet (User.id current_user) "USDT" db'
      = Some (Wallet.with_balance wallet
                (Some (PrimFloat.add b usdt_amount))))
  /\ convert_uzs_to_usdt 12700 = 1%float.
Proof.
  intros amount_uzs usdt_amount entry db' W B Hpos.
  assert (SF_round.signed false (Prim2SF usdt_amount)) as Hsign
      by (apply (F64_order.convert_signed amount_uzs);
          now apply F64_order.positive_signed).
  split; [| split; [| reflexivity]].
  - rewrite (convert_currency_served conversion _ now _ _ b W B).
    unfold db', entry, ledger_entry.
    change (convert_uzs_to_usdt (ConversionRequest.amount_uzs conversion))
      with usdt_amount.
    now rewrite (F64_order.sqlite_real_signed _ Hsign).
  - intros Hnum. unfold db', committed_update.
    rewrite (find_wallet_rewritten _ _ _ _ _ _ _ _ W).
    rewrite Z.eqb_refl, B. cbn [option_map]. do 2 f_equal.
    apply F64_order.written_kept.
    now apply F64_order.sqlite_real_add.
Qed.

(** Alice converts 12700 UZS: her wallet goes from 100 to 101 USDT. *)
Lemma C5_witness_convert_12700 :
  exists out db',
    serve (convert_currency (ConversionRequest.mk 12700) alice_row 3000)
          db_alice_100
    = (Return out, db')
    /\ map Wallet.balance (wallets db')
       = [Some 101%float; Some 0%float]
    /\ List.length (transactions db')
       = S (List.length (transactions db_alice_100)).
Proof.
  do 2 eexists. split.
  - apply (C5_conversion_credits_quotient (ConversionRequest.mk 12700)
             alice_row 3000 db_alice_100
             (Wallet.mk 1 1 "USDT" (Some 100%float)) 100);
      vm_compute; reflexivity.
  - split; vm_compute; reflexivity.
Defined.

(** ** Registration and authentication *)

Section Identity.

Context `{Passlib} `{Jose}.

(** C7: registering a username that already exists (compared exactly,
    byte for byte) fails with "Username already registered" and leaves the
    database -- the existing user's stored hash and every wallet -- as it
    was; registering a new one, once passlib has hashed the secret, appends
    the user row and one USDT wallet with balance 0, which is then the only
    wallet of that user.  (Where passlib refuses the secret, the request
    ends with its exception and the database is as it was.) *)
Theorem C7_register_duplicate_or_provision
  (user : UserCreate.t) (salt : string) (db : DB) :
  owners_exist db ->
  match find_user (UserCreate.username user) db with
  | Some existing =>
      User.username existing = UserCreate.username user
      /\ serve (create_user user salt) db
         = (Raise (mkHTTPException 400 "Username already registered"), db)
  | None =>
      match get_password_hash salt (UserCreate.password user) with
      | Some hashed_password =>
          let new_user :=
            User.mk (next_id (map User.id (users db)))
                    (UserCreate.username user) hashed_password in
          let new_wallet :=
            Wallet.mk (next_id (map Wallet.id (wallets db)))
                      (User.id new_user) "USDT" (Some 0%float) in
          let db' :=
            mkDB (users db ++ [new_user]) (wallets db ++ [new_wallet])
                 (transactions db) in
          serve (create_user user salt) db = (Return new_user, db')
          /\ wallets_of (User.id new_user) db' = [new_wallet]
      | None =>
          serve (create_user user salt) db = (Raise ValueError, db)
      end
  end.
Proof.
  intros FK.
  destruct (find_user (UserCreate.username user) db) as [existing |] eqn:F.
  - split.
    + unfold find_user in F. apply find_some in F as [_ E].
      now apply String.eqb_eq in E.
    + eapply create_user_duplicate; eassumption.
  - destruct (get_password_hash salt (UserCreate.password user))
      as [hashed_password |] eqn:P;
      [| now apply create_user_refused].
    intros new_user new_wallet db'. split.
    + now apply create_user_fresh.
    + unfold wallets_of, db'. cbn [wallets]. rewrite filter_app.
      replace (filter _ (wallets db)) with (@nil Wallet.t).
      * cbn. now rewrite Z.eqb_refl.
      * symmetry. unfold owners_exist in FK.
        induction FK as [| w ws Hw _ IH]; [reflexivity |].
        cbn [filter].
        destruct (Z.eqb_spec (Wallet.user_id w) (User.id new_user)) as [E | _];
          [| exact IH].
        exfalso. rewrite E in Hw. now apply next_id_fresh in Hw.
Qed.

(** C8, amended: for a username not yet taken and a secret that passlib
    hashes, registering, then logging in with the same secret, then
    resolving the credential that login returned (before it expires) yields
    the user that registration created. *)
Theorem C8_register_login_resolve
  (user : UserCreate.t) (salt hashed_password : string) (now now' : Z)
  (db : DB) :
  passlib_ok -> jose_ok ->
  find_user (UserCreate.username user) db = None ->
  get_password_hash salt (UserCreate.password user) = Some hashed_password ->
  now' <= now + ACCESS_TOKEN_EXPIRE_MINUTES * 60 ->
  exists new_user db1 credential,
    serve (create_user user salt) db = (Return new_user, db1)
    /\ User.username new_user = UserCreate.username user
    /\ serve (login (OAuth2PasswordRequestForm.mk
                       (UserCreate.username user) (UserCreate.password user))
                    now) db1
       = (Return credential, db1)
    /\ serve (get_current_user (TokenOut.access_token credential) now') db1
       = (Return new_user, db1).
Proof.
  intros Hpass [Hjose _] F P Hnow.
  pose proof (create_user_fresh user salt db hashed_password F P) as Hreg.
  cbv zeta in Hreg.
  set (new_user := User.mk _ _ _) in Hreg.
  set (db1 := mkDB _ _ _) in Hreg.
  assert (find_user (UserCreate.username user) db1 = Some new_user) as F1.
  { unfold find_user, db1. cbn [users]. rewrite find_snoc.
    unfold find_user in F. rewrite F. cbn [User.username new_user].
    now rewrite String.eqb_refl. }
  exists new_user, db1. eexists. split; [exact Hreg |]. split; [reflexivity |].
  split.
  - apply login_served with (user := new_user); [exact F1 |].
    apply (Hpass salt). exact P.
  - cbn [TokenOut.access_token]. unfold serve.
    erewrite get_current_user_resolved; [reflexivity | | | exact F1].
    + unfold create_access_token. rewrite Hjose. unfold expired.
      cbn [Claims.exp].
      destruct (Z.ltb_spec (now + ACCESS_TOKEN_EXPIRE_MINUTES * 60) now');
        [lia | reflexivity].
    + reflexivity.
Qed.

(** C9: a credential presented after the expiry timestamp it encodes is
    rejected with "Could not validate credentials" (HTTP 401), whatever
    happened to it before; every route that takes a credential answers the
    same and leaves the database as it was. *)
Theorem C9_expired_credential_rejected
  (tok : token) (claims : Claims.t) (expiry now : Z) (db : DB) :
  jose_ok ->
  jwt_get_unverified_claims tok = Some claims ->
  Claims.exp claims = Some expiry ->
  expiry < now ->
  serve (get_current_user tok now) db = (Raise credentials_exception, db)
  /\ forall req,
       bearer req = Some tok ->
       app req now db = (Raise credentials_exception, db).
Proof.
  intros [_ Hjose] U E Hlate.
  assert (forall s, get_current_user tok now s = (Raise credentials_exception, s))
    as Hgate.
  { intros s. apply get_current_user_undecodable.
    destruct (jwt_decode tok SECRET_KEY [ALGORITHM] now) as [c |] eqn:D;
      [| reflexivity].
    apply Hjose in D as [U' X]. rewrite U in U'. inversion U'; subst c.
    unfold expired in X. rewrite E in X.
    apply Z.ltb_ge in X. lia. }
  split.
  - unfold serve. now rewrite Hgate.
  - intros req B. unfold app, serve.
    destruct req; cbn in B; try discriminate; inversion B; subst;
      cbn [route]; unfold bind at 1; now rewrite Hgate.
Qed.

End Identity.

(** "alice" is taken, "Alice" is not. *)
Lemma C7_witness_alice_twice :
  serve (create_user (UserCreate.mk "alice" "pw2") "s3") db_two_users
  = (Raise (mkHTTPException 400 "Username already registered"), db_two_users)
  /\ find_user "alice" db_two_users = Some alice_row
  /\ exists new_user db',
       serve (create_user (UserCreate.mk "Alice" "pw2") "s3") db_two_users
       = (Return new_user, db')
       /\ wallets_of (User.id new_user) db'
          = [Wallet.mk 3 3 "USDT" (Some 0%float)].
Proof.
  assert (owners_exist db_two_users) as FK.
  { unfold owners_exist. vm_compute.
    repeat (apply Forall_cons; [tauto |]). apply Forall_nil. }
  split; [| split; [reflexivity |]].
  - exact (proj2 (C7_register_duplicate_or_provision
                    (UserCreate.mk "alice" "pw2") "s3" db_two_users FK)).
  - do 2 eexists.
    exact (C7_register_duplicate_or_provision
             (UserCreate.mk "Alice" "pw2") "s3" db_two_users FK).
Defined.

(** C8, as stated, fails: bcrypt refuses a secret that contains a NUL
    byte.  With libraries that meet their contracts, registering carol, a
    new username, with such a secret ends with passlib's exception and
    creates no user, so the login that follows is refused. *)
Lemma C8_counterexample_nul_secret :
  let secret := String Ascii.zero "pw" in
  passlib_ok /\ jose_ok /\ bcrypt_refuses_nul
  /\ find_user "carol" db_two_users = None
  /\ serve (create_user (UserCreate.mk "carol" secret) "s3") db_two_users
     = (Raise ValueError, db_two_users)
  /\ serve (login (OAuth2PasswordRequestForm.mk "carol" secret) 1000)
           db_two_users
     = (Raise (mkHTTPException 401 "Incorrect username or password"),
        db_two_users).
Proof.
  intros secret.
  split; [exact reference_passlib_ok |].
  split; [exact reference_jose_ok |].
  split; [exact reference_refuses_nul |].
  repeat split; vm_compute; reflexivity.
Qed.

(** Alice registers in an empty database, logs in at once and is resolved. *)
Lemma C8_witness_alice_round_trip :
  exists new_user db1 credential,
    serve (create_user alice "s1") empty_db = (Return new_user, db1)
    /\ User.username new_user = "alice"
    /\ serve (login alice_form 1000) db1 = (Return credential, db1)
    /\ serve (get_current_user (TokenOut.access_token credential) 1000) db1
       = (Return new_user, db1).
Proof.
  apply (C8_register_login_resolve alice "s1" "$2b$pw" 1000 1000 empty_db
           reference_passlib_ok reference_jose_ok).
  - reflexivity.
  - reflexivity.
  - vm_compute. discriminate.
Defined.

(** The token alice got at time 1000 expires at 2800: it still resolves
    then, and is refused one second later, on every route. *)
Lemma C9_witness_alice_token_expires :
  serve (get_current_user alice_token 2800) db_two_users
  = (Return alice_row, db_two_users)
  /\ serve (get_current_user alice_token 2801) db_two_users
     = (Raise credentials_exception, db_two_users)
  /\ app (POST_transactions alice_token (deposit 100)) 2801 db_two_users
     = (Raise credentials_exception, db_two_users).
Proof.
  split; [vm_compute; reflexivity |].
  destruct (C9_expired_credential_rejected alice_token
              (Claims.mk (Some "alice") (Some 2800)) 2800 2801 db_two_users
              reference_jose_ok eq_refl eq_refl eq_refl) as [Hgate Hroutes].
  split; [exact Hgate |].
  apply Hroutes. reflexivity.
Defined.

(** ** Balances *)

(** C1, as stated, fails: alice registers and deposits -5; her balance is
    then -5. *)
Lemma C1_counterexample_negative_deposit :
  let db :=
    run [(POST_users alice "s1", 1000);
         (POST_transactions alice_token (deposit (-5)), 1001)] empty_db in
  wallets db = [Wallet.mk 1 1 "USDT" (Some (-5)%float)]
  /\ ~ balances_nonneg db.
Proof.
  assert (run [(POST_users alice "s1", 1000);
               (POST_transactions alice_token (deposit (-5)), 1001)] empty_db
          = mkDB [alice_row] [Wallet.mk 1 1 "USDT" (Some (-5)%float)]
                 [Transaction.mk 1 1 (Some (-5)%float) "USDT" "deposit"
                    None 1001]) as ->
      by (vm_compute; reflexivity).
  split; [reflexivity |].
  intros Hnn. inversion Hnn as [| w ws (b & Hb & Hw) _]; subst.
  inversion Hb; subst b. vm_compute in Hw. discriminate.
Qed.

(** C1, amended: starting from a wallet table with unique ids and balances
    [>= 0] (the empty database in particular), after every sequence of
    requests whose amounts are finite numbers [>= 0] every balance is
    [>= 0].  The handlers themselves accept any amount. *)
Theorem C1_balances_stay_nonneg `{Passlib} `{Jose}
  (reqs : list (Request * Z)) (db : DB) :
  wallet_ids_unique db ->
  balances_nonneg db ->
  Forall (fun r => amount_finite_nonneg (fst r)) reqs ->
  balances_nonneg (run reqs db).
Proof.
  intros Hids Hnn Hreqs.
  assert (wallets_sound db) as Hdb by now split.
  clear Hids Hnn. revert db Hdb.
  induction Hreqs as [| [req now] rest Hreq _ IH]; intros db Hdb.
  - apply Hdb.
  - cbn [run]. apply IH. now apply app_sound.
Qed.

(** Alice deposits 100, withdraws 30, sends 20 to bob and converts 12700
    UZS: 51 and 20 USDT are left. *)
Lemma C1_witness_ordinary_session :
  let reqs :=
    [(POST_users alice "s1", 1000); (POST_users bob "s2", 1001);
     (POST_transactions alice_token (deposit 100), 1002);
     (POST_transactions alice_token (withdrawal 30), 1003);
     (POST_transactions alice_token (transfer 20 2), 1004);
     (POST_convert alice_token (ConversionRequest.mk 12700), 1005)] in
  map Wallet.balance (wallets (run reqs empty_db))
  = [Some 51%float; Some 20%float]
  /\ balances_nonneg (run reqs empty_db).
Proof.
  intros reqs. split; [vm_compute; reflexivity |].
  apply (C1_balances_stay_nonneg reqs empty_db).
  - constructor.
  - constructor.
  - repeat (apply Forall_cons; [vm_compute; auto |]). apply Forall_nil.
Defined.

(** C10, as stated, fails: with a balance of 0.3, a transfer of 0.03 to
    one's own wallet is accepted and leaves 0.30000000000000004: the debit
    and the credit each round, and the roundings do not cancel. *)
Lemma C10_counterexample_rounding_self_transfer :
  exists entry db',
    serve (create_transaction (transfer 0.03 1) alice_row 3000)
          db_alice_three_tenths
    = (Return entry, db')
    /\ find_wallet 1 "USDT" db_alice_three_tenths
       = Some (Wallet.mk 1 1 "USDT" (Some 0.3%float))
    /\ find_wallet 1 "USDT" db'
       = Some (Wallet.mk 1 1 "USDT" (Some 0.30000000000000004%float))
    /\ PrimFloat.eqb 0.30000000000000004 0.3 = false.
Proof.
  do 2 eexists. split; [vm_compute; reflexivity |].
  repeat split; vm_compute; reflexivity.
Qed.

(** C10, amended: a transfer whose recipient wallet is the sender's own is
    accepted when the balance [b], a number, covers the amount.  Debit and
    credit apply, in this order, to the same record, so the balance is
    assigned [(b - amount) + amount] as binary64 computes it and committed,
    and one ledger entry of kind "transfer" referencing that wallet is
    appended.  The wallet table is unchanged when the round trip returns
    [b]; for a balance as the database stores it, it is unchanged exactly
    when the round trip equals [b]. *)
Theorem C10_self_transfer_round_trip
  (transaction : TransactionCreate.t) (current_user : User.t) (now : Z)
  (db : DB) (wallet : Wallet.t) (b : float) :
  let amount := TransactionCreate.amount transaction in
  let round_trip := fun b => PrimFloat.add (PrimFloat.sub b amount) amount in
  find_wallet (User.id current_user)
    (TransactionCreate.currency transaction) db = Some wallet ->
  Wallet.balance wallet = Some b ->
  TransactionCreate.transaction_type transaction = "transfer" ->
  find_wallet_by_id (TransactionCreate.recipient_wallet_id transaction) db
  = Some wallet ->
  PrimFloat.ltb b amount = false ->
  let entry :=
    ledger_entry db (User.id current_user) amount
      (TransactionCreate.currency transaction) "transfer"
      (Some (Wallet.id wallet)) now in
  let db' := snd (serve (create_transaction transaction current_user now) db) in
  serve (create_transaction transaction current_user now) db
  = (Return entry,
     mkDB (users db)
          (committed_update round_trip (Wallet.id wallet) (wallets db))
          (transactions db ++ [entry]))
  /\ (wallet_ids_unique db -> round_trip b = b -> wallets db' = wallets db)
  /\ (wallet_ids_unique db -> stored_cell (Some b) ->
      (wallets db' = wallets db <-> PrimFloat.eqb (round_trip b) b = true)).
Proof.
  intros amount round_trip W B K R L entry db'.
  assert (serve (create_transaction transaction current_user now) db
          = (Return entry,
             mkDB (users db)
                  (committed_update round_trip (Wallet.id wallet) (wallets db))
                  (transactions db ++ [entry]))) as Hserved.
  { rewrite (create_transaction_transfer _ _ now _ _ W b wallet b B K L R B).
    unfold committed_wallets.
    rewrite update_balance_twice, flush_update.
    apply find_wallet_by_id_some in R as [-> _].
    unfold entry. now rewrite K. }
  pose proof (find_wallet_in _ _ _ _ W) as Hin.
  assert (wallets db' = committed_update round_trip (Wallet.id wallet)
                          (wallets db)) as ->
      by (unfold db'; now rewrite Hserved).
  unfold committed_update.
  split; [exact Hserved | split].
  - intros Hids Hsame. apply rewrite_balance_fixed; try assumption.
    rewrite B. cbn [option_map]. rewrite Hsame. apply written_same.
  - intros Hids Hstored.
    rewrite (rewrite_balance_fixed _ wallet (wallets db) Hids Hin).
    rewrite B. cbn [option_map].
    rewrite (written_stored _ _ Hstored). cbn [sqlite_store].
    now apply F64_order.stored_eqb.
Qed.

(** Alice sends 40 of her 100 USDT to her own wallet: 100 are left, and the
    ledger has one more entry. *)
Lemma C10_witness_self_transfer_40 :
  exists entry,
    serve (create_transaction (transfer 40 1) alice_row 3000) db_alice_100
    = (Return entry,
       mkDB (users db_alice_100) (wallets db_alice_100)
            (transactions db_alice_100 ++ [entry]))
    /\ Transaction.transaction_type entry = "transfer"
    /\ Transaction.recipient_wallet_id entry = Some 1.
Proof.
  eexists.
  destruct (C10_self_transfer_round_trip (transfer 40 1) alice_row 3000
              db_alice_100 (Wallet.mk 1 1 "USDT" (Some 100%float)) 100
              eq_refl eq_refl eq_refl eq_refl eq_refl) as [Hserved _].
  split; [exact Hserved | split; reflexivity].
Defined.




(** * Further properties of the handlers *)

(** ** Shape of a served request *)

Lemma applied_entry_ok transaction current_user now db ws :
  In current_user (users db) ->
  applied transaction current_user db ws ->
  entry_ok db
    (ledger_entry db (User.id current_user)
       (TransactionCreate.amount transaction)
       (TransactionCreate.currency transaction)
       (TransactionCreate.transaction_type transaction)
       (TransactionCreate.recipient_wallet_id transaction) now).
Proof.
  intros Hu Happlied.
  assert (In (User.id current_user) (map User.id (users db))) as Hid
      by now apply in_map.
  destruct Happlied as [wallet b W B K | wallet b W B K L
                       | wallet b recipient_wallet br W B K L R Br];
    repeat split; cbn; auto; try (rewrite K; discriminate).
  intros _. apply find_wallet_by_id_some in R as [R Hin].
  exists (Wallet.id recipient_wallet). split; [exact R |].
  now apply in_map.
Qed.

Section Steps.

Context `{Passlib} `{Jose}.

Lemma create_user_step user salt db :
  step db (snd (serve (create_user user salt) db)).
Proof.
  destruct (create_user_cases user salt db) as [[e ->] | (hashed & F & ->)].
  - apply step_none.
  - cbn [snd]. now apply step_register.
Qed.

Lemma create_transaction_step transaction current_user now db :
  In current_user (users db) ->
  step db (snd (serve (create_transaction transaction current_user now) db)).
Proof.
  intros Hu.
  destruct (create_transaction_cases transaction current_user now db)
    as [[e ->] | (ws & Happlied & ->)]; [apply step_none |].
  cbn [snd]. apply step_ledger.
  - eapply applied_keys; eassumption.
  - eapply applied_entry_ok; eassumption.
  - reflexivity.
Qed.

Lemma convert_currency_step conversion current_user now db :
  In current_user (users db) ->
  step db (snd (serve (convert_currency conversion current_user now) db)).
Proof.
  intros Hu.
  destruct (convert_currency_cases conversion current_user now db)
    as [[e ->] | (wallet & b & W & B & ->)]; [apply step_none |].
  cbn [snd]. apply step_ledger;
    [apply committed_update_keys | | reflexivity].
  repeat split; cbn; auto.
  - now apply in_map.
  - discriminate.
Qed.

Lemma app_step req now db : step db (snd (app req now db)).
Proof.
  destruct (app_cases req now db)
    as [-> | [(user & salt & ->)
             | [(transaction & u & Hu & _ & ->)
               | (conversion & u & Hu & _ & ->)]]].
  - apply step_none.
  - apply create_user_step.
  - now apply create_transaction_step.
  - now apply convert_currency_step.
Qed.

End Steps.

(** ** What every step keeps *)

Lemma NoDup_snoc {A} (l : list A) (x : A) :
  NoDup l -> ~ In x l -> NoDup (l ++ [x]).
Proof.
  intros Hl Hx. apply NoDup_app; [exact Hl | repeat constructor; cbn; tauto |].
  intros a Ha [<- | []]. contradiction.
Qed.

Lemma find_user_none_fresh name db :
  find_user name db = None -> ~ In name (map User.username (users db)).
Proof.
  unfold find_user. intros F Hin.
  apply in_map_iff in Hin as (u & <- & Hu).
  pose proof (find_none _ _ F u Hu) as E. cbn in E.
  now rewrite String.eqb_refl in E.
Qed.

Lemma extends_refl db : extends db db.
Proof.
  repeat split; exists []; now rewrite app_nil_r.
Qed.

Lemma extends_trans db1 db2 db3 :
  extends db1 db2 -> extends db2 db3 -> extends db1 db3.
Proof.
  intros ((us & Hu) & (ws & Hw) & (ts & Ht))
         ((us' & Hu') & (ws' & Hw') & (ts' & Ht')).
  repeat split.
  - exists (us ++ us'). now rewrite Hu', Hu, app_assoc.
  - exists (ws ++ ws'). now rewrite Hw', Hw, app_assoc.
  - exists (ts ++ ts'). now rewrite Ht', Ht, app_assoc.
Qed.

Lemma step_extends db db' : step db db' -> extends db db'.
Proof.
  intros [| name hashed F new_user | ws entry K Hok Hid].
  - apply extends_refl.
  - repeat split; cbn [users wallets transactions].
    + now eexists.
    + eexists. now rewrite map_app.
    + exists []. now rewrite app_nil_r.
  - repeat split; cbn [users wallets transactions].
    + exists []. now rewrite app_nil_r.
    + exists []. now rewrite app_nil_r.
    + now eexists.
Qed.

Lemma step_keys_unique db db' : step db db' -> keys_unique db -> keys_unique db'.
Proof.
  intros [| name hashed F new_user | ws entry K Hok Hid]
         (Huid & Hname & Hwid & Htid); [now repeat split | |].
  - repeat split; cbn [users wallets transactions]; try assumption;
      rewrite map_app; cbn [map];
      apply NoDup_snoc; try assumption.
    + apply next_id_fresh.
    + now apply find_user_none_fresh.
    + apply next_id_fresh.
  - repeat split; cbn [users wallets transactions]; try assumption.
    + apply wallet_key_ids in K as (-> & _ & _). exact Hwid.
    + rewrite map_app. cbn [map]. apply NoDup_snoc; [exact Htid |].
      rewrite Hid. apply next_id_fresh.
Qed.

Lemma step_one_wallet_each db db' :
  step db db' -> one_wallet_each db -> one_wallet_each db'.
Proof.
  intros [| name hashed F new_user | ws entry K Hok Hid] (Hown & Hcur);
    [now split | |].
  - split; cbn [users wallets].
    + rewrite !map_app, Hown. reflexivity.
    + apply Forall_app. split; [exact Hcur | now repeat constructor].
  - apply wallet_key_ids in K as (_ & Ku & Kc).
    split; cbn [users wallets].
    + now rewrite Ku.
    + apply Forall_forall. intros w Hw.
      assert (In (Wallet.currency w) (map Wallet.currency (wallets db)))
        as Hin by (rewrite <- Kc; now apply in_map).
      apply in_map_iff in Hin as (w0 & <- & Hw0).
      now apply (proj1 (Forall_forall _ _) Hcur).
Qed.

Lemma entry_ok_extends db db' entry :
  extends db db' -> entry_ok db entry -> entry_ok db' entry.
Proof.
  intros ((us & Hu) & (ws & Hw) & _) (Huser & Hkind & Hrec).
  repeat split; [| exact Hkind |].
  - rewrite Hu, map_app. apply in_or_app. now left.
  - intros K. destruct (Hrec K) as (i & Hi & Hin). exists i.
    split; [exact Hi |].
    apply (f_equal (map (fun k => fst (fst k)))) in Hw.
    rewrite map_app, !map_map in Hw. cbn in Hw.
    change (map (fun x => Wallet.id x) (wallets db'))
      with (map Wallet.id (wallets db')) in Hw.
    rewrite Hw. apply in_or_app. now left.
Qed.

Lemma step_ledger_ok db db' : step db db' -> ledger_ok db -> ledger_ok db'.
Proof.
  intros S Hok. pose proof (step_extends _ _ S) as E.
  assert (Forall (entry_ok db') (transactions db)) as Hold.
  { eapply Forall_impl; [| exact Hok].
    intros t. now apply entry_ok_extends. }
  destruct S as [| name hashed F new_user | ws entry K Hentry Hid];
    [exact Hold | exact Hold |].
  unfold ledger_ok. cbn [transactions]. apply Forall_app. split.
  - exact Hold.
  - apply Forall_cons; [| apply Forall_nil].
    eapply entry_ok_extends; eassumption.
Qed.

Section Runs.

Context `{Passlib} `{Jose}.

(** Whatever every step keeps, every sequence of requests keeps. *)
Lemma run_keeps (P : DB -> Prop) :
  (forall db db', step db db' -> P db -> P db') ->
  forall reqs db, P db -> P (run reqs db).
Proof.
  intros Hstep reqs. induction reqs as [| [req now] rest IH]; intros db Hdb.
  - exact Hdb.
  - cbn [run]. apply IH. eapply Hstep; [apply app_step | exact Hdb].
Qed.

Lemma run_extends reqs db : extends db (run reqs db).
Proof.
  revert db. induction reqs as [| [req now] rest IH]; intros db.
  - apply extends_refl.
  - cbn [run]. eapply extends_trans; [| apply IH].
    apply step_extends, app_step.
Qed.

End Runs.

(** ** Authentication *)

Section Authentication.

Context `{Passlib} `{Jose}.

(** Resolution never touches the session and fails in one way only. *)
Lemma get_current_user_fails_uniformly tok now s outcome s' :
  get_current_user tok now s = (outcome, s') ->
  s' = s /\ forall e, outcome = Raise e -> e = credentials_exception.
Proof.
  intros E.
  pose proof (get_current_user_reads tok now s) as R.
  rewrite E in R. cbn in R. split; [exact R |].
  intros e ->. revert E. unfold get_current_user.
  destruct (jwt_decode _ _ _ _) as [payload |];
    [| now inversion 1].
  destruct (Claims.sub payload) as [username |]; [| now inversion 1].
  handler_unfold.
  destruct (find_user username (working s)); now inversion 1.
Qed.

(** X1: login answers with a bearer token exactly when the username exists
    and passlib verifies the password against the stored hash.  An unknown
    username and a password passlib finds wrong get the same 401 "Incorrect
    username or password"; a password passlib refuses to look at (bcrypt
    refuses one with a NUL byte) ends the request of an existing user with
    passlib's exception, while an unknown user still gets the 401.  In no
    case is the database changed. *)
Theorem X1_login_outcome
  (form_data : OAuth2PasswordRequestForm.t) (now : Z) (db : DB) :
  let username := OAuth2PasswordRequestForm.username form_data in
  let password := OAuth2PasswordRequestForm.password form_data in
  match find_user username db with
  | None =>
      serve (login form_data now) db
      = (Raise (mkHTTPException 401 "Incorrect username or password"), db)
  | Some user =>
      match verify_password password (User.hashed_password user) with
      | Some true =>
          exists credential,
            serve (login form_data now) db = (Return credential, db)
            /\ TokenOut.token_type credential = "bearer"
      | Some false =>
          serve (login form_data now) db
          = (Raise (mkHTTPException 401 "Incorrect username or password"),
             db)
      | None => serve (login form_data now) db = (Raise ValueError, db)
      end
      /\ (bcrypt_refuses_nul -> contains_nul password = true ->
          serve (login form_data now) db = (Raise ValueError, db))
  end.
Proof.
  intros username password. unfold login. handler_unfold.
  fold username password.
  destruct (find_user username db) as [user |] eqn:F; [| reflexivity].
  split.
  - destruct (verify_password _ _) as [[] |] eqn:V; cbn; try reflexivity.
    eexists. split; reflexivity.
  - intros Hnul Hpw. destruct (Hnul password Hpw) as [_ Hverify].
    unfold verify_password. now rewrite Hverify.
Qed.

(** X2: resolving a token returns a user exactly when the token decodes
    under the application's key, carries a "sub", and that name is a
    registered username; the user returned is that row.  Every other
    outcome is the same 401 "Could not validate credentials", and the
    session is never touched. *)
Theorem X2_get_current_user_outcome (tok : token) (now : Z) (s : Session) :
  (forall user,
      get_current_user tok now s = (Return user, s)
      <-> exists payload username,
            jwt_decode tok SECRET_KEY [ALGORITHM] now = Some payload
            /\ Claims.sub payload = Some username
            /\ find_user username (working s) = Some user)
  /\ (forall outcome s',
         get_current_user tok now s = (outcome, s') ->
         s' = s
         /\ forall e, outcome = Raise e -> e = credentials_exception).
Proof.
  split.
  - intros user. split.
    + unfold get_current_user.
      destruct (jwt_decode _ _ _ _) as [payload |]; [| discriminate].
      destruct (Claims.sub payload) as [username |] eqn:S; [| discriminate].
      handler_unfold.
      destruct (find_user username (working s)) as [u |] eqn:F;
        [| discriminate].
      intros E. inversion E; subst. now exists payload, username.
    + intros (payload & username & D & S & F).
      eapply get_current_user_resolved; eassumption.
  - intros outcome s' E.
    exact (get_current_user_fails_uniformly tok now s outcome s' E).
Qed.

(** X3: a route that takes a bearer token does its work only for a
    registered user the token resolves to: when resolution fails the route
    answers 401 and leaves the database as it was, and whenever the route
    returns a result the token resolved to a row of [users]. *)
Theorem X3_routes_act_for_resolved_users_only
  (req : Request) (tok : token) (now : Z) (db : DB) :
  bearer req = Some tok ->
  (forall e s,
      get_current_user tok now (mkSession db db) = (Raise e, s) ->
      app req now db = (Raise credentials_exception, db))
  /\ (forall result db',
         app req now db = (Return result, db') ->
         exists user,
           get_current_user tok now (mkSession db db)
           = (Return user, mkSession db db)
           /\ In user (users db)).
Proof.
  intros B.
  destruct (get_current_user tok now (mkSession db db)) as [outcome s] eqn:G.
  destruct (get_current_user_fails_uniformly _ _ _ _ _ G) as [-> Herr].
  split.
  - intros e s' E. inversion E; subst.
    rewrite (Herr e eq_refl) in G.
    unfold app, serve.
    destruct req; cbn in B; try discriminate; inversion B; subst;
      cbn [route]; unfold bind at 1; now rewrite G.
  - intros result db' A.
    destruct outcome as [user | e].
    + exists user. split; [reflexivity |].
      now apply get_current_user_registered in G.
    + exfalso. unfold app, serve in A.
      destruct req; cbn in B; try discriminate; inversion B; subst;
        cbn [route] in A; unfold bind at 1 in A; rewrite G in A;
        discriminate.
Qed.

End Authentication.

(** ** Reading routes *)

Section Reading.

Context `{Passlib} `{Jose}.

(** X4: logging in, listing one's wallets and listing one's transactions
    never change the database, whatever they answer. *)
Theorem X4_reading_routes_change_nothing (req : Request) (now : Z) (db : DB) :
  read_only req = true -> snd (app req now db) = db.
Proof.
  intros R. unfold app.
  destruct req as [user salt | form_data | tok | tok transaction | tok
                  | tok conversion]; cbn in R; try discriminate;
    cbn [route].
  - unfold serve, bind, ret.
    pose proof (login_reads form_data now (mkSession db db)) as L.
    destruct (login form_data now (mkSession db db)) as [[a | e] s];
      cbn in L; now subst s.
  - destruct (authenticated_route tok now get_wallets WalletsOut db)
      as [-> | (u & _ & ->)]; reflexivity.
  - destruct (authenticated_route tok now get_transactions TransactionsOut db)
      as [-> | (u & _ & ->)]; reflexivity.
Qed.

(** X5: the wallet listing returns exactly the wallet rows owned by the user
    the token resolves to, and the transaction listing exactly the ledger
    rows entered by that user: nothing of another user's, nothing left
    out. *)
Theorem X5_listings_return_the_callers_rows (tok : token) (now : Z) (db : DB) :
  (forall ws db',
      app (GET_wallets tok) now db = (Return (WalletsOut ws), db') ->
      exists user,
        get_current_user tok now (mkSession db db)
        = (Return user, mkSession db db)
        /\ forall w,
             In w ws
             <-> In w (wallets db) /\ Wallet.user_id w = User.id user)
  /\ (forall ts db',
         app (GET_transactions tok) now db
         = (Return (TransactionsOut ts), db') ->
         exists user,
           get_current_user tok now (mkSession db db)
           = (Return user, mkSession db db)
           /\ forall t,
                In t ts
                <-> In t (transactions db)
                    /\ Transaction.user_id t = User.id user).
Proof.
  destruct (get_current_user tok now (mkSession db db)) as [outcome s] eqn:G.
  destruct (get_current_user_fails_uniformly _ _ _ _ _ G) as [-> _].
  split.
  - intros ws db' A. unfold app, serve in A. cbn [route] in A.
    unfold bind at 1 in A. rewrite G in A.
    destruct outcome as [user | e]; [| discriminate].
    exists user. split; [reflexivity |].
    unfold get_wallets in A. revert A. handler_unfold.
    intros A. inversion A; subst. intros w.
    unfold wallets_of. rewrite filter_In, Z.eqb_eq. reflexivity.
  - intros ts db' A. unfold app, serve in A. cbn [route] in A.
    unfold bind at 1 in A. rewrite G in A.
    destruct outcome as [user | e]; [| discriminate].
    exists user. split; [reflexivity |].
    unfold get_transactions in A. revert A. handler_unfold.
    intros A. inversion A; subst. intros t.
    unfold transactions_of. rewrite filter_In, Z.eqb_eq. reflexivity.
Qed.

(** X18: a token issued by login at time [now] resolves to the user who
    logged in at every time up to [now + 1800] seconds, that second
    included, and is refused with 401 at every later time. *)
Theorem X18_login_token_lasts_thirty_minutes
  (form_data : OAuth2PasswordRequestForm.t) (now : Z) (db : DB)
  (credential : TokenOut.t) :
  jose_ok ->
  serve (login form_data now) db = (Return credential, db) ->
  exists user,
    find_user (OAuth2PasswordRequestForm.username form_data) db = Some user
    /\ forall now',
         serve (get_current_user (TokenOut.access_token credential) now') db
         = if now' <=? now + 1800
           then (Return user, db)
           else (Raise credentials_exception, db).
Proof.
  intros [Hjose _] L. revert L. unfold login. handler_unfold.
  destruct (find_user _ db) as [user |] eqn:F; [| discriminate].
  destruct (verify_password _ _) as [[] |]; cbn; try discriminate.
  intros L. inversion L; subst. exists user. split; [reflexivity |].
  intros now'. cbn [TokenOut.access_token]. unfold serve.
  assert (User.username user = OAuth2PasswordRequestForm.username form_data)
    as Hname.
  { unfold find_user in F. apply find_some in F as [_ E].
    now apply String.eqb_eq in E. }
  assert (jwt_decode
            (create_access_token
               (Claims.mk (Some (User.username user)) None) now)
            SECRET_KEY [ALGORITHM] now'
          = if now' <=? now + 1800 then
              Some (Claims.mk (Some (User.username user)) (Some (now + 1800)))
            else None) as D.
  { unfold create_access_token. rewrite Hjose. unfold expired.
    cbn [Claims.exp Claims.sub].
    change (now + ACCESS_TOKEN_EXPIRE_MINUTES * 60) with (now + 30 * 60).
    replace (now + 30 * 60) with (now + 1800) by lia.
    destruct (Z.ltb_spec (now + 1800) now'), (Z.leb_spec now' (now + 1800));
      try lia; reflexivity. }
  destruct (now' <=? now + 1800).
  - erewrite get_current_user_resolved; [reflexivity | exact D | reflexivity |].
    cbn [working]. now rewrite Hname.
  - now rewrite get_current_user_undecodable.
Qed.

End Reading.

(** ** Transactions *)

Module F64_edge.




End F64_edge.

(** What a returned transaction says about the request and the database. *)
Lemma create_transaction_returns
  transaction current_user now db entry db' :
  serve (create_transaction transaction current_user now) db
  = (Return entry, db') ->
  entry
  = ledger_entry db (User.id current_user)
      (TransactionCreate.amount transaction)
      (TransactionCreate.currency transaction)
      (TransactionCreate.transaction_type transaction)
      (TransactionCreate.recipient_wallet_id transaction) now
  /\ exists ws,
       applied transaction current_user db ws
       /\ db' = mkDB (users db) ws (transactions db ++ [entry]).
Proof.
  intros E.
  destruct (create_transaction_cases transaction current_user now db)
    as [[e E'] | (ws & Happlied & E')]; rewrite E' in E;
    [discriminate |].
  inversion E; subst. split; [reflexivity |]. now exists ws.
Qed.



(** X7: when the caller has no wallet in the requested currency the request
    fails with "Wallet not found" whatever its kind and amount; when the
    wallet exists and the kind is none of "deposit", "withdrawal",
    "transfer" it fails with "Invalid transaction type".  Either way the
    database is left as it was. *)
Theorem X7_missing_wallet_and_unknown_kind
  (transaction : TransactionCreate.t) (current_user : User.t) (now : Z)
  (db : DB) :
  let kind := TransactionCreate.transaction_type transaction in
  match find_wallet (User.id current_user)
          (TransactionCreate.currency transaction) db with
  | None =>
      serve (create_transaction transaction current_user now) db
      = (Raise (mkHTTPException 400 "Wallet not found"), db)
  | Some _ =>
      kind <> "deposit" -> kind <> "withdrawal" -> kind <> "transfer" ->
      serve (create_transaction transaction current_user now) db
      = (Raise (mkHTTPException 400 "Invalid transaction type"), db)
  end.
Proof.
  intros kind.
  destruct (find_wallet _ _ db) as [wallet |] eqn:W.
  - intros K1 K2 K3. now apply (create_transaction_invalid _ _ now _ wallet).
  - now apply create_transaction_no_wallet.
Qed.

(** X8: every applied transaction request is entered in the ledger exactly
    once: the returned row, read back from the database, carries the
    caller's id, the requested currency, kind and recipient id, the current
    time, an id no earlier row has, and the requested amount as SQLite
    stores it (NULL for NaN, 0.0 for -0.0, the amount itself otherwise); it
    is appended at the end of the caller's transaction listing, and no other
    user's listing changes. *)
Theorem X8_applied_request_is_recorded_once
  (transaction : TransactionCreate.t) (current_user : User.t) (now : Z)
  (db db' : DB) (entry : Transaction.t) :
  serve (create_transaction transaction current_user now) db
  = (Return entry, db') ->
  entry
  = Transaction.mk (next_id (map Transaction.id (transactions db)))
      (User.id current_user)
      (sqlite_real (TransactionCreate.amount transaction))
      (TransactionCreate.currency transaction)
      (TransactionCreate.transaction_type transaction)
      (TransactionCreate.recipient_wallet_id transaction) now
  /\ ~ In (Transaction.id entry) (map Transaction.id (transactions db))
  /\ transactions_of (User.id current_user) db'
     = transactions_of (User.id current_user) db ++ [entry]
  /\ forall uid,
       uid <> User.id current_user ->
       transactions_of uid db' = transactions_of uid db.
Proof.
  intros E. apply create_transaction_returns in E as (He & ws & _ & ->).
  unfold ledger_entry in He. split; [exact He |].
  split; [rewrite He; apply next_id_fresh |].
  unfold transactions_of. cbn [transactions].
  assert (Transaction.user_id entry = User.id current_user) as Hu
      by now rewrite He.
  split.
  - rewrite filter_app. cbn [filter]. now rewrite Hu, Z.eqb_refl.
  - intros uid Hne. rewrite filter_app. cbn [filter]. rewrite Hu.
    destruct (Z.eqb_spec (User.id current_user) uid); [congruence |].
    apply app_nil_r.
Qed.


(** X10: a transaction request, applied or not, leaves every wallet row
    other than the caller's wallet in the requested currency and, for a
    transfer, the wallet with the recipient id exactly as it was and where
    it was; a conversion leaves every wallet row other than the caller's
    USDT wallet so.  No request of either kind touches the user table. *)
Theorem X10_other_wallets_are_untouched
  (transaction : TransactionCreate.t) (conversion : ConversionRequest.t)
  (current_user : User.t) (now : Z) (db : DB) (i : nat) (w : Wallet.t) :
  let after_transaction :=
    snd (serve (create_transaction transaction current_user now) db) in
  let after_conversion :=
    snd (serve (convert_currency conversion current_user now) db) in
  nth_error (wallets db) i = Some w ->
  (find_wallet (User.id current_user)
     (TransactionCreate.currency transaction) db <> Some w ->
   (TransactionCreate.transaction_type transaction = "transfer" ->
    TransactionCreate.recipient_wallet_id transaction
    <> Some (Wallet.id w)) ->
   wallet_ids_unique db ->
   nth_error (wallets after_transaction) i = Some w)
  /\ (find_wallet (User.id current_user) "USDT" db <> Some w ->
      wallet_ids_unique db ->
      nth_error (wallets after_conversion) i = Some w)
  /\ users after_transaction = users db
  /\ users after_conversion = users db.
Proof.  intros after_transaction after_conversion N.
  assert (In w (wallets db)) as Hin by (eapply nth_error_In; exact N).
  assert (forall sender,
             In sender (wallets db) -> Some sender <> Some w ->
             wallet_ids_unique db ->
             Wallet.id w <> Wallet.id sender) as Hother.
  { intros sender F Hne Hids E. apply Hne. f_equal.
    symmetry. now apply (wallet_id_inj (wallets db) Hids). }
  unfold after_transaction, after_conversion.
  split; [| split; [| split]].
  - intros Hsender Hrecipient Hids.
    destruct (create_transaction_cases transaction current_user now db)
      as [[e ->] | (ws & Happlied & ->)]; [exact N |].
    cbn [snd wallets].
    destruct Happlied as [wallet b W B K | wallet b W B K L
                         | wallet b recipient_wallet br W B K L R Br];
      rewrite W in Hsender;
      pose proof (Hother _ (find_wallet_in _ _ _ _ W) Hsender Hids) as Hne.
    + now apply nth_error_rewrite_other.
    + now apply nth_error_rewrite_other.
    + apply find_wallet_by_id_some in R as [R _].
      assert (Wallet.id w <> Wallet.id recipient_wallet) as Hne'
          by (intros E; apply (Hrecipient K); now rewrite R, E).
      rewrite transfer_table. destruct (_ =? _).
      * now apply nth_error_rewrite_other.
      * apply nth_error_rewrite_other; [| exact Hne'].
        now apply nth_error_rewrite_other.
  - intros Hsender Hids.
    destruct (convert_currency_cases conversion current_user now db)
      as [[e ->] | (wallet & b & W & B & ->)]; [exact N |].
    cbn [snd wallets]. rewrite W in Hsender.
    pose proof (Hother _ (find_wallet_in _ _ _ _ W) Hsender Hids) as Hne.
    now apply nth_error_rewrite_other.
  - destruct (create_transaction_cases transaction current_user now db)
      as [[e ->] | (ws & Happlied & ->)]; reflexivity.
  - destruct (convert_currency_cases conversion current_user now db)
      as [[e ->] | (wallet & b & W & B & ->)]; reflexivity.
Qed.


(** ** Sequences of requests *)

Lemma find_app_some {A} (p : A -> bool) (l l' : list A) (x : A) :
  find p l = Some x -> find p (l ++ l') = Some x.
Proof.
  induction l as [| a l IH]; simpl; [discriminate |].
  destruct (p a); [auto | exact IH].
Qed.



Section Invariants.

Context `{Passlib} `{Jose}.

(** X12: no sequence of requests deletes or rewrites a row: the user table
    and the ledger only grow at the end, and every wallet row keeps its
    place, id, owner and currency (only balances change, and new wallets
    are appended). *)
Theorem X12_requests_only_append (reqs : list (Request * Z)) (db : DB) :
  extends db (run reqs db).
Proof.
  revert db. induction reqs as [| [req now] rest IH]; intros db.
  - apply extends_refl.
  - cbn [run]. apply extends_trans with (snd (app req now db)).
    + apply step_extends, app_step.
    + apply IH.
Qed.

(** X13: user ids, usernames, wallet ids and ledger ids stay unique across
    every sequence of requests. *)
Theorem X13_keys_stay_unique (reqs : list (Request * Z)) (db : DB) :
  keys_unique db -> keys_unique (run reqs db).
Proof.
  apply run_keeps. intros db1 db2. apply step_keys_unique.
Qed.

(** X14: if wallets and users are paired one to one, in order, and every
    wallet is in USDT, this stays so across every sequence of requests:
    registration is the only place a wallet is created, one per new user,
    in USDT. *)
Theorem X14_one_usdt_wallet_per_user (reqs : list (Request * Z)) (db : DB) :
  one_wallet_each db -> one_wallet_each (run reqs db).
Proof.
  apply run_keeps. intros db1 db2. apply step_one_wallet_each.
Qed.


(** X16: across every sequence of requests, every ledger row names an
    existing user and has kind "deposit", "withdrawal" or "transfer", and
    every transfer row names an existing wallet as its recipient. *)
Theorem X16_ledger_rows_stay_well_formed
  (reqs : list (Request * Z)) (db : DB) :
  ledger_ok db -> ledger_ok (run reqs db).
Proof.
  apply run_keeps. intros db1 db2. apply step_ledger_ok.
Qed.

(** X17: identities are permanent: a username that resolves to a user row
    keeps resolving to the same row (same id, same stored hash) after any
    sequence of requests, and a token that resolves to a user at some time
    resolves to the same user at that time after any sequence of requests;
    no request revokes a token. *)
Theorem X17_identities_are_permanent (reqs : list (Request * Z)) (db : DB) :
  (forall username user,
      find_user username db = Some user ->
      find_user username (run reqs db) = Some user)
  /\ (forall tok now user,
         serve (get_current_user tok now) db = (Return user, db) ->
         serve (get_current_user tok now) (run reqs db)
         = (Return user, run reqs db)).
Proof.
  assert (forall username user,
             find_user username db = Some user ->
             find_user username (run reqs db) = Some user) as Hfind.
  { intros username user F.
    destruct (run_extends reqs db) as ((us & Hus) & _).
    unfold find_user in *. rewrite Hus. now apply find_app_some. }
  split; [exact Hfind |].
  intros tok now user. unfold serve.
  destruct (get_current_user tok now (mkSession db db)) as [outcome s] eqn:G.
  destruct (get_current_user_fails_uniformly _ _ _ _ _ G) as [-> _].
  intros E. inversion E; subst. clear E. revert G.
  unfold get_current_user.
  destruct (jwt_decode _ _ _ _) as [payload |]; [| discriminate].
  destruct (Claims.sub payload) as [username |]; [| discriminate].
  handler_unfold.
  destruct (find_user username db) as [u |] eqn:F; [| discriminate].
  intros G. inversion G; subst. now rewrite (Hfind _ _ F).
Qed.

End Invariants.

(** ** The order of balances *)

Lemma Forall2_map_self {A} (R : A -> A -> Prop) (h : A -> A) (l : list A) :
  (forall a, R a (h a)) -> Forall2 R l (map h l).
Proof. intros Hh. induction l; cbn; constructor; auto. Qed.

Lemma Forall2_same {A} (R : A -> A -> Prop) (l : list A) :
  (forall a, R a a) -> Forall2 R l l.
Proof. intros Hr. induction l; constructor; auto. Qed.

Lemma not_nan_number x : PrimFloat.is_nan x = false -> is_number x.
Proof.
  unfold PrimFloat.is_nan, is_number. now destruct (PrimFloat.eqb x x).
Qed.

(** What is read back is on the same side of [b] as what was written. *)
Lemma written_above old b y b' :
  (is_number y -> PrimFloat.leb b y = true) ->
  written old (Some y) = Some b' -> is_number b' ->
  PrimFloat.leb b b' = true.
Proof.
  intros Hy E Hb'.
  destruct (written_cases old (Some y)) as [E' | E']; rewrite E' in E.
  { inversion E; subst. auto. }
  cbn [sqlite_store] in E.
  destruct (sqlite_real_cases y)
    as [[_ S] | [(N & Z & S) | (N & Z & S)]]; rewrite S in E;
    inversion E; subst.
  - destruct (F64_cell.compare_zero b y Z) as (<- & _).
    now apply Hy, not_nan_number.
  - auto.
Qed.

Lemma written_below old b y b' :
  (is_number y -> PrimFloat.leb y b = true) ->
  written old (Some y) = Some b' -> is_number b' ->
  PrimFloat.leb b' b = true.
Proof.
  intros Hy E Hb'.
  destruct (written_cases old (Some y)) as [E' | E']; rewrite E' in E.
  { inversion E; subst. auto. }
  cbn [sqlite_store] in E.
  destruct (sqlite_real_cases y)
    as [[_ S] | [(N & Z & S) | (N & Z & S)]]; rewrite S in E;
    inversion E; subst.
  - destruct (F64_cell.compare_zero b y Z) as (_ & <- & _).
    now apply Hy, not_nan_number.
  - auto.
Qed.

Lemma not_lowered_same w : not_lowered w w.
Proof.
  split; [reflexivity |]. intros (b & B & Hb). rewrite B. cbn.
  now apply F64_order.leb_refl.
Qed.

Lemma not_raised_same w : not_raised w w.
Proof.
  split; [reflexivity |]. intros (b & B & Hb). rewrite B. cbn.
  now apply F64_order.leb_refl.
Qed.

Lemma credit_not_lowered x w :
  F64.nonneg x ->
  not_lowered w
    (Wallet.with_balance w
       (written (Wallet.balance w)
          (option_map (fun b => PrimFloat.add b x) (Wallet.balance w)))).
Proof.
  intros Hx. split; [reflexivity |].
  cbn [Wallet.with_balance Wallet.balance].
  intros (b' & E & Hb'). rewrite E.
  destruct (Wallet.balance w) as [b |]; cbn [option_map] in E;
    [| now rewrite written_none in E].
  cbn. eapply written_above; [| exact E | exact Hb'].
  now apply F64_order.add_ge.
Qed.

Lemma debit_not_raised x w :
  F64.nonneg x ->
  not_raised w
    (Wallet.with_balance w
       (written (Wallet.balance w)
          (option_map (fun b => PrimFloat.sub b x) (Wallet.balance w)))).
Proof.
  intros Hx. split; [reflexivity |].
  cbn [Wallet.with_balance Wallet.balance].
  intros (b' & E & Hb'). rewrite E.
  destruct (Wallet.balance w) as [b |]; cbn [option_map] in E;
    [| now rewrite written_none in E].
  cbn. eapply written_below; [| exact E | exact Hb'].
  now apply F64_order.sub_le.
Qed.

Lemma credits_not_lowered x wid ws :
  F64.nonneg x ->
  Forall2 not_lowered ws
    (committed_update (fun b => PrimFloat.add b x) wid ws).
Proof.
  intros Hx. apply Forall2_map_self. intros w.
  destruct (Wallet.id w =? wid);
    [now apply credit_not_lowered | apply not_lowered_same].
Qed.

Lemma debits_not_raised x wid ws :
  F64.nonneg x ->
  Forall2 not_raised ws
    (committed_update (fun b => PrimFloat.sub b x) wid ws).
Proof.
  intros Hx. apply Forall2_map_self. intros w.
  destruct (Wallet.id w =? wid);
    [now apply debit_not_raised | apply not_raised_same].
Qed.

Lemma applied_kind transaction current_user db ws :
  applied transaction current_user db ws ->
  (TransactionCreate.transaction_type transaction = "deposit"
   /\ exists wallet,
        ws = committed_update
               (fun b => PrimFloat.add b (TransactionCreate.amount transaction))
               (Wallet.id wallet) (wallets db))
  \/ (TransactionCreate.transaction_type transaction = "withdrawal"
      /\ exists wallet,
           ws = committed_update
                  (fun b => PrimFloat.sub b
                              (TransactionCreate.amount transaction))
                  (Wallet.id wallet) (wallets db))
  \/ (TransactionCreate.transaction_type transaction = "transfer"
      /\ exists wallet recipient_wallet,
           find_wallet (User.id current_user)
             (TransactionCreate.currency transaction) db = Some wallet
           /\ TransactionCreate.recipient_wallet_id transaction
              = Some (Wallet.id recipient_wallet)
           /\ ws = if Wallet.id recipient_wallet =? Wallet.id wallet
                   then committed_update
                          (fun b => PrimFloat.add
                                      (PrimFloat.sub b
                                         (TransactionCreate.amount transaction))
                                      (TransactionCreate.amount transaction))
                          (Wallet.id wallet) (wallets db)
                   else committed_update
                          (fun b => PrimFloat.add b
                                      (TransactionCreate.amount transaction))
                          (Wallet.id recipient_wallet)
                          (committed_update
                             (fun b => PrimFloat.sub b
                                         (TransactionCreate.amount
                                            transaction))
                             (Wallet.id wallet) (wallets db))).
Proof.
  intros [wallet b W B K | wallet b W B K L
         | wallet b recipient_wallet br W B K L R Br].
  - left. split; [exact K | now exists wallet].
  - right. left. split; [exact K | now exists wallet].
  - right. right. split; [exact K |]. exists wallet, recipient_wallet.
    split; [exact W |].
    split; [now apply find_wallet_by_id_some in R |].
    apply transfer_table.
Qed.

(** X19: a deposit or a conversion of an amount [>= 0] lowers no balance:
    row for row, the wallet table after the request has the same ids, owners
    and currencies, and every balance that is a number is [>=] the balance
    it replaces, whatever the rounding of the binary64 addition did. *)
Theorem X19_credits_never_lower_a_balance
  (transaction : TransactionCreate.t) (conversion : ConversionRequest.t)
  (current_user : User.t) (now : Z) (db : DB) :
  (TransactionCreate.transaction_type transaction = "deposit" ->
   F64.nonneg (TransactionCreate.amount transaction) ->
   Forall2 not_lowered (wallets db)
     (wallets
        (snd (serve (create_transaction transaction current_user now) db))))
  /\ (F64.nonneg (ConversionRequest.amount_uzs conversion) ->
      Forall2 not_lowered (wallets db)
        (wallets
           (snd (serve (convert_currency conversion current_user now) db)))).
Proof.
  split.
  - intros K Hx.
    destruct (create_transaction_cases transaction current_user now db)
      as [[e ->] | (ws & Happlied & ->)];
      [apply Forall2_same, not_lowered_same |].
    cbn [snd wallets].
    destruct (applied_kind _ _ _ _ Happlied)
      as [(_ & wallet & ->) | [(K' & _) | (K' & _)]];
      [now apply credits_not_lowered | |]; rewrite K in K'; discriminate.
  - intros Hx.
    destruct (convert_currency_cases conversion current_user now db)
      as [[e ->] | (wallet & b & W & B & ->)];
      [apply Forall2_same, not_lowered_same |].
    cbn [snd wallets].
    apply credits_not_lowered. now apply F64_facts.convert_nonneg.
Qed.

(** X20: a withdrawal of an amount [>= 0] raises no balance: row for row,
    every balance after the request that is a number is [<=] the balance it
    replaces, whatever the rounding of the binary64 subtraction did. *)
Theorem X20_withdrawals_never_raise_a_balance
  (transaction : TransactionCreate.t) (current_user : User.t) (now : Z)
  (db : DB) :
  TransactionCreate.transaction_type transaction = "withdrawal" ->
  F64.nonneg (TransactionCreate.amount transaction) ->
  Forall2 not_raised (wallets db)
    (wallets
       (snd (serve (create_transaction transaction current_user now) db))).
Proof.
  intros K Hx.
  destruct (create_transaction_cases transaction current_user now db)
    as [[e ->] | (ws & Happlied & ->)];
    [apply Forall2_same, not_raised_same |].
  cbn [snd wallets].
  destruct (applied_kind _ _ _ _ Happlied)
    as [(K' & _) | [(_ & wallet & ->) | (K' & _)]];
    [| now apply debits_not_raised |]; rewrite K in K'; discriminate.
Qed.

(** X21: a transfer of an amount [>= 0] to a wallet other than the sender's
    moves balances one way only: the sender's balance is not raised, no other
    balance is lowered (the recipient's included), unless the new balance is
    NaN. *)
Theorem X21_transfers_move_balances_one_way
  (transaction : TransactionCreate.t) (current_user : User.t) (now : Z)
  (db : DB) (wallet : Wallet.t) :
  find_wallet (User.id current_user)
    (TransactionCreate.currency transaction) db = Some wallet ->
  TransactionCreate.transaction_type transaction = "transfer" ->
  TransactionCreate.recipient_wallet_id transaction
  <> Some (Wallet.id wallet) ->
  F64.nonneg (TransactionCreate.amount transaction) ->
  Forall2 (fun w w' => if Wallet.id w =? Wallet.id wallet
                       then not_raised w w' else not_lowered w w')
    (wallets db)
    (wallets
       (snd (serve (create_transaction transaction current_user now) db))).
Proof.
  intros W K Hne Hx.
  destruct (create_transaction_cases transaction current_user now db)
    as [[e ->] | (ws & Happlied & ->)].
  { apply Forall2_same. intros w.
    destruct (_ =? _); [apply not_raised_same | apply not_lowered_same]. }
  cbn [snd wallets].
  destruct (applied_kind _ _ _ _ Happlied)
    as [(K' & _) | [(K' & _) | (_ & sender & recipient_wallet & W' & R & ->)]];
    try (rewrite K in K'; discriminate).
  rewrite W in W'. inversion W'; subst sender.
  destruct (Z.eqb_spec (Wallet.id recipient_wallet) (Wallet.id wallet))
    as [E | E]; [exfalso; apply Hne; now rewrite R, E |].
  unfold committed_update, rewrite_balance. rewrite map_map.
  apply Forall2_map_self. intros w.
  destruct (Z.eqb_spec (Wallet.id w) (Wallet.id wallet)) as [Ew | Ew].
  - cbn [Wallet.with_balance Wallet.id].
    destruct (Z.eqb_spec (Wallet.id w) (Wallet.id recipient_wallet));
      [congruence |].
    now apply debit_not_raised.
  - destruct (Wallet.id w =? Wallet.id recipient_wallet);
      [now apply credit_not_lowered | apply not_lowered_same].
Qed.

Lemma update_keeps_numbers f wid ws :
  (forall b, is_number b -> is_number (f b)) ->
  Forall (fun w => cell_is is_number (Wallet.balance w)) ws ->
  Forall (fun w => cell_is is_number (Wallet.balance w))
    (committed_update f wid ws).
Proof.
  intros Hf Hws. unfold committed_update, rewrite_balance.
  apply Forall_map. eapply Forall_impl; [| exact Hws].
  intros w (b & B & Hb). destruct (_ =? _); [| now exists b].
  cbn [Wallet.with_balance Wallet.balance]. rewrite B. cbn [option_map].
  apply F64_cell.written_keeps; [now apply Hf | reflexivity |].
  specialize (Hf b Hb). unfold is_number in Hf. unfold PrimFloat.is_nan.
  now rewrite Hf.
Qed.

Section Numbers.

Context `{Passlib} `{Jose}.

Lemma create_transaction_numbers transaction current_user now db :
  PrimFloat.is_finite (TransactionCreate.amount transaction) = true ->
  balances_are_numbers db ->
  balances_are_numbers
    (snd (serve (create_transaction transaction current_user now) db)).
Proof.
  intros Hx Hdb.
  assert (forall b, is_number b ->
                    is_number (PrimFloat.add b
                                 (TransactionCreate.amount transaction)))
    as Hadd by (intros b Hb; now apply F64_order.add_number).
  assert (forall b, is_number b ->
                    is_number (PrimFloat.sub b
                                 (TransactionCreate.amount transaction)))
    as Hsub by (intros b Hb; now apply F64_order.sub_number).
  destruct (create_transaction_cases transaction current_user now db)
    as [[e ->] | (ws & Happlied & ->)]; [exact Hdb |].
  unfold balances_are_numbers in *. cbn [snd wallets].
  destruct (applied_kind _ _ _ _ Happlied)
    as [(_ & wallet & ->)
       | [(_ & wallet & ->) | (_ & wallet & recipient_wallet & _ & _ & ->)]].
  - now apply update_keeps_numbers.
  - now apply update_keeps_numbers.
  - destruct (_ =? _).
    + apply update_keeps_numbers; [| exact Hdb]. auto.
    + apply update_keeps_numbers; [exact Hadd |].
      now apply update_keeps_numbers.
Qed.

Lemma convert_currency_numbers conversion current_user now db :
  PrimFloat.is_finite (ConversionRequest.amount_uzs conversion) = true ->
  balances_are_numbers db ->
  balances_are_numbers
    (snd (serve (convert_currency conversion current_user now) db)).
Proof.
  intros Hx Hdb.
  destruct (convert_currency_cases conversion current_user now db)
    as [[e ->] | (wallet & b & W & B & ->)]; [exact Hdb |].
  unfold balances_are_numbers in *. cbn [snd wallets].
  apply update_keeps_numbers; [| exact Hdb].
  intros b0 Hb. apply F64_order.add_number; [exact Hb |].
  now apply F64_order.convert_finite.
Qed.

Lemma create_user_numbers user salt db :
  balances_are_numbers db ->
  balances_are_numbers (snd (serve (create_user user salt) db)).
Proof.
  intros Hdb.
  destruct (create_user_cases user salt db) as [[e ->] | (hashed & F & ->)];
    [exact Hdb |].
  apply Forall_app. split; [exact Hdb |].
  repeat constructor. exists 0%float. split; reflexivity.
Qed.

Lemma app_numbers req now db :
  amount_finite req -> balances_are_numbers db ->
  balances_are_numbers (snd (app req now db)).
Proof.
  intros Hreq Hdb.
  destruct (app_cases req now db)
    as [-> | [(user & salt & ->)
             | [(transaction & u & Hu & -> & ->)
               | (conversion & u & Hu & -> & ->)]]].
  - exact Hdb.
  - now apply create_user_numbers.
  - now apply create_transaction_numbers.
  - now apply convert_currency_numbers.
Qed.

(** X22: NaN never comes out of finite amounts: if every balance is a
    number, then after any sequence of requests whose amounts are finite, of
    either sign, every balance is still a number (possibly an infinity). *)
Theorem X22_finite_amounts_never_make_nan
  (reqs : list (Request * Z)) (db : DB) :
  Forall (fun r => amount_finite (fst r)) reqs ->
  balances_are_numbers db -> balances_are_numbers (run reqs db).
Proof.
  revert db. induction reqs as [| [req now] rest IH]; intros db Hreqs Hdb.
  - exact Hdb.
  - inversion Hreqs; subst. cbn [run]. apply IH; [assumption |].
    now apply app_numbers.
Qed.

End Numbers.

(** X23: [convert_uzs_to_usdt] never overflows: a finite amount converts
    to a finite amount, and a finite amount [>= 0] to a finite amount
    [>= 0]. *)
Theorem X23_conversion_of_a_finite_amount_is_finite (amount_uzs : float) :
  PrimFloat.is_finite amount_uzs = true ->
  PrimFloat.is_finite (convert_uzs_to_usdt amount_uzs) = true
  /\ (F64.nonneg amount_uzs ->
      F64.finite_nonneg (convert_uzs_to_usdt amount_uzs)).
Proof.
  intros Hfin.
  pose proof (F64_order.convert_finite amount_uzs Hfin) as Hq.
  split; [exact Hq |]. intros Hnn.
  pose proof (F64_facts.convert_nonneg amount_uzs Hnn) as Hq0.
  split; [exact Hq0 |].
  rewrite F64_order.is_finite_spec in Hq.
  rewrite F64_facts.nonneg_spec in Hq0.
  rewrite ltb_spec. change (Prim2SF infinity) with (S754_infinity false).
  destruct (SF_facts.sf_nonneg_shape _ Hq0) as [s | | m e];
    [reflexivity | discriminate | reflexivity].
Qed.

(** ** NULL balances *)



Section Nulls.

Context `{Passlib} `{Jose}.




End Nulls.

(** ** What the database holds *)

Lemma committed_update_stored f wid ws :
  Forall (fun w => stored_cell (Wallet.balance w)) ws ->
  Forall (fun w => stored_cell (Wallet.balance w))
    (committed_update f wid ws).
Proof.
  intros Hws. unfold committed_update, rewrite_balance. apply Forall_map.
  eapply Forall_impl; [| exact Hws].
  intros w Hw. destruct (_ =? _); [| exact Hw].
  cbn [Wallet.with_balance Wallet.balance]. now apply written_is_stored.
Qed.

Lemma ledger_entry_stored db uid amt cur ty rid now :
  Forall (fun t => stored_cell (Transaction.amount t)) (transactions db) ->
  Forall (fun t => stored_cell (Transaction.amount t))
    (transactions db ++ [ledger_entry db uid amt cur ty rid now]).
Proof.
  intros Hts. apply Forall_app. split; [exact Hts |].
  repeat constructor. apply sqlite_real_stored.
Qed.

Lemma stored_not_nan b : stored_cell (Some b) -> PrimFloat.is_nan b = false.
Proof.
  unfold stored_cell. cbn [sqlite_store]. unfold sqlite_real.
  now destruct (PrimFloat.is_nan b).
Qed.

Section Stored.

Context `{Passlib} `{Jose}.

Lemma app_stored req now db :
  cells_stored db -> cells_stored (snd (app req now db)).
Proof.
  intros [Hws Hts].
  destruct (app_cases req now db)
    as [-> | [(user & salt & ->)
             | [(transaction & u & Hu & _ & ->)
               | (conversion & u & Hu & _ & ->)]]].
  - now split.
  - destruct (create_user_cases user salt db)
      as [[e ->] | (hashed & F & ->)]; [now split |].
    split; [| exact Hts]. cbn [snd wallets].
    apply Forall_app. split; [exact Hws |]. now repeat constructor.
  - destruct (create_transaction_cases (snd transaction) u now db)
      as [[e ->] | (ws & Happlied & ->)]; [now split |].
    split; cbn [snd wallets transactions];
      [| now apply ledger_entry_stored].
    destruct (applied_kind _ _ _ _ Happlied)
      as [(_ & wallet & ->)
         | [(_ & wallet & ->) | (_ & wallet & recipient_wallet & _ & _ & ->)]].
    + now apply committed_update_stored.
    + now apply committed_update_stored.
    + destruct (_ =? _); repeat apply committed_update_stored; assumption.
  - destruct (convert_currency_cases (snd conversion) u now db)
      as [[e ->] | (wallet & b & W & B & ->)]; [now split |].
    split; cbn [snd wallets transactions];
      [now apply committed_update_stored | now apply ledger_entry_stored].
Qed.

(** X25: the database never holds NaN or [-0.0]: if every balance and
    every ledger amount is as SQLite stores it (as in the empty database),
    this remains so after every sequence of requests, whatever their
    amounts; in particular no balance and no ledger amount in the database
    is NaN. *)
Theorem X25_the_database_never_holds_nan
  (reqs : list (Request * Z)) (db : DB) :
  cells_stored db ->
  cells_stored (run reqs db)
  /\ (forall w b,
         In w (wallets (run reqs db)) -> Wallet.balance w = Some b ->
         PrimFloat.is_nan b = false)
  /\ (forall t a,
         In t (transactions (run reqs db)) ->
         Transaction.amount t = Some a ->
         PrimFloat.is_nan a = false).
Proof.
  intros Hdb.
  assert (cells_stored (run reqs db)) as [Hws Hts].
  { revert db Hdb. induction reqs as [| [req now] rest IH]; intros db Hdb;
      [exact Hdb |].
    cbn [run]. apply IH. now apply app_stored. }
  split; [now split |]. rewrite Forall_forall in Hws, Hts. split.
  - intros w b Hin B. apply stored_not_nan. rewrite <- B. now apply Hws.
  - intros t a Hin A. apply stored_not_nan. rewrite <- A. now apply Hts.
Qed.

End Stored.

(** ** Worked instances *)

(** A token signed with another key is refused on a protected route. *)
Lemma X3_witness_forged_token :
  let forged : token :=
    jwt_encode (Claims.mk (Some "alice") (Some 9999)) "another-key" "HS256" in
  app (POST_transactions forged (deposit 100)) 2000 db_two_users
  = (Raise credentials_exception, db_two_users).
Proof.
  intros forged.
  destruct (X3_routes_act_for_resolved_users_only
              (POST_transactions forged (deposit 100)) forged 2000
              db_two_users eq_refl) as [Hrefused _].
  apply (Hrefused credentials_exception
           (mkSession db_two_users db_two_users)).
  vm_compute. reflexivity.
Defined.

(** Logging in leaves the database as it was. *)
Lemma X4_witness_login_reads :
  snd (app (POST_token alice_form) 5000 db_two_users) = db_two_users.
Proof.
  exact (X4_reading_routes_change_nothing (POST_token alice_form) 5000
           db_two_users eq_refl).
Defined.

(** Alice exists, carol does not: a password with a NUL byte ends alice's
    login with passlib's exception and carol's with the 401. *)
Lemma X1_witness_nul_password :
  let password := String Ascii.zero "pw" in
  serve (login (OAuth2PasswordRequestForm.mk "alice" password) 1000)
        db_two_users
  = (Raise ValueError, db_two_users)
  /\ serve (login (OAuth2PasswordRequestForm.mk "carol" password) 1000)
           db_two_users
     = (Raise (mkHTTPException 401 "Incorrect username or password"),
        db_two_users).
Proof.
  intros password. split.
  - exact (proj2 (X1_login_outcome
                    (OAuth2PasswordRequestForm.mk "alice" password) 1000
                    db_two_users) reference_refuses_nul eq_refl).
  - exact (X1_login_outcome
             (OAuth2PasswordRequestForm.mk "carol" password) 1000
             db_two_users).
Defined.

(** Alice's deposit of 100 is the one row of her listing; bob's is empty. *)
Lemma X8_witness_deposit_recorded :
  transactions_of 1 db_alice_100
  = [Transaction.mk 1 1 (Some 100%float) "USDT" "deposit" None 2000]
  /\ transactions_of 2 db_alice_100 = [].
Proof.
  destruct (X8_applied_request_is_recorded_once (deposit 100) alice_row 2000
              db_two_users db_alice_100
              (Transaction.mk 1 1 (Some 100%float) "USDT" "deposit" None 2000)
              ltac:(vm_compute; reflexivity))
    as (_ & _ & Hmine & Hothers).
  split; [exact Hmine |].
  exact (Hothers 2 ltac:(discriminate)).
Defined.


(** Bob's wallet row is where and what it was after alice's deposit. *)
Lemma X10_witness_bob_untouched :
  nth_error
    (wallets (snd (serve (create_transaction (deposit 25) alice_row 3000)
                         db_alice_100))) 1
  = Some (Wallet.mk 2 2 "USDT" (Some 0%float)).
Proof.
  apply (proj1 (X10_other_wallets_are_untouched (deposit 25)
                  (ConversionRequest.mk 0) alice_row 3000 db_alice_100 1
                  (Wallet.mk 2 2 "USDT" (Some 0%float)) eq_refl)).
  - vm_compute. discriminate.
  - discriminate.
  - unfold wallet_ids_unique. vm_compute.
    repeat constructor; cbn; intuition discriminate.
Defined.


(** Two registrations, a repeated one, a deposit and a transfer. *)
Lemma X13_witness_keys_after_session :
  keys_unique
    (run [(POST_users alice "s1", 1000); (POST_users bob "s2", 1001);
          (POST_users alice "s3", 1002);
          (POST_transactions alice_token (deposit 100), 1003);
          (POST_transactions alice_token (transfer 20 2), 1004)] empty_db).
Proof.
  apply X13_keys_stay_unique. repeat split; constructor.
Defined.

Lemma X14_witness_wallets_after_session :
  one_wallet_each
    (run [(POST_users alice "s1", 1000); (POST_users bob "s2", 1001);
          (POST_transactions alice_token (deposit 100), 1003);
          (POST_convert alice_token (ConversionRequest.mk 12700), 1004)]
         empty_db).
Proof.
  apply X14_one_usdt_wallet_per_user. split; constructor.
Defined.


Lemma X16_witness_ledger_after_session :
  ledger_ok
    (run [(POST_users alice "s1", 1000); (POST_users bob "s2", 1001);
          (POST_transactions alice_token (deposit 100), 1003);
          (POST_transactions alice_token
             (TransactionCreate.mk 1 "USDT" "refund" None), 1004);
          (POST_transactions alice_token (transfer 20 2), 1005)] empty_db).
Proof.
  apply X16_ledger_rows_stay_well_formed. constructor.
Defined.

(** The token alice gets at time 1000 is good up to 2800 and not after. *)
Lemma X18_witness_alice_token_window :
  exists user,
    find_user "alice" db_two_users = Some user
    /\ forall now',
         serve (get_current_user alice_token now') db_two_users
         = if now' <=? 1000 + 1800
           then (Return user, db_two_users)
           else (Raise credentials_exception, db_two_users).
Proof.
  assert (serve (login alice_form 1000) db_two_users
          = (Return (TokenOut.mk _ alice_token "bearer"), db_two_users)) as L
      by reflexivity.
  exact (X18_login_token_lasts_thirty_minutes alice_form 1000 db_two_users
           (TokenOut.mk _ alice_token "bearer") reference_jose_ok L).
Defined.

(** Alice holds 0.1 and deposits 0.2: the sum is rounded, and not below
    0.1. *)
Lemma X19_witness_rounded_deposit :
  Forall2 not_lowered (wallets db_alice_tenth)
    (wallets
       (snd (serve (create_transaction (deposit 0.2) alice_row 3000)
                   db_alice_tenth))).
Proof.
  apply (proj1 (X19_credits_never_lower_a_balance (deposit 0.2)
                  (ConversionRequest.mk 0) alice_row 3000 db_alice_tenth));
    vm_compute; reflexivity.
Defined.

(** Alice holds 0.1 + 0.2 and withdraws 0.1. *)
Lemma X20_witness_rounded_withdrawal :
  Forall2 not_raised (wallets db_alice_three_tenths)
    (wallets
       (snd (serve (create_transaction (withdrawal 0.1) alice_row 4000)
                   db_alice_three_tenths))).
Proof.
  apply (X20_withdrawals_never_raise_a_balance (withdrawal 0.1) alice_row
           4000 db_alice_three_tenths); vm_compute; reflexivity.
Defined.

(** Alice sends bob 0.1 of her 100. *)
Lemma X21_witness_transfer_to_bob :
  Forall2 (fun w w' => if Wallet.id w =? 1
                       then not_raised w w' else not_lowered w w')
    (wallets db_alice_100)
    (wallets
       (snd (serve (create_transaction (transfer 0.1 2) alice_row 3000)
                   db_alice_100))).
Proof.
  apply (X21_transfers_move_balances_one_way (transfer 0.1 2) alice_row 3000
           db_alice_100 (Wallet.mk 1 1 "USDT" (Some 100%float)));
    try (vm_compute; reflexivity).
  discriminate.
Defined.

(** Deposits and withdrawals of either sign, and a conversion. *)
Lemma X22_witness_numbers_after_session :
  balances_are_numbers
    (run [(POST_users alice "s1", 1000); (POST_users bob "s2", 1001);
          (POST_transactions alice_token (deposit (-5)), 1002);
          (POST_transactions alice_token (withdrawal (-0.1)), 1003);
          (POST_transactions alice_token (transfer 1e308 2), 1004);
          (POST_convert alice_token (ConversionRequest.mk 1e308), 1005)]
         empty_db).
Proof.
  apply X22_finite_amounts_never_make_nan.
  - repeat constructor.
  - constructor.
Defined.

(** The largest binary64 number converts to a finite amount. *)
Lemma X23_witness_largest_amount :
  PrimFloat.is_finite (convert_uzs_to_usdt 0x1.fffffffffffffp+1023) = true.
Proof.
  exact (proj1 (X23_conversion_of_a_finite_amount_is_finite
                  0x1.fffffffffffffp+1023 eq_refl)).
Defined.


(** Alice deposits NaN, bob deposits -0.0 and an infinity: NULL, 0.0 and
    the infinity are what the database holds. *)
Lemma X25_witness_odd_amounts :
  let reqs :=
    [(POST_users alice "s1", 1000); (POST_users bob "s2", 1001);
     (POST_transactions alice_token (deposit nan), 1002);
     (POST_transactions
        (create_access_token (Claims.mk (Some "bob") None) 1001)
        (deposit (-0)), 1003);
     (POST_transactions
        (create_access_token (Claims.mk (Some "bob") None) 1001)
        (deposit infinity), 1004)] in
  map Wallet.balance (wallets (run reqs empty_db)) = [None; Some infinity]
  /\ map Transaction.amount (transactions (run reqs empty_db))
     = [None; Some 0%float; Some infinity]
  /\ cells_stored (run reqs empty_db).
Proof.
  intros reqs. split; [vm_compute; reflexivity |].
  split; [vm_compute; reflexivity |].
  apply (X25_the_database_never_holds_nan reqs empty_db).
  split; constructor.
Defined.
